(** * IIS log compressor: grouped archiving, verification, retention

    A shallow embedding of the core of [main.go]: the period grouper, the
    archive builder, the integrity verifier, the guarded deletion of
    originals and the retention sweep, together with the statements the
    specification makes about them.

    Go values are modelled as follows.
    - [int], [int64]: [Z], with the 64-bit wrap-around written out ([wrap64]).
    - [uint64]: [Z], converted to [int64] by [int64_of_uint64].
    - [string]: [string]; [error]: [option string] ([None] is [nil]).
    - [time.Time]: an instant, nanoseconds since the Unix epoch, read in UTC.
    - [map[string]T]: [gmap string T].
    - The file system, the clock and the package-level [stats] form the
      state threaded through every effectful function. *)

From Stdlib Require Import ZArith List Ascii String Bool Lia Sorted Permutation.
From stdpp Require Import base option list gmap strings pretty fin_maps.

Open Scope string_scope.
Open Scope list_scope.
Open Scope Z_scope.

(** ** Strings ([strings], [path/filepath]) *)

Module Str.

(** [unicode.ToLower] restricted to the ASCII letters. *)
Definition lower_ascii (c : ascii) : ascii :=
  let n := nat_of_ascii c in
  if ((65 <=? n) && (n <=? 90))%nat then ascii_of_nat (n + 32) else c.

Fixpoint ToLower (s : string) : string :=
  match s with
  | EmptyString => EmptyString
  | String c r => String (lower_ascii c) (ToLower r)
  end.

Definition HasPrefix (s pre : string) : bool := String.prefix pre s.

Definition HasSuffix (s suf : string) : bool :=
  String.prefix (String.rev suf) (String.rev s).

Fixpoint Contains (s sub : string) : bool :=
  String.prefix sub s ||
  match s with
  | EmptyString => false
  | String _ r => Contains r sub
  end.

(** [strings.ReplaceAll s old new] for a non-empty [old]: matches are
    taken left to right and do not overlap.  [skip] counts the characters
    of the current match that are still to be dropped. *)
Fixpoint replace_go (old new s : string) (skip : nat) : string :=
  match s with
  | EmptyString => EmptyString
  | String c r =>
      match skip with
      | S k => replace_go old new r k
      | O =>
          if String.prefix old s
          then new +:+ replace_go old new r (String.length old - 1)
          else String c (replace_go old new r 0)
      end
  end.

Definition ReplaceAll (s old new : string) : string := replace_go old new s 0.

(** Both separators of a Windows path. *)
Definition is_sep (c : ascii) : bool :=
  (Ascii.eqb c "/" || Ascii.eqb c "\")%char.

Fixpoint drop_seps (l : list ascii) : list ascii :=
  match l with
  | c :: r => if is_sep c then drop_seps r else l
  | [] => []
  end.

Fixpoint take_elem (l : list ascii) : list ascii :=
  match l with
  | c :: r => if is_sep c then [] else c :: take_elem r
  | [] => []
  end.

(** [filepath.Base]: the last element of the path, trailing separators
    dropped; ["."] for the empty path, a separator for a path made of
    separators only.  Volume names are not modelled. *)
Definition Base (p : string) : string :=
  match list_ascii_of_string p with
  | [] => "."
  | _ :: _ =>
      match take_elem (drop_seps (rev (list_ascii_of_string p))) with
      | [] => "\"
      | e => string_of_list_ascii (rev e)
      end
  end.

(** [filepath.Ext]: the suffix of the last element beginning at its
    final dot, empty if there is none. *)
Fixpoint ext_go (l acc : list ascii) : string :=
  match l with
  | [] => ""
  | c :: r =>
      if is_sep c then ""
      else if Ascii.eqb c "." then string_of_list_ascii (c :: acc)
      else ext_go r (c :: acc)
  end.

Definition Ext (p : string) : string := ext_go (rev (list_ascii_of_string p)) [].

(** [filepath.Join] of a directory and a name, without the final
    [Clean]: for a folder in clean form and a name without separator
    or dot element, for which [Clean] changes nothing. *)
Definition Join (dir name : string) : string :=
  match dir, name with
  | EmptyString, _ => name
  | _, EmptyString => dir
  | _, _ => dir +:+ "\" +:+ name
  end.

Definition digit (n : Z) : ascii := ascii_of_nat (48 + Z.to_nat (n mod 10)).

(** Zero-padded decimal rendering of a non-negative number on [width]
    digits (more significant digits are cut, as the layouts below never
    produce them in the years 0..9999). *)
Fixpoint pad (width : nat) (n : Z) : string :=
  match width with
  | O => ""
  | S w => pad w (n / 10) +:+ String (digit n) ""
  end.

End Str.

(** ** Time ([time.Time], UTC) *)

Module Time.

Definition t := Z.

Definition nsPerDay : Z := 86400 * 1000000000.

Definition Before (a b : t) : bool := a <? b.
Definition After (a b : t) : bool := b <? a.

(** [t.AddDate(0, 0, days)]. *)
Definition AddDays (a : t) (days : Z) : t := a + days * nsPerDay.

Definition days_of (a : t) : Z := a / nsPerDay.

(** Proleptic Gregorian date of a day count since 1970-01-01. *)
Definition civil_from_days (z0 : Z) : Z * Z * Z :=
  let z := z0 + 719468 in
  let era := z / 146097 in
  let doe := z - era * 146097 in
  let yoe := (doe - doe / 1460 + doe / 36524 - doe / 146096) / 365 in
  let y := yoe + era * 400 in
  let doy := doe - (365 * yoe + yoe / 4 - yoe / 100) in
  let mp := (5 * doy + 2) / 153 in
  let d := doy - (153 * mp + 2) / 5 + 1 in
  let m := if mp <? 10 then mp + 3 else mp - 9 in
  (if m <=? 2 then y + 1 else y, m, d).

Definition days_from_civil (y0 m d : Z) : Z :=
  let y := if m <=? 2 then y0 - 1 else y0 in
  let era := y / 400 in
  let yoe := y - era * 400 in
  let doy := (153 * (if 2 <? m then m - 3 else m + 9) + 2) / 5 + d - 1 in
  let doe := yoe * 365 + yoe / 4 - yoe / 100 + doy in
  era * 146097 + doe - 719468.

Definition Year (a : t) : Z := fst (fst (civil_from_days (days_of a))).
Definition Month (a : t) : Z := snd (fst (civil_from_days (days_of a))).
Definition Day (a : t) : Z := snd (civil_from_days (days_of a)).
Definition YearDay (a : t) : Z := days_of a - days_from_civil (Year a) 1 1 + 1.

(** The layouts the program passes to [Format]. *)
Definition Format_2006 (a : t) : string := Str.pad 4 (Year a).
Definition Format_06 (a : t) : string := Str.pad 2 (Year a).
Definition Format_01 (a : t) : string := Str.pad 2 (Month a).
Definition Format_02 (a : t) : string := Str.pad 2 (Day a).
Definition Format_002 (a : t) : string := Str.pad 3 (YearDay a).
Definition Format_2006_01 (a : t) : string := Format_2006 a +:+ "-" +:+ Format_01 a.
Definition Format_2006_01_02 (a : t) : string :=
  Format_2006_01 a +:+ "-" +:+ Format_02 a.

(** Midnight UTC of a calendar date, for writing examples. *)
Definition date (y m d : Z) : t := days_from_civil y m d * nsPerDay.

End Time.

(** ** Data model *)

Definition error := option string.

(** Two's-complement wrap-around of [int] and [int64] arithmetic. *)
Definition wrap64 (z : Z) : Z := (z + 2 ^ 63) mod 2 ^ 64 - 2 ^ 63.

(** The conversion [int64(u)] of a [uint64]. *)
Definition int64_of_uint64 (u : Z) : Z := wrap64 u.

Definition itoa (z : Z) : string := pretty z.

Record Config := mkConfig {
  SourceFolder : string;
  DestFolder : string;
  LogAgeDays : Z;
  RetentionDays : Z;
  CleanupOldLogs : bool;
  DeleteOriginalAfterCompress : bool;
  CompressCurrentMonth : bool;
  ArchiveScope : string;
  KeepLastNArchives : Z;
  DestFileNamePattern : string;
  CompressionType : string;
  MaxCPUs : Z
}.

Record CompressionStats := mkStats {
  FilesProcessed : Z;
  FilesCompressed : Z;
  TotalSizeBefore : Z;
  TotalSizeAfter : Z;
  Errors : list string;
  StartTime : Time.t;
  EndTime : Time.t;
  EmailStatus : string;
  GroupCount : Z
}.

Record LogFile := mkLogFile {
  Path : string;
  Size : Z;
  ModTime : Time.t
}.

(** ** The environment: file system, clock, injected failures *)

(** An entry of a zip central directory ([zip.File]). *)
Record ZipEntry := mkZipEntry {
  Name : string;
  UncompressedSize64 : Z
}.

(** What [os.Stat] reports of a file, plus, for a container that was
    closed properly, its central directory. *)
Record File := mkFile {
  f_size : Z;
  f_mod : Time.t;
  f_isDir : bool;
  f_zip : option (list ZipEntry)
}.

(** One name returned by [os.ReadDir]. *)
Record DirEntry := mkDirEntry {
  de_name : string;
  de_isDir : bool
}.

(** One call of the function passed to [filepath.Walk]. *)
Record WalkEntry := mkWalkEntry {
  we_path : string;
  we_info : File;
  we_err : error
}.

(** The system calls that can be made to fail. *)
Inductive Op :=
| OpMkdirAll (p : string)
| OpCreate (p : string)
| OpOpen (p : string)
| OpZipCreate (p : string)
| OpCopy (p : string)
| OpZipClose (p : string)
| OpClose (p : string)
| OpOpenReader (p : string)
| OpStat (p : string)
| OpReadDir (p : string).

Record World := mkWorld {
  files : gmap string File;
  (** failing attempts left before [os.Remove] of a path goes through
      (a lock held for a while by another process) *)
  locks : gmap string nat;
  faults : Op -> bool;
  (** bytes written before a failing [io.Copy] gives up *)
  partial : string -> Z;
  (** size on disk of a container with the given entries *)
  packed : list ZipEntry -> Z;
  readdir : string -> list DirEntry;
  walk : string -> list WalkEntry;
  now : Time.t
}.

Definition set_files (f : gmap string File -> gmap string File) (w : World) : World :=
  mkWorld (f (files w)) (locks w) (faults w) (partial w) (packed w)
          (readdir w) (walk w) (now w).

Definition set_locks (f : gmap string nat -> gmap string nat) (w : World) : World :=
  mkWorld (files w) (f (locks w)) (faults w) (partial w) (packed w)
          (readdir w) (walk w) (now w).

(** What a run leaves behind for an observer. *)
Inductive Event :=
| EvLock
| EvUnlock (snapshot : CompressionStats)
| EvWrite
| EvPrint (line : string)
| EvRemove (p : string) (ok : bool)
| EvSleep (ms : Z)
| EvReadDir (p : string)
| EvWalk (p : string)
| EvOpenReader (p : string).

Record State := mkState {
  world : World;
  stats : CompressionStats
}.

(** ** A state-and-output monad *)

Definition M (A : Type) : Type := State -> A * State * list Event.

Definition ret {A} (a : A) : M A := fun s => (a, s, []).

Definition bind {A B} (m : M A) (k : A -> M B) : M B :=
  fun s =>
    let '(a, s1, e1) := m s in
    let '(b, s2, e2) := k a s1 in
    (b, s2, e1 ++ e2).

Notation "'let*' x ':=' m 'in' k" := (bind m (fun x => k))
  (at level 10, x pattern, m at level 100, k at level 200).

Definition result {A} (r : A * State * list Event) : A := fst (fst r).
Definition final {A} (r : A * State * list Event) : State := snd (fst r).
Definition events {A} (r : A * State * list Event) : list Event := snd r.

Definition emit (e : Event) : M unit := fun s => (tt, s, [e]).
Definition get_world : M World := fun s => (world s, s, []).
Definition modify_world (f : World -> World) : M unit :=
  fun s => (tt, mkState (f (world s)) (stats s), []).

(** [mu.Lock()] and [mu.Unlock()]; the release records the statistics an
    observer taking the lock next would see. *)
Definition mu_Lock : M unit := emit EvLock.
Definition mu_Unlock : M unit := fun s => (tt, s, [EvUnlock (stats s)]).

(** An assignment to a field of the package-level [stats]. *)
Definition stats_write (f : CompressionStats -> CompressionStats) : M unit :=
  fun s => (tt, mkState (world s) (f (stats s)), [EvWrite]).

Definition Printf (line : string) : M unit := emit (EvPrint line).
Definition time_Sleep (ms : Z) : M unit := emit (EvSleep ms).
Definition time_Now : M Time.t := fun s => (now (world s), s, []).

(** *** Statistics updates *)

Definition append_error (msg : string) (st : CompressionStats) : CompressionStats :=
  mkStats (FilesProcessed st) (FilesCompressed st) (TotalSizeBefore st)
          (TotalSizeAfter st) (Errors st ++ [msg]) (StartTime st) (EndTime st)
          (EmailStatus st) (GroupCount st).

Definition incr_FilesProcessed (st : CompressionStats) : CompressionStats :=
  mkStats (wrap64 (FilesProcessed st + 1)) (FilesCompressed st) (TotalSizeBefore st)
          (TotalSizeAfter st) (Errors st) (StartTime st) (EndTime st)
          (EmailStatus st) (GroupCount st).

Definition incr_FilesCompressed (st : CompressionStats) : CompressionStats :=
  mkStats (FilesProcessed st) (wrap64 (FilesCompressed st + 1)) (TotalSizeBefore st)
          (TotalSizeAfter st) (Errors st) (StartTime st) (EndTime st)
          (EmailStatus st) (GroupCount st).

Definition add_TotalSizeBefore (n : Z) (st : CompressionStats) : CompressionStats :=
  mkStats (FilesProcessed st) (FilesCompressed st) (wrap64 (TotalSizeBefore st + n))
          (TotalSizeAfter st) (Errors st) (StartTime st) (EndTime st)
          (EmailStatus st) (GroupCount st).

Definition add_TotalSizeAfter (n : Z) (st : CompressionStats) : CompressionStats :=
  mkStats (FilesProcessed st) (FilesCompressed st) (TotalSizeBefore st)
          (wrap64 (TotalSizeAfter st + n)) (Errors st) (StartTime st) (EndTime st)
          (EmailStatus st) (GroupCount st).

Definition set_GroupCount (n : Z) (st : CompressionStats) : CompressionStats :=
  mkStats (FilesProcessed st) (FilesCompressed st) (TotalSizeBefore st)
          (TotalSizeAfter st) (Errors st) (StartTime st) (EndTime st)
          (EmailStatus st) n.

(** *** System calls *)

Definition fails (o : Op) : M bool := fun s => (faults (world s) o, s, []).

(** [os.Create]: a new, empty file, or the existing one truncated. *)
Definition os_Create (p : string) : M error :=
  let* bad := fails (OpCreate p) in
  if bad : bool then ret (Some ("open " +:+ p))
  else
    let* t := time_Now in
    let* _ := modify_world (set_files (insert p (mkFile 0 t false None))) in
    ret None.

Definition os_Open (p : string) : M error :=
  let* bad := fails (OpOpen p) in
  let* w := get_world in
  ret (if bad : bool then Some ("open " +:+ p)
       else match files w !! p with
            | Some _ => None
            | None => Some ("open " +:+ p +:+ ": no such file")
            end).

Definition file_Close (p : string) : M error :=
  let* bad := fails (OpClose p) in
  ret (if bad : bool then Some ("close " +:+ p) else None).

Definition os_Stat (p : string) : M (option File) :=
  let* bad := fails (OpStat p) in
  let* w := get_world in
  ret (if bad : bool then None else files w !! p).

(** [os.Mkdir]: a new directory; [OpMkdirAll p] is the failure of the
    creation of the directory [p]. *)
Definition os_Mkdir (p : string) : M error :=
  let* bad := fails (OpMkdirAll p) in
  let* w := get_world in
  if bad : bool then ret (Some ("mkdir " +:+ p))
  else match files w !! p with
       | Some _ => ret (Some ("mkdir " +:+ p +:+ ": file exists"))
       | None =>
           let* t := time_Now in
           let* _ := modify_world (set_files (insert p (mkFile 0 t true None))) in
           ret None
       end.

Fixpoint drop_elem (l : list ascii) : list ascii :=
  match l with
  | c :: r => if Str.is_sep c then l else drop_elem r
  | [] => []
  end.

(** What precedes the last element of a path and its separator. *)
Definition parent_of (p : string) : string :=
  string_of_list_ascii
    (rev (tl (drop_elem (Str.drop_seps (rev (list_ascii_of_string p)))))).

Definition is_letter (c : ascii) : bool :=
  let n := nat_of_ascii c in
  (((65 <=? n) && (n <=? 90)) || ((97 <=? n) && (n <=? 122)))%nat.

(** The length of the volume name of a path: a drive letter and its
    colon.  UNC volumes are not modelled. *)
Definition volume_len (p : string) : nat :=
  match p with
  | String c (String ":" _) => if is_letter c then 2%nat else 0%nat
  | _ => 0%nat
  end.

(** The paths [os.MkdirAll] may create for [p]: [p], then the folders
    above it, nearest first, as far as the volume name. *)
Fixpoint mkdir_chain (fuel : nat) (p : string) : list string :=
  p :: match fuel with
       | O => []
       | S n =>
           if (volume_len p <? String.length (parent_of p))%nat
           then mkdir_chain n (parent_of p)
           else []
       end.

(** [os.MkdirAll] along such a chain: nothing to do for a path that is
    a directory already, an error for one that is a file, otherwise the
    folders above first, then [os.Mkdir] of the path itself; after a
    failed [os.Mkdir] the path is looked at once more. *)
Fixpoint MkdirAll_from (chain : list string) : M error :=
  match chain with
  | [] => ret None
  | path :: above =>
      let* dir := os_Stat path in
      match dir with
      | Some f =>
          ret (if f_isDir f then None
               else Some ("mkdir " +:+ path +:+ ": not a directory"))
      | None =>
          let* err := MkdirAll_from above in
          match err with
          | Some e => ret (Some e)
          | None =>
              let* err := os_Mkdir path in
              match err with
              | Some e =>
                  let* dir := os_Stat path in
                  match dir with
                  | Some f => ret (if f_isDir f then None else Some e)
                  | None => ret (Some e)
                  end
              | None => ret None
              end
          end
      end
  end.

Definition os_MkdirAll (p : string) : M error :=
  MkdirAll_from (mkdir_chain (String.length p) p).

(** [os.Remove]: refused while the path is locked, and for a path that
    does not exist. *)
Definition os_Remove (p : string) : M error :=
  fun s =>
    let w := world s in
    match locks w !! p with
    | Some (S n) =>
        (Some ("remove " +:+ p +:+ ": file in use"),
         mkState (set_locks (insert p n) w) (stats s),
         [EvRemove p false])
    | _ =>
        match files w !! p with
        | Some _ =>
            (None, mkState (set_files (delete p) w) (stats s), [EvRemove p true])
        | None =>
            (Some ("remove " +:+ p +:+ ": no such file"), s, [EvRemove p false])
        end
    end.

Definition os_ReadDir (p : string) : M (list DirEntry + string) :=
  let* _ := emit (EvReadDir p) in
  let* bad := fails (OpReadDir p) in
  let* w := get_world in
  ret (if bad : bool then inr ("open " +:+ p) else inl (readdir w p)).

(** [zip.OpenReader]: the central directory of a container on disk. *)
Definition zip_OpenReader (p : string) : M (list ZipEntry + string) :=
  let* _ := emit (EvOpenReader p) in
  let* bad := fails (OpOpenReader p) in
  let* w := get_world in
  ret (if bad : bool then inr ("open " +:+ p)
       else match files w !! p with
            | Some f =>
                match f_zip f with
                | Some dir => inl dir
                | None => inr "zip: not a valid zip file"
                end
            | None => inr ("open " +:+ p +:+ ": no such file")
            end).

(** The zip writer buffers what it is given.  How much of it has
    reached the container before [zipWriter.Close] is not modelled:
    between [os.Create] and a successful [Close] the container is shown
    as [os.Create] left it. *)

(** [zipWriter.Create(entryName)] for the source file [src]. *)
Definition zip_Create (src : string) : M error :=
  let* bad := fails (OpZipCreate src) in
  ret (if bad : bool then Some "zip: write error" else None).

(** [io.Copy(zw, srcFile)]: the number of bytes written, and the error. *)
Definition io_Copy (src : string) : M (Z * error) :=
  let* bad := fails (OpCopy src) in
  let* w := get_world in
  ret (if bad : bool then (partial w src, Some "copy failed")
       else (default 0 (f_size <$> files w !! src), None)).

(** [zipWriter.Close()]: writes the central directory of the container
    being built at [dest]. *)
Definition zip_Close (dest : string) (dir : list ZipEntry) : M error :=
  let* bad := fails (OpZipClose dest) in
  if bad : bool then ret (Some "zip: write error")
  else
    let* t := time_Now in
    let* w := get_world in
    let* _ := modify_world (set_files (insert dest (mkFile (packed w dir) t false (Some dir)))) in
    ret None.

(** [sort.Slice] as an insertion sort; Go leaves the order of elements
    that compare equal unspecified, here they keep their order. *)
Fixpoint sort_insert {A} (less : A -> A -> bool) (x : A) (l : list A) : list A :=
  match l with
  | [] => [x]
  | y :: r => if less y x then y :: sort_insert less x r else x :: y :: r
  end.

Definition sort_Slice {A} (less : A -> A -> bool) (l : list A) : list A :=
  fold_right (sort_insert less) [] l.

(** [filepath.Walk]: calls [fn] on every entry the traversal of [root]
    reaches, in order, and stops at the first error [fn] returns. *)
Fixpoint walk_loop {A} (fn : WalkEntry -> A -> M (A * error))
    (l : list WalkEntry) (acc : A) : M (A * error) :=
  match l with
  | [] => ret (acc, None)
  | e :: r =>
      let* (acc1, err) := fn e acc in
      match err with
      | Some msg => ret (acc1, Some msg)
      | None => walk_loop fn r acc1
      end
  end.

Definition filepath_Walk {A} (root : string)
    (fn : WalkEntry -> A -> M (A * error)) (acc : A) : M (A * error) :=
  let* _ := emit (EvWalk root) in
  let* w := get_world in
  walk_loop fn (walk w root) acc.

(** ** The program *)

Section Program.

Variable cfg : Config.

(** [groupKeyForTime] returns the grouping key based on [ArchiveScope]. *)
Definition groupKeyForTime (t : Time.t) : string :=
  if String.eqb (Str.ToLower (ArchiveScope cfg)) "daily"
  then Time.Format_2006_01_02 t
  else Time.Format_2006_01 t.

Definition getCompressionExtension : string :=
  let k := Str.ToLower (CompressionType cfg) in
  if String.eqb k "zip" then ".zip"
  else if String.eqb k "gzip" then ".gz"
  else ".zip".

(** [generateArchiveFileName] builds the archive name from the reference
    time and the scope. *)
Definition generateArchiveFileName (ref : Time.t) : string :=
  let pattern := DestFileNamePattern cfg in
  let pattern :=
    if String.eqb (Str.ToLower (ArchiveScope cfg)) "daily" then
      let pattern := Str.ReplaceAll pattern "%Y" (Time.Format_2006 ref) in
      let pattern := Str.ReplaceAll pattern "%m" (Time.Format_01 ref) in
      let pattern := Str.ReplaceAll pattern "%d" (Time.Format_02 ref) in
      let pattern := Str.ReplaceAll pattern "%H" "00" in
      let pattern := Str.ReplaceAll pattern "%M" "00" in
      let pattern := Str.ReplaceAll pattern "%S" "00" in
      let pattern := Str.ReplaceAll pattern "%y" (Time.Format_06 ref) in
      Str.ReplaceAll pattern "%j" (Time.Format_002 ref)
    else
      let pattern := Str.ReplaceAll pattern "%Y" (Time.Format_2006 ref) in
      let pattern := Str.ReplaceAll pattern "%m" (Time.Format_01 ref) in
      let pattern := Str.ReplaceAll pattern "%d" "01" in
      let pattern := Str.ReplaceAll pattern "%H" "00" in
      let pattern := Str.ReplaceAll pattern "%M" "00" in
      let pattern := Str.ReplaceAll pattern "%S" "00" in
      let pattern := Str.ReplaceAll pattern "%y" (Time.Format_06 ref) in
      Str.ReplaceAll pattern "%j" (Time.Format_002 ref) in
  pattern +:+ getCompressionExtension.

(** [deleteWithRetry] attempts to remove a file multiple times. *)
Fixpoint deleteWithRetry_from (path : string) (left : nat) (delay : Z)
    (lastErr : error) : M error :=
  match left with
  | O => ret lastErr
  | S k =>
      let* err := os_Remove path in
      match err with
      | Some e =>
          let* _ := time_Sleep delay in
          deleteWithRetry_from path k delay (Some e)
      | None => ret None
      end
  end.

Definition deleteWithRetry (path : string) (attempts : nat) (delay : Z) : M error :=
  deleteWithRetry_from path attempts delay None.

(** The loop of [addFilesToZip]; [dir] is the directory of the zip writer,
    [added] the paths embedded so far. *)
Fixpoint addFilesToZip_loop (destPath : string) (l : list LogFile)
    (dir : list ZipEntry) (added : list string) : M (list ZipEntry * list string) :=
  match l with
  | [] => ret (dir, added)
  | lf :: rest =>
      let* err := os_Open (Path lf) in
      match err with
      | Some e =>
          let* _ := Printf ("Warning: failed to open " +:+ Path lf +:+ ": " +:+ e) in
          let* _ := mu_Lock in
          let* _ := stats_write (append_error ("open " +:+ Path lf +:+ ": " +:+ e)) in
          let* _ := mu_Unlock in
          addFilesToZip_loop destPath rest dir added
      | None =>
          let entryName := Str.Base (Path lf) in
          let* err := zip_Create (Path lf) in
          match err with
          | Some e =>
              let* _ := Printf ("Warning: failed to create zip entry for "
                                +:+ Path lf +:+ ": " +:+ e) in
              let* _ := mu_Lock in
              let* _ := stats_write (append_error ("zip entry " +:+ Path lf +:+ ": " +:+ e)) in
              let* _ := mu_Unlock in
              addFilesToZip_loop destPath rest dir added
          | None =>
              let* (n, err) := io_Copy (Path lf) in
              let dir := dir ++ [mkZipEntry entryName n] in
              match err with
              | Some e =>
                  let* _ := Printf ("Warning: failed to copy " +:+ Path lf
                                    +:+ " into zip: " +:+ e) in
                  let* _ := mu_Lock in
                  let* _ := stats_write (append_error ("zip copy " +:+ Path lf +:+ ": " +:+ e)) in
                  let* _ := mu_Unlock in
                  addFilesToZip_loop destPath rest dir added
              | None =>
                  let* _ := mu_Lock in
                  let* _ := stats_write incr_FilesProcessed in
                  let* _ := stats_write incr_FilesCompressed in
                  let* _ := stats_write (add_TotalSizeBefore (Size lf)) in
                  let* _ := mu_Unlock in
                  let* _ := Printf ("Added to " +:+ destPath +:+ ": " +:+ Path lf) in
                  addFilesToZip_loop destPath rest dir (added ++ [Path lf])
              end
          end
      end
  end.

(** [addFilesToZip] writes all files into the zip and returns the list
    of successfully added file paths. *)
Definition addFilesToZip (l : list LogFile) (destPath : string) : M (list string * error) :=
  let* (dir, added) := addFilesToZip_loop destPath l [] [] in
  let* err := zip_Close destPath dir in
  match err with
  | Some e => ret (added, Some ("closing zip writer: " +:+ e))
  | None => ret (added, None)
  end.

Definition mark_unverified (added : list string) : gmap string bool :=
  foldl (fun result p => <[p := false]> result) ∅ added.

(** The map of entry name to uncompressed size. *)
Definition entry_sizes (dir : list ZipEntry) : gmap string Z :=
  foldl (fun entries f => <[Name f := UncompressedSize64 f]> entries) ∅ dir.

Fixpoint verify_loop (entries : gmap string Z) (added : list string)
    (result : gmap string bool) : M (gmap string bool) :=
  match added with
  | [] => ret result
  | p :: rest =>
      let base := Str.Base p in
      let* stat := os_Stat p in
      match stat with
      | None => verify_loop entries rest (<[p := false]> result)
      | Some fi =>
          let size := f_size fi in
          match entries !! base with
          | Some u =>
              if int64_of_uint64 u =? size
              then verify_loop entries rest (<[p := true]> result)
              else verify_loop entries rest (<[p := false]> result)
          | None => verify_loop entries rest (<[p := false]> result)
          end
      end
  end.

(** [verifyZipContainsAll] checks that each path in [added] exists in
    the zip and the uncompressed size matches. *)
Definition verifyZipContainsAll (zipPath : string) (added : list string)
    : M (gmap string bool) :=
  let* zr := zip_OpenReader zipPath in
  match zr with
  | inr e =>
      let* _ := stats_write (append_error ("verify open zip " +:+ zipPath +:+ ": " +:+ e)) in
      ret (mark_unverified added)
  | inl dir => verify_loop (entry_sizes dir) added ∅
  end.

(** The deletion loop over the verification map (Go leaves the order
    of a [range] over a map unspecified). *)
Fixpoint delete_verified (l : list (string * bool)) : M unit :=
  match l with
  | [] => ret tt
  | (path, ok) :: rest =>
      let* _ :=
        if ok : bool then
          let* err := deleteWithRetry path 3 500 in
          match err with
          | Some e => Printf ("Warning: Failed to remove original file "
                              +:+ path +:+ ": " +:+ e)
          | None => ret tt
          end
        else ret tt in
      delete_verified rest
  end.

(** [compressMonthGroup] creates a single archive for all files in a
    given group key (month or day). *)
Definition compressMonthGroup (groupKey : string) (l : list LogFile) : M error :=
  match l with
  | [] => ret None
  | first :: _ =>
      let ref := ModTime first in
      let destFileName := generateArchiveFileName ref in
      let destPath := Str.Join (DestFolder cfg) destFileName in
      let* err := os_Create destPath in
      match err with
      | Some e => ret (Some ("failed to create destination file: " +:+ e))
      | None =>
          let kind := Str.ToLower (CompressionType cfg) in
          if String.eqb kind "zip" then
            let* (added, err) := addFilesToZip l destPath in
            match err with
            | Some e =>
                let* _ := file_Close destPath in
                let* _ := os_Remove destPath in
                ret (Some e)
            | None =>
                let* err := file_Close destPath in
                match err with
                | Some e => ret (Some ("closing destination file: " +:+ e))
                | None =>
                    let* verified := verifyZipContainsAll destPath added in
                    let* _ :=
                      if DeleteOriginalAfterCompress cfg
                      then delete_verified (map_to_list verified)
                      else ret tt in
                    let* info := os_Stat destPath in
                    let* _ :=
                      match info with
                      | Some fi =>
                          let* _ := mu_Lock in
                          let* _ := stats_write (add_TotalSizeAfter (f_size fi)) in
                          mu_Unlock
                      | None => ret tt
                      end in
                    ret None
                end
            end
          else if String.eqb kind "gzip" then
            let* _ := file_Close destPath in
            let* _ := os_Remove destPath in
            ret (Some "grouped mode requires zip compression; gzip not supported for grouped archive")
          else
            let* _ := file_Close destPath in
            let* _ := os_Remove destPath in
            ret (Some ("unsupported compression type: " +:+ CompressionType cfg
                       +:+ " (supported: zip)"))
      end
  end.

(** The function [findLogFiles] passes to [filepath.Walk]. *)
Definition findLogFiles_fn (cutoffDate : Time.t) (e : WalkEntry)
    (logFiles : list LogFile) : M (list LogFile * error) :=
  match we_err e with
  | Some err => ret (logFiles, Some err)
  | None =>
      let info := we_info e in
      let path := we_path e in
      if f_isDir info then ret (logFiles, None)
      else if Time.After (f_mod info) cutoffDate then ret (logFiles, None)
      else
        let ext := Str.ToLower (Str.Ext path) in
        if String.eqb ext ".log" || String.eqb ext ".txt"
           || Str.Contains (Str.ToLower path) "log"
        then ret (logFiles ++ [mkLogFile path (f_size info) (f_mod info)], None)
        else ret (logFiles, None)
  end.

Definition findLogFiles : M (list LogFile * error) :=
  let* t := time_Now in
  let cutoffDate := Time.AddDays t (- LogAgeDays cfg) in
  let* (logFiles, err) := filepath_Walk (SourceFolder cfg) (findLogFiles_fn cutoffDate) [] in
  ret (sort_Slice (fun a b => Time.Before (ModTime a) (ModTime b)) logFiles, err).

(** The grouping loop of [processLogs]. *)
Definition group_files (logFiles : list LogFile) : gmap string (list LogFile) :=
  foldl (fun groups lf =>
           let key := groupKeyForTime (ModTime lf) in
           <[key := default [] (groups !! key) ++ [lf]]> groups)
        ∅ logFiles.

(** The exclusion of the current period in [processLogs]. *)
Definition exclude_current (nowKey : string) (groups : gmap string (list LogFile))
    : gmap string (list LogFile) :=
  if String.eqb (Str.ToLower (ArchiveScope cfg)) "monthly" then
    if negb (CompressCurrentMonth cfg) then delete nowKey groups else groups
  else delete nowKey groups.

(** The groups [processLogs] hands to its workers. *)
Definition grouping (t : Time.t) (logFiles : list LogFile) : gmap string (list LogFile) :=
  exclude_current (groupKeyForTime t) (group_files logFiles).

(** One worker of [processLogs]. *)
Definition group_task (gk : string) (l : list LogFile) : M unit :=
  let* err := compressMonthGroup gk l in
  match err with
  | Some e =>
      let* _ := mu_Lock in
      let* _ := stats_write (append_error ("Error compressing group " +:+ gk +:+ ": " +:+ e)) in
      mu_Unlock
  | None => ret tt
  end.

(** The workers.  The program starts one goroutine per group and waits
    for all of them; here they run one after the other, in the order of
    the map. *)
Fixpoint run_tasks (l : list (string * list LogFile)) : M unit :=
  match l with
  | [] => ret tt
  | (gk, fl) :: rest => let* _ := group_task gk fl in run_tasks rest
  end.

Definition processLogs : M error :=
  let* err := os_MkdirAll (DestFolder cfg) in
  match err with
  | Some e => ret (Some ("failed to create destination folder: " +:+ e))
  | None =>
      let* (logFiles, err) := findLogFiles in
      match err with
      | Some e => ret (Some ("failed to find log files: " +:+ e))
      | None =>
          match logFiles with
          | [] =>
              let* _ := Printf "No log files found matching criteria" in
              ret None
          | _ :: _ =>
              let* _ := Printf ("Found " +:+ itoa (Z.of_nat (length logFiles))
                                +:+ " log files to process") in
              let* t := time_Now in
              let groups := grouping t logFiles in
              let* _ := stats_write (set_GroupCount (Z.of_nat (size groups))) in
              let* _ := run_tasks (map_to_list groups) in
              ret None
          end
      end
  end.

(** The filter loop of the keep-last-N branch of
    [cleanupOldCompressedLogs]: path and modification time of every
    entry that is kept as a candidate. *)
Fixpoint collect_archives (entries : list DirEntry) (found : list (string * Time.t))
    : M (list (string * Time.t)) :=
  match entries with
  | [] => ret found
  | e :: rest =>
      if de_isDir e then collect_archives rest found
      else
        let p := Str.Join (DestFolder cfg) (de_name e) in
        if negb (Str.HasSuffix (Str.ToLower (de_name e)) ".zip")
           && negb (Str.HasSuffix (Str.ToLower (de_name e)) ".gz")
        then collect_archives rest found
        else
          let* fi := os_Stat p in
          match fi with
          | None => collect_archives rest found
          | Some f => collect_archives rest (found ++ [(p, f_mod f)])
          end
  end.

(** The removal loop of the keep-last-N branch. *)
Fixpoint remove_beyond (l : list (string * Time.t)) (idx : Z) : M unit :=
  match l with
  | [] => ret tt
  | f :: rest =>
      let* _ :=
        if KeepLastNArchives cfg <=? idx then
          let* _ := Printf ("Removing old compressed log (keep last "
                            +:+ itoa (KeepLastNArchives cfg) +:+ "): " +:+ fst f) in
          let* _ := os_Remove (fst f) in
          ret tt
        else ret tt in
      remove_beyond rest (idx + 1)
  end.

(** The function the age branch passes to [filepath.Walk]. *)
Definition cleanup_fn (cutoffDate : Time.t) (e : WalkEntry) (_ : unit)
    : M (unit * error) :=
  match we_err e with
  | Some err => ret (tt, Some err)
  | None =>
      if f_isDir (we_info e) then ret (tt, None)
      else if Time.Before (f_mod (we_info e)) cutoffDate then
        let* _ := Printf ("Removing old compressed log: " +:+ we_path e) in
        let* err := os_Remove (we_path e) in
        ret (tt, err)
      else ret (tt, None)
  end.

Definition cleanupOldCompressedLogs : M error :=
  if 0 <? KeepLastNArchives cfg then
    let* r := os_ReadDir (DestFolder cfg) in
    match r with
    | inr e => ret (Some e)
    | inl entries =>
        let* found := collect_archives entries [] in
        let sorted := sort_Slice (fun a b => Time.After (snd a) (snd b)) found in
        let* _ := remove_beyond sorted 0 in
        ret None
    end
  else if RetentionDays cfg <=? 0 then ret None
  else
    let* t := time_Now in
    let cutoffDate := Time.AddDays t (- RetentionDays cfg) in
    let* (_, err) := filepath_Walk (DestFolder cfg) (cleanup_fn cutoffDate) tt in
    ret err.

End Program.

(** The statistics [main] starts a run with. *)
Definition initial_stats (t : Time.t) : CompressionStats :=
  mkStats 0 0 0 0 [] t 0 "" 0.

(** ** Vocabulary of the statements *)

(** Every file of a group has the key of the group. *)
Definition keyed (cfg : Config) (groups : gmap string (list LogFile)) : Prop :=
  forall k g, groups !! k = Some g ->
    Forall (fun lf => groupKeyForTime cfg (ModTime lf) = k) g.

(** The path removed by an event, if it is a removal. *)
Definition removed_path (e : Event) : option string :=
  match e with
  | EvRemove p _ => Some p
  | _ => None
  end.

(** Every event of a computation satisfies [P], from any state. *)
Definition emits {A} (P : Event -> Prop) (m : M A) : Prop :=
  forall s, Forall P (events (m s)).

(** A computation that reads the state and has no effect. *)
Definition silent {A} (m : M A) : Prop :=
  forall s, final (m s) = s /\ events (m s) = [].

(** The container [compressMonthGroup] writes for a group. *)
Definition container_path (cfg : Config) (l : list LogFile) : string :=
  match l with
  | [] => ""
  | first :: _ =>
      Str.Join (DestFolder cfg) (generateArchiveFileName cfg (ModTime first))
  end.

(** The archive build of a group: creation of the container, then
    [addFilesToZip]; its result holds the ArchiveRecord. *)
Definition built (cfg : Config) (l : list LogFile) (s : State)
    : (list string * error) * State * list Event :=
  addFilesToZip l (container_path cfg l)
    (final (os_Create (container_path cfg l) s)).

(** The verification mapping produced for the group. *)
Definition verification (cfg : Config) (l : list LogFile) (s : State)
    : gmap string bool :=
  result (verifyZipContainsAll (container_path cfg l)
            (fst (result (built cfg l s))) (final (built cfg l s))).

(** The uncompressed size of the last entry of a central directory
    that carries the name [n]. *)
Fixpoint last_named (n : string) (dir : list ZipEntry) : option Z :=
  match dir with
  | [] => None
  | e :: rest =>
      match last_named n rest with
      | Some u => Some u
      | None => if String.eqb (Name e) n then Some (UncompressedSize64 e) else None
      end
  end.

(** What [os.Stat] answers in a world. *)
Definition stat_of (w : World) (p : string) : option File :=
  if faults w (OpStat p) then None else files w !! p.

(** The verdict of the verifier on one path, given the map of entry sizes. *)
Definition verdict (w : World) (entries : gmap string Z) (p : string) : bool :=
  match stat_of w p with
  | None => false
  | Some fi =>
      match entries !! Str.Base p with
      | Some u => int64_of_uint64 u =? f_size fi
      | None => false
      end
  end.

(** Sizes as the operating system and the zip format report them. *)
Definition sizes_in_range (w : World) : Prop :=
  map_Forall (fun _ fi => 0 <= f_size fi < 2 ^ 63) (files w).

Definition entry_in_range (e : ZipEntry) : Prop :=
  0 <= UncompressedSize64 e < 2 ^ 64.

(** The two file counters of the statistics are equal. *)
Definition counters_agree (st : CompressionStats) : Prop :=
  FilesProcessed st = FilesCompressed st.

(** The statistics published at a release of the lock satisfy [I]. *)
Definition snapshot_ok (I : CompressionStats -> Prop) (e : Event) : Prop :=
  match e with
  | EvUnlock snap => I snap
  | _ => True
  end.

(** [m] maintains [I] on the statistics: from a state that satisfies it,
    the final state and every published snapshot satisfy it. *)
Definition keeps {A} (I : CompressionStats -> Prop) (m : M A) : Prop :=
  forall s, I (stats s) ->
    I (stats (final (m s))) /\ Forall (snapshot_ok I) (events (m s)).

(** One more file counted: [n++] on an [int]. *)
Definition incr (n : Z) : Z := wrap64 (n + 1).

(** The lock discipline on a sequence of events: [held] tells whether
    the task holds [mu]; the result is the final value of [held], or
    [None] if [stats] is assigned, or [mu] released, without the lock,
    or [mu] locked twice. *)
Fixpoint lock_run (held : bool) (evs : list Event) : option bool :=
  match evs with
  | [] => Some held
  | EvLock :: rest => if held then None else lock_run true rest
  | EvUnlock _ :: rest => if held then lock_run false rest else None
  | EvWrite :: rest => if held then lock_run true rest else None
  | _ :: rest => lock_run held rest
  end.

(** A computation that only assigns [stats] under the lock. *)
Definition guarded {A} (m : M A) : Prop :=
  forall s, lock_run false (events (m s)) = Some false.

(** A computation entered with the lock held that releases it. *)
Definition holding {A} (m : M A) : Prop :=
  forall s, lock_run true (events (m s)) = Some false.

(** Events that neither touch the lock nor [stats]. *)
Definition lock_free (e : Event) : Prop :=
  match e with
  | EvLock | EvUnlock _ | EvWrite => False
  | _ => True
  end.

Definition with_RetentionDays (d : Z) (c : Config) : Config :=
  mkConfig (SourceFolder c) (DestFolder c) (LogAgeDays c) d (CleanupOldLogs c)
           (DeleteOriginalAfterCompress c) (CompressCurrentMonth c) (ArchiveScope c)
           (KeepLastNArchives c) (DestFileNamePattern c) (CompressionType c) (MaxCPUs c).

Definition with_CompressionType (kind : string) (c : Config) : Config :=
  mkConfig (SourceFolder c) (DestFolder c) (LogAgeDays c) (RetentionDays c)
           (CleanupOldLogs c) (DeleteOriginalAfterCompress c) (CompressCurrentMonth c)
           (ArchiveScope c) (KeepLastNArchives c) (DestFileNamePattern c) kind (MaxCPUs c).

(** The name ends in [.zip] or [.gz], whatever the case of its letters. *)
Definition archive_name (name : string) : bool :=
  Str.HasSuffix (Str.ToLower name) ".zip" || Str.HasSuffix (Str.ToLower name) ".gz".

(** What the filter loop of keep-last-N retains of one directory entry. *)
Definition candidate (cfg : Config) (w : World) (e : DirEntry) : option (string * Time.t) :=
  if de_isDir e then None
  else if archive_name (de_name e)
  then match stat_of w (Str.Join (DestFolder cfg) (de_name e)) with
       | Some fi => Some (Str.Join (DestFolder cfg) (de_name e), f_mod fi)
       | None => None
       end
  else None.

(** The entry is a file whose modification time is strictly before the cutoff. *)
Definition expired (cutoff : Time.t) (e : WalkEntry) : Prop :=
  we_err e = None /\ f_isDir (we_info e) = false /\ f_mod (we_info e) < cutoff.

(** The cutoff of the age policy: now minus [RetentionDays] days. *)
Definition retention_cutoff (cfg : Config) (s : State) : Time.t :=
  Time.AddDays (now (world s)) (- RetentionDays cfg).

(** The test of the age policy on one entry of the walk. *)
Definition expiredb (cutoff : Time.t) (e : WalkEntry) : bool :=
  match we_err e with
  | Some _ => false
  | None => negb (f_isDir (we_info e)) && Time.Before (f_mod (we_info e)) cutoff
  end.

(** The sweep of the age policy over the entries of a walk. *)
Definition sweep (cutoff : Time.t) (l : list WalkEntry) : M (unit * error) :=
  walk_loop (cleanup_fn cutoff) l tt.

(** ** Sample runs *)

Module Sample.

Definition cfg : Config :=
  mkConfig "C:\logs" "C:\archive" 7 30 true true false "monthly" 0
           "iis_%Y_%m" "zip" 0.

Definition today : Time.t := Time.date 2024 2 20.

Definition stats0 : CompressionStats := initial_stats today.

Definition log (day size : Z) : File :=
  mkFile size (Time.date 2024 1 day) false None.

(** Two sites that name their daily logs alike. *)
Definition site1_jan1 : string := "C:\logs\W3SVC1\u_ex240101.log".
Definition site1_jan2 : string := "C:\logs\W3SVC1\u_ex240102.log".
Definition site2_jan1 : string := "C:\logs\W3SVC2\u_ex240101.log".

Definition january : list LogFile :=
  [mkLogFile site1_jan1 10 (Time.date 2024 1 1);
   mkLogFile site2_jan1 20 (Time.date 2024 1 1);
   mkLogFile site1_jan2 30 (Time.date 2024 1 2)].

Definition tree (root : string) : list WalkEntry :=
  [mkWalkEntry "C:\logs" (mkFile 0 0 true None) None;
   mkWalkEntry site1_jan1 (log 1 10) None;
   mkWalkEntry site1_jan2 (log 2 30) None;
   mkWalkEntry site2_jan1 (log 1 20) None].

Definition disk : gmap string File :=
  <[site1_jan1 := log 1 10]> (<[site2_jan1 := log 1 20]> (<[site1_jan2 := log 2 30]> ∅)).

Definition no_fault (o : Op) : bool := false.

Definition overhead (dir : list ZipEntry) : Z := 22 + 100 * Z.of_nat (length dir).

Definition world0 : World :=
  mkWorld disk ∅ no_fault (fun _ => 0) overhead (fun _ => []) tree today.

Definition start : State := mkState world0 stats0.

(** The container of January and the state the verifier finds. *)
Definition zipPath : string := container_path cfg january.
Definition archived : State := final (built cfg january start).
Definition record : list string := fst (result (built cfg january start)).

End Sample.

(** Other configurations, and file systems in which a call fails. *)
Module Variants.

Definition cfg_daily : Config :=
  mkConfig "C:\logs" "C:\archive" 7 30 true true true "Daily" 0
           "iis_%Y_%m_%d" "zip" 0.

(** Monthly scope with the current month included. *)
Definition cfg_current : Config :=
  mkConfig "C:\logs" "C:\archive" 7 30 true true true "monthly" 0
           "iis_%Y_%m" "zip" 0.

(** The container cannot be reopened after it was written. *)
Definition reader_fails (o : Op) : bool :=
  match o with
  | OpOpenReader _ => true
  | _ => false
  end.

(** Closing the destination file fails. *)
Definition close_fails (o : Op) : bool :=
  match o with
  | OpClose _ => true
  | _ => false
  end.

(** Closing the zip writer fails. *)
Definition zip_close_fails (o : Op) : bool :=
  match o with
  | OpZipClose _ => true
  | _ => false
  end.

Definition with_faults (f : Op -> bool) (s : State) : State :=
  mkState (mkWorld (files (world s)) (locks (world s)) f (partial (world s))
                   (packed (world s)) (readdir (world s)) (walk (world s))
                   (now (world s)))
          (stats s).

Definition unreadable : State := with_faults reader_fails Sample.start.
Definition unclosable : State := with_faults close_fails Sample.start.
Definition unflushable : State := with_faults zip_close_fails Sample.start.

End Variants.

(** A destination folder with archives of earlier runs. *)
Module Archive.

Definition dir : string := "C:\archive".
Definition today : Time.t := Time.date 2024 3 31.

Definition nov : string := "C:\archive\iis_2023_11.zip".
Definition dec : string := "C:\archive\iis_2023_12.ZIP".
Definition feb : string := "C:\archive\iis_2024_02.zip".
Definition old_gz : string := "C:\archive\old.gz".
Definition notes : string := "C:\archive\notes.txt".

Definition file (y m d : Z) : File := mkFile 500 (Time.date y m d) false None.
Definition folder : File := mkFile 0 (Time.date 2024 3 1) true None.

(** [feb] was written thirty days before [today], to the nanosecond. *)
Definition disk : gmap string File :=
  <[nov := file 2023 12 1]>
  (<[dec := file 2024 1 1]>
  (<[feb := file 2024 3 1]>
  (<[old_gz := file 2023 6 1]>
  (<[notes := file 2023 1 1]> ∅)))).

(** [ghost.zip] is listed but gone by the time it is stat-ed. *)
Definition listing (p : string) : list DirEntry :=
  [mkDirEntry "ghost.zip" false;
   mkDirEntry "iis_2023_11.zip" false;
   mkDirEntry "iis_2023_12.ZIP" false;
   mkDirEntry "iis_2024_02.zip" false;
   mkDirEntry "notes.txt" false;
   mkDirEntry "old.gz" false;
   mkDirEntry "sub.zip" true].

Definition tree (p : string) : list WalkEntry :=
  [mkWalkEntry dir folder None;
   mkWalkEntry nov (file 2023 12 1) None;
   mkWalkEntry dec (file 2024 1 1) None;
   mkWalkEntry feb (file 2024 3 1) None;
   mkWalkEntry notes (file 2023 1 1) None;
   mkWalkEntry old_gz (file 2023 6 1) None].

Definition world0 : World :=
  mkWorld disk ∅ Sample.no_fault (fun _ => 0) Sample.overhead listing tree today.

(** [nov] is held open by another process for one attempt. *)
Definition world_locked : World :=
  mkWorld disk {[nov := 1%nat]} Sample.no_fault (fun _ => 0) Sample.overhead
          listing tree today.

Definition start : State := mkState world0 Sample.stats0.
Definition locked : State := mkState world_locked Sample.stats0.

Definition cfg_age : Config :=
  mkConfig "C:\logs" dir 7 30 true true false "monthly" 0 "iis_%Y_%m" "zip" 0.
Definition cfg_keep : Config :=
  mkConfig "C:\logs" dir 7 30 true true false "monthly" 2 "iis_%Y_%m" "zip" 0.
Definition cfg_off : Config :=
  mkConfig "C:\logs" dir 7 0 true true false "monthly" 0 "iis_%Y_%m" "zip" 0.

End Archive.

(** ** Further functions of the program *)

Definition with_LogAgeDays (d : Z) (c : Config) : Config :=
  mkConfig (SourceFolder c) (DestFolder c) d (RetentionDays c) (CleanupOldLogs c)
           (DeleteOriginalAfterCompress c) (CompressCurrentMonth c) (ArchiveScope c)
           (KeepLastNArchives c) (DestFileNamePattern c) (CompressionType c) (MaxCPUs c).

Definition with_DestFileNamePattern (p : string) (c : Config) : Config :=
  mkConfig (SourceFolder c) (DestFolder c) (LogAgeDays c) (RetentionDays c)
           (CleanupOldLogs c) (DeleteOriginalAfterCompress c) (CompressCurrentMonth c)
           (ArchiveScope c) (KeepLastNArchives c) p (CompressionType c) (MaxCPUs c).

Definition with_ArchiveScope (a : string) (c : Config) : Config :=
  mkConfig (SourceFolder c) (DestFolder c) (LogAgeDays c) (RetentionDays c)
           (CleanupOldLogs c) (DeleteOriginalAfterCompress c) (CompressCurrentMonth c)
           a (KeepLastNArchives c) (DestFileNamePattern c) (CompressionType c) (MaxCPUs c).

Definition with_KeepLastNArchives (n : Z) (c : Config) : Config :=
  mkConfig (SourceFolder c) (DestFolder c) (LogAgeDays c) (RetentionDays c)
           (CleanupOldLogs c) (DeleteOriginalAfterCompress c) (CompressCurrentMonth c)
           (ArchiveScope c) n (DestFileNamePattern c) (CompressionType c) (MaxCPUs c).

(** [loadConfig] from the point where the file has been read and
    unmarshalled into [c]: the validation and the defaults.  The result
    is the configuration the run uses, or the error returned. *)
Definition loadConfig_validate (c : Config) : Config + string :=
  if String.eqb (SourceFolder c) "" then inr "source_folder is required"
  else if String.eqb (DestFolder c) "" then inr "dest_folder is required"
  else
    let c := if LogAgeDays c <=? 0 then with_LogAgeDays 7 c else c in
    let c := if RetentionDays c <? 0 then with_RetentionDays 0 c else c in
    let c := if String.eqb (CompressionType c) "" then with_CompressionType "zip" c else c in
    let c := if String.eqb (DestFileNamePattern c) ""
             then with_DestFileNamePattern "logs_%Y%m%d_%H%M%S" c else c in
    let c := if String.eqb (ArchiveScope c) "" then with_ArchiveScope "monthly" c else c in
    let c := if negb (String.eqb (Str.ToLower (ArchiveScope c)) "monthly")
                && negb (String.eqb (Str.ToLower (ArchiveScope c)) "daily")
             then with_ArchiveScope "monthly" c else c in
    let c := if KeepLastNArchives c <? 0 then with_KeepLastNArchives 0 c else c in
    inl c.

(** A configuration as [loadConfig] leaves it. *)
Definition normal (c : Config) : Prop :=
  SourceFolder c <> "" /\ DestFolder c <> ""
  /\ 0 < LogAgeDays c /\ 0 <= RetentionDays c /\ 0 <= KeepLastNArchives c
  /\ CompressionType c <> "" /\ DestFileNamePattern c <> ""
  /\ (Str.ToLower (ArchiveScope c) = "monthly" \/ Str.ToLower (ArchiveScope c) = "daily").

(** The name test of [findLogFiles]. *)
Definition log_name (path : string) : bool :=
  String.eqb (Str.ToLower (Str.Ext path)) ".log"
  || String.eqb (Str.ToLower (Str.Ext path)) ".txt"
  || Str.Contains (Str.ToLower path) "log".

(** The entries of a walk [findLogFiles] keeps. *)
Definition selected (cutoff : Time.t) (e : WalkEntry) : bool :=
  negb (f_isDir (we_info e)) && negb (Time.After (f_mod (we_info e)) cutoff)
  && log_name (we_path e).

Definition to_LogFile (e : WalkEntry) : LogFile :=
  mkLogFile (we_path e) (f_size (we_info e)) (f_mod (we_info e)).

(** The entries of a walk up to its first traversal error. *)
Fixpoint before_error (l : list WalkEntry) : list WalkEntry * error :=
  match l with
  | [] => ([], None)
  | e :: rest =>
      match we_err e with
      | Some err => ([], Some err)
      | None => (e :: fst (before_error rest), snd (before_error rest))
      end
  end.

(** The cutoff of the scan: now minus [LogAgeDays] days. *)
Definition scan_cutoff (cfg : Config) (s : State) : Time.t :=
  Time.AddDays (now (world s)) (- LogAgeDays cfg).

Definition older_first (a b : LogFile) : Prop := ModTime a <= ModTime b.

(** The failing attempts left before a path can be removed. *)
Definition lock_count (s : State) (p : string) : nat :=
  default 0%nat (locks (world s) !! p).

(** One failed attempt of [deleteWithRetry]: the removal, then the pause. *)
Definition failed_attempt (path : string) (delay : Z) : list Event :=
  [EvRemove path false; EvSleep delay].

(** Newest first, by modification time. *)
Definition newer_first (a b : string * Time.t) : Prop := snd b <= snd a.

(** What becomes of one member of a group in [addFilesToZip]. *)
Inductive Fate :=
| Unopened (e : string)
| NoEntry (e : string)
| Truncated (n : Z) (e : string)
| Embedded (n : Z).

Definition fate (w : World) (lf : LogFile) : Fate :=
  let p := Path lf in
  if faults w (OpOpen p) then Unopened ("open " +:+ p)
  else match files w !! p with
       | None => Unopened ("open " +:+ p +:+ ": no such file")
       | Some fi =>
           if faults w (OpZipCreate p) then NoEntry "zip: write error"
           else if faults w (OpCopy p) then Truncated (partial w p) "copy failed"
           else Embedded (f_size fi)
       end.

Definition is_embedded (w : World) (lf : LogFile) : bool :=
  match fate w lf with
  | Embedded _ => true
  | _ => false
  end.

(** The entry the zip writer holds for a member, if any. *)
Definition entry_of (w : World) (lf : LogFile) : option ZipEntry :=
  match fate w lf with
  | Truncated n _ | Embedded n => Some (mkZipEntry (Str.Base (Path lf)) n)
  | _ => None
  end.

(** The assignments to [stats] made for a member. *)
Definition account (w : World) (st : CompressionStats) (lf : LogFile)
    : CompressionStats :=
  match fate w lf with
  | Unopened e => append_error ("open " +:+ Path lf +:+ ": " +:+ e) st
  | NoEntry e => append_error ("zip entry " +:+ Path lf +:+ ": " +:+ e) st
  | Truncated _ e => append_error ("zip copy " +:+ Path lf +:+ ": " +:+ e) st
  | Embedded _ => add_TotalSizeBefore (Size lf) (incr_FilesCompressed (incr_FilesProcessed st))
  end.

(** Further sample data. *)
Module Extra.

(** A configuration file that leaves most settings out or wrong. *)
Definition cfg_raw : Config :=
  mkConfig "C:\logs" "C:\archive" 0 (-5) true false false "Weekly" (-1) "" "" 0.

(** What [loadConfig] makes of it. *)
Definition cfg_loaded : Config :=
  mkConfig "C:\logs" "C:\archive" 7 0 true false false "monthly" 0
           "logs_%Y%m%d_%H%M%S" "zip" 0.

(** A source tree one folder of which cannot be read. *)
Definition broken_tree (root : string) : list WalkEntry :=
  [mkWalkEntry "C:\logs" (mkFile 0 0 true None) None;
   mkWalkEntry Sample.site1_jan1 (Sample.log 1 10) None;
   mkWalkEntry "C:\logs\W3SVC2" (mkFile 0 0 true None) (Some "access denied");
   mkWalkEntry Sample.site2_jan1 (Sample.log 1 20) None].

Definition broken : State :=
  mkState (mkWorld Sample.disk ∅ Sample.no_fault (fun _ => 0) Sample.overhead
                   (fun _ => []) broken_tree Sample.today)
          Sample.stats0.

(** The sample group once its container has been created. *)
Definition created : State := final (os_Create Sample.zipPath Sample.start).

(** The January logs of one site: no two of them share a base name. *)
Definition site1 : list LogFile :=
  [mkLogFile Sample.site1_jan1 10 (Time.date 2024 1 1);
   mkLogFile Sample.site1_jan2 30 (Time.date 2024 1 2)].

(** Grouped mode asked to write gzip. *)
Definition cfg_gzip : Config :=
  mkConfig "C:\logs" "C:\archive" 7 30 true true false "monthly" 0
           "iis_%Y_%m" "gzip" 0.

(** A pattern without any placeholder. *)
Definition cfg_fixed : Config :=
  mkConfig "C:\logs" "C:\archive" 7 30 true true false "monthly" 0
           "iislogs" "zip" 0.

(** A source tree with a log of the current month that is old enough
    to be selected. *)
Definition feb10 : string := "C:\logs\W3SVC1\u_ex240210.log".

Definition busy_tree (root : string) : list WalkEntry :=
  [mkWalkEntry "C:\logs" (mkFile 0 0 true None) None;
   mkWalkEntry Sample.site1_jan1 (Sample.log 1 10) None;
   mkWalkEntry feb10 (mkFile 40 (Time.date 2024 2 10) false None) None].

Definition busy : State :=
  mkState (mkWorld (<[feb10 := mkFile 40 (Time.date 2024 2 10) false None]> Sample.disk)
                   ∅ Sample.no_fault (fun _ => 0) Sample.overhead
                   (fun _ => []) busy_tree Sample.today)
          Sample.stats0.

End Extra.

(** [htmlEscape] is a minimal escaper for text in HTML context. *)
Definition htmlEscape (s : string) : string :=
  let r := Str.ReplaceAll s "&" "&amp;" in
  let r := Str.ReplaceAll r "<" "&lt;" in
  Str.ReplaceAll r ">" "&gt;".

(** The characters of a string. *)
Definition chars (s : string) : list ascii := list_ascii_of_string s.

(** The errors recorded in [st] start with the list [old]. *)
Definition extends_errors (old : list string) (st : CompressionStats) : Prop :=
  exists more, Errors st = old ++ more.

(** [m] leaves whatever is at the path [q] as it is. *)
Definition spares {A} (q : string) (m : M A) : Prop :=
  forall s, files (world (final (m s))) !! q = files (world s) !! q.

(** [m] creates no file and changes none, and leaves the statistics alone. *)
Definition only_removes {A} (m : M A) : Prop :=
  forall s, stats (final (m s)) = stats s
            /\ files (world (final (m s))) ⊆ files (world s).

(** From [s] to [s'] nothing has happened but the creation of
    directories at paths of [chain]: the statistics and every file of
    [s] are as they were. *)
Definition grown (chain : list string) (s s' : State) : Prop :=
  stats s' = stats s
  /\ (exists fs, world s' = set_files (fun _ => fs) (world s))
  /\ (forall q f, files (world s) !! q = Some f -> files (world s') !! q = Some f)
  /\ (forall q f, files (world s') !! q = Some f ->
        files (world s) !! q = Some f
        \/ (files (world s) !! q = None /\ f_isDir f = true /\ In q chain)).


(** The ArchiveRecord of a group task started in [s]: the paths
    [compressMonthGroup] embeds in the container; none for an empty
    group, when the container cannot be created, and under a
    compression type other than zip. *)
Definition archive_record (cfg : Config) (l : list LogFile) (s : State) : list string :=
  match l with
  | [] => []
  | _ :: _ =>
      match result (os_Create (container_path cfg l) s) with
      | Some _ => []
      | None =>
          if String.eqb (Str.ToLower (CompressionType cfg)) "zip"
          then fst (result (built cfg l s))
          else []
      end
  end.

(** The tasks [run_tasks] runs, each with the state it starts in. *)
Fixpoint task_states (cfg : Config) (l : list (string * list LogFile)) (s : State)
    : list (string * list LogFile * State) :=
  match l with
  | [] => []
  | (gk, fl) :: rest =>
      (gk, fl, s) :: task_states cfg rest (final (group_task cfg gk fl s))
  end.

(** The group tasks of a run of [processLogs], each with the state it
    starts in: none when the destination folder cannot be created, and
    when the scan fails or finds nothing. *)
Definition dispatched (cfg : Config) (s : State) : list (string * list LogFile * State) :=
  let s1 := final (os_MkdirAll (DestFolder cfg) s) in
  let scan := result (findLogFiles cfg s1) in
  match result (os_MkdirAll (DestFolder cfg) s), snd scan, fst scan with
  | None, None, _ :: _ =>
      let groups := grouping cfg (now (world s1)) (fst scan) in
      task_states cfg (map_to_list groups)
        (mkState (world s1) (set_GroupCount (Z.of_nat (size groups)) (stats s1)))
  | _, _, _ => []
  end.

(** The number of files the tasks embed. *)
Definition embedded_total (cfg : Config) (ts : list (string * list LogFile * State)) : nat :=
  sum_list_with (fun t => length (archive_record cfg (snd (fst t)) (snd t))) ts.

(** A destination folder inside the scanned tree: the archive of an
    earlier run is found by the scan, and the zip writer cannot be
    closed. *)
Module Nested.

Definition cfg : Config :=
  mkConfig "C:\logs" "C:\logs" 7 30 true false false "monthly" 0
           "iis_%Y_%m" "zip" 0.

Definition old_zip : string := "C:\logs\iis_2024_01.zip".

Definition archive : File :=
  mkFile 500 (Time.date 2024 1 31) false (Some [mkZipEntry "u_ex240101.log" 10]).

Definition tree (root : string) : list WalkEntry :=
  [mkWalkEntry "C:\logs" (mkFile 0 0 true None) None;
   mkWalkEntry Sample.site1_jan1 (Sample.log 1 10) None;
   mkWalkEntry old_zip archive None].

Definition disk : gmap string File :=
  <["C:\logs" := mkFile 0 0 true None]>
  (<[Sample.site1_jan1 := Sample.log 1 10]> (<[old_zip := archive]> ∅)).

Definition start : State :=
  mkState (mkWorld disk ∅ Variants.zip_close_fails (fun _ => 0) Sample.overhead
                   (fun _ => []) tree Sample.today)
          Sample.stats0.

End Nested.

(** * Properties *)

(** ** Period grouper *)

Section Grouper.

Variable cfg : Config.

Lemma keyed_insert groups lf :
  keyed cfg groups ->
  keyed cfg (<[groupKeyForTime cfg (ModTime lf) :=
             default [] (groups !! groupKeyForTime cfg (ModTime lf)) ++ [lf]]> groups).
Proof.
  intros Hk k g. rewrite lookup_insert. case_decide as Hd.
  - intros [= <-]. apply Forall_app. split.
    + destruct (groups !! groupKeyForTime cfg (ModTime lf)) as [g0|] eqn:E; simpl.
      * rewrite <- Hd. eapply Hk, E.
      * constructor.
    + repeat constructor. exact Hd.
  - apply Hk.
Qed.

Lemma keyed_foldl l : forall groups,
  keyed cfg groups ->
  keyed cfg (foldl (fun groups lf =>
                  let key := groupKeyForTime cfg (ModTime lf) in
                  <[key := default [] (groups !! key) ++ [lf]]> groups) groups l).
Proof.
  induction l as [|lf l IH]; intros groups Hk; simpl; [exact Hk|].
  apply IH, keyed_insert, Hk.
Qed.

Lemma group_files_keyed l : keyed cfg (group_files cfg l).
Proof.
  apply keyed_foldl. intros k g. rewrite lookup_empty. discriminate.
Qed.

Lemma exclude_current_other nowKey groups k :
  k <> nowKey -> exclude_current cfg nowKey groups !! k = groups !! k.
Proof.
  intros Hne. unfold exclude_current.
  destruct (String.eqb _ "monthly"); [destruct (negb _)|];
    try reflexivity; apply lookup_delete_ne; congruence.
Qed.

End Grouper.

(** C2. After the grouping step the group of today's period is absent
    under daily scope whatever the configuration says, and absent under
    monthly scope unless [CompressCurrentMonth] is set, in which case
    nothing is removed; every other group is left as the grouping loop
    built it; and under daily scope no file kept in a group has today's
    key. *)
Theorem grouping_excludes_current_period (cfg : Config) (t : Time.t) (logFiles : list LogFile) :
  let nowKey := groupKeyForTime cfg t in
  let groups := grouping cfg t logFiles in
  (Str.ToLower (ArchiveScope cfg) = "daily" -> groups !! nowKey = None)
  /\ (Str.ToLower (ArchiveScope cfg) = "monthly" ->
      CompressCurrentMonth cfg = false -> groups !! nowKey = None)
  /\ (Str.ToLower (ArchiveScope cfg) = "monthly" ->
      CompressCurrentMonth cfg = true -> groups = group_files cfg logFiles)
  /\ (forall k, k <> nowKey -> groups !! k = group_files cfg logFiles !! k)
  /\ (Str.ToLower (ArchiveScope cfg) = "daily" ->
      forall k g lf, groups !! k = Some g -> In lf g ->
        groupKeyForTime cfg (ModTime lf) <> nowKey).
Proof.
  intros nowKey groups. subst groups. unfold grouping. fold nowKey.
  assert (Hdaily : Str.ToLower (ArchiveScope cfg) = "daily" ->
                   exclude_current cfg nowKey (group_files cfg logFiles) !! nowKey = None).
  { intros Hs. unfold exclude_current. rewrite Hs. simpl. apply lookup_delete_eq. }
  repeat split.
  - exact Hdaily.
  - intros Hs Hf. unfold exclude_current. rewrite Hs, Hf. simpl.
    apply lookup_delete_eq.
  - intros Hs Hf. unfold exclude_current. rewrite Hs, Hf. reflexivity.
  - intros k Hk. apply exclude_current_other, Hk.
  - intros Hs k g lf Hg Hin Heq.
    destruct (decide (k = nowKey)) as [->|Hne].
    + rewrite (Hdaily Hs) in Hg. discriminate.
    + rewrite exclude_current_other in Hg by exact Hne.
      pose proof (group_files_keyed cfg logFiles k g Hg) as HF.
      rewrite Forall_forall in HF. apply Hne. rewrite <- Heq. symmetry.
      apply HF. apply list_elem_of_In. exact Hin.
Qed.

(** ** Running monadic code *)

Lemma bind_run {A B} (m : M A) (k : A -> M B) s :
  result (bind m k s) = result (k (result (m s)) (final (m s)))
  /\ final (bind m k s) = final (k (result (m s)) (final (m s)))
  /\ events (bind m k s) = events (m s) ++ events (k (result (m s)) (final (m s))).
Proof.
  unfold bind, result, final, events.
  destruct (m s) as [[a s1] e1]. simpl.
  destruct (k a s1) as [[b s2] e2]. simpl. auto.
Qed.

Lemma result_bind {A B} (m : M A) (k : A -> M B) s :
  result (bind m k s) = result (k (result (m s)) (final (m s))).
Proof. apply bind_run. Qed.

Lemma final_bind {A B} (m : M A) (k : A -> M B) s :
  final (bind m k s) = final (k (result (m s)) (final (m s))).
Proof. apply bind_run. Qed.

Lemma events_bind {A B} (m : M A) (k : A -> M B) s :
  events (bind m k s) = events (m s) ++ events (k (result (m s)) (final (m s))).
Proof. apply bind_run. Qed.

Lemma result_ret {A} (a : A) s : result (ret a s) = a.
Proof. reflexivity. Qed.

Lemma final_ret {A} (a : A) s : final (ret a s) = s.
Proof. reflexivity. Qed.

Lemma silent_bind {A B} (m : M A) (k : A -> M B) :
  silent m -> (forall a, silent (k a)) -> silent (bind m k).
Proof.
  intros Hm Hk s. rewrite final_bind, events_bind.
  destruct (Hm s) as [-> ->]. destruct (Hk (result (m s)) s) as [-> ->]. auto.
Qed.

Lemma silent_ret {A} (a : A) : silent (ret a).
Proof. intros s. auto. Qed.

Lemma silent_fails o : silent (fails o).
Proof. intros s. auto. Qed.

Lemma silent_get_world : silent get_world.
Proof. intros s. auto. Qed.

Lemma silent_time_Now : silent time_Now.
Proof. intros s. auto. Qed.

Lemma silent_emits {A} P (m : M A) : silent m -> emits P m.
Proof. intros H s. destruct (H s) as [_ ->]. constructor. Qed.

Lemma bind_silent {A B} (m : M A) (k : A -> M B) s :
  silent m -> bind m k s = k (result (m s)) s.
Proof.
  intros H. destruct (H s) as [Hf He]. unfold bind.
  unfold final, events, result in *. destruct (m s) as [[a s1] e1]. simpl in *.
  subst. destruct (k a s) as [[b s2] e2]. reflexivity.
Qed.

Lemma emits_ret {A} P (a : A) : emits P (ret a).
Proof. intros s. constructor. Qed.

Lemma emits_bind {A B} P (m : M A) (k : A -> M B) :
  emits P m -> (forall a, emits P (k a)) -> emits P (bind m k).
Proof.
  intros Hm Hk s. rewrite events_bind. apply Forall_app. split; [apply Hm|apply Hk].
Qed.

Lemma emits_emit P e : P e -> emits P (emit e).
Proof. intros H s. repeat constructor. exact H. Qed.

Lemma emits_Printf P line : P (EvPrint line) -> emits P (Printf line).
Proof. apply emits_emit. Qed.

Lemma emits_mu_Lock P : P EvLock -> emits P mu_Lock.
Proof. apply emits_emit. Qed.

Lemma emits_time_Sleep P ms : P (EvSleep ms) -> emits P (time_Sleep ms).
Proof. apply emits_emit. Qed.

Lemma emits_stats_write P f : P EvWrite -> emits P (stats_write f).
Proof. intros H s. repeat constructor. exact H. Qed.

Lemma emits_mu_Unlock P : (forall snap, P (EvUnlock snap)) -> emits P mu_Unlock.
Proof. intros H s. repeat constructor. apply H. Qed.

Lemma emits_modify_world P f : emits P (modify_world f).
Proof. intros s. constructor. Qed.

Lemma emits_os_Remove P p : (forall ok, P (EvRemove p ok)) -> emits P (os_Remove p).
Proof.
  intros H s. unfold os_Remove.
  destruct (locks (world s) !! p) as [[|n]|]; [| repeat constructor; apply H |];
    destruct (files (world s) !! p); repeat constructor; apply H.
Qed.

Create HintDb run discriminated.

#[export] Hint Resolve silent_ret silent_fails silent_get_world silent_time_Now : run.
#[export] Hint Resolve emits_ret emits_emit emits_Printf emits_mu_Lock
  emits_time_Sleep emits_stats_write emits_mu_Unlock
  emits_modify_world emits_os_Remove : run.

(** Breaks a goal about a straight-line computation into its calls. *)
Ltac split_run :=
  repeat first
    [ apply silent_bind; [|intros ?]
    | apply emits_bind; [|intros ?]
    | match goal with
      | |- silent (match ?x with _ => _ end) => destruct x
      | |- emits _ (match ?x with _ => _ end) => destruct x
      end ].

Lemma silent_os_Open p : silent (os_Open p).
Proof. unfold os_Open. split_run; auto with run. Qed.

Lemma silent_file_Close p : silent (file_Close p).
Proof. unfold file_Close. split_run; auto with run. Qed.

Lemma silent_os_Stat p : silent (os_Stat p).
Proof. unfold os_Stat. split_run; auto with run. Qed.

Lemma silent_zip_Create p : silent (zip_Create p).
Proof. unfold zip_Create. split_run; auto with run. Qed.

Lemma silent_io_Copy p : silent (io_Copy p).
Proof. unfold io_Copy. split_run; auto with run. Qed.

#[export] Hint Resolve silent_os_Open silent_file_Close
  silent_os_Stat silent_zip_Create silent_io_Copy : run.
#[export] Hint Extern 5 (emits _ _) => (apply silent_emits; solve [auto with run]) : run.

Lemma emits_os_Create P p : emits P (os_Create p).
Proof. unfold os_Create. split_run; auto with run. Qed.

(** What [os.MkdirAll] does: it emits nothing, leaves the statistics
    and every file that exists alone, and what it adds are directories
    at paths of its chain. *)
Lemma grown_refl chain s : grown chain s s.
Proof.
  split; [reflexivity|]. split; [exists (files (world s)); destruct (world s); reflexivity|].
  split; auto.
Qed.

Lemma grown_trans c1 c2 s s1 s2 :
  grown c1 s s1 -> grown c2 s1 s2 ->
  (forall q, In q c1 \/ In q c2 -> In q (c2 ++ c1)) ->
  grown (c2 ++ c1) s s2.
Proof.
  intros (Hs & (fs & Hw) & Hk & Hn) (Hs2 & (fs2 & Hw2) & Hk2 & Hn2) Hin.
  split; [congruence|]. split; [exists fs2; rewrite Hw2, Hw; reflexivity|]. split.
  - intros q f Hq. apply Hk2, Hk, Hq.
  - intros q f Hq. destruct (Hn2 q f Hq) as [H1|(H1 & Hd & Hc)].
    + destruct (Hn q f H1) as [?|(? & ? & ?)]; [auto|]. right. auto.
    + destruct (files (world s) !! q) as [f1|] eqn:E.
      * apply Hk in E. congruence.
      * right. auto.
Qed.

Lemma os_Mkdir_effect p s :
  events (os_Mkdir p s) = [] /\ grown [p] s (final (os_Mkdir p s)).
Proof.
  unfold os_Mkdir, bind, fails, get_world, time_Now, modify_world, ret, events, final.
  cbn [fst snd].
  destruct (faults (world s) (OpMkdirAll p)); cbn [fst snd]; [split; [reflexivity|apply grown_refl]|].
  destruct (files (world s) !! p) as [f0|] eqn:E; cbn [fst snd];
    [split; [reflexivity|apply grown_refl]|].
  split; [reflexivity|]. split; [reflexivity|]. split; [eauto|].
  cbn [world set_files files]. split.
  - intros q f Hq. rewrite lookup_insert_ne; [exact Hq|]. congruence.
  - intros q f Hq. destruct (decide (p = q)) as [<-|Hne].
    + rewrite lookup_insert_eq in Hq. injection Hq as <-. right. cbn. auto.
    + rewrite lookup_insert_ne in Hq by exact Hne. left. exact Hq.
Qed.

Lemma MkdirAll_from_effect chain : forall s,
  events (MkdirAll_from chain s) = [] /\ grown chain s (final (MkdirAll_from chain s)).
Proof.
  induction chain as [|path above IH]; intros s; cbn [MkdirAll_from].
  - split; [reflexivity|apply grown_refl].
  - rewrite bind_silent by auto with run.
    destruct (result (os_Stat path s)) as [f0|]; [split; [reflexivity|apply grown_refl]|].
    rewrite events_bind, final_bind.
    destruct (IH s) as [He Hg]. rewrite He.
    assert (Hup : grown (path :: above) s (final (MkdirAll_from above s))).
    { destruct Hg as (H1 & H2 & H3 & H4). split; [exact H1|]. split; [exact H2|].
      split; [exact H3|]. intros q f Hq.
      destruct (H4 q f Hq) as [?|(? & ? & ?)]; [auto|]. right. cbn. auto. }
    destruct (result (MkdirAll_from above s)) as [e|]; [split; [reflexivity|exact Hup]|].
    rewrite events_bind, final_bind.
    destruct (os_Mkdir_effect path (final (MkdirAll_from above s))) as [He2 Hg2].
    rewrite He2.
    assert (Hall : grown (path :: above) s
                     (final (os_Mkdir path (final (MkdirAll_from above s))))).
    { apply (grown_trans above [path] s _ _ Hg Hg2). intros q [H|[<-|[]]]; cbn; auto. }
    destruct (result (os_Mkdir path _)) as [e|]; [|split; [reflexivity|exact Hall]].
    rewrite bind_silent by auto with run.
    destruct (result (os_Stat path _)) as [f1|]; split; try reflexivity; exact Hall.
Qed.

Lemma os_MkdirAll_effect p s :
  events (os_MkdirAll p s) = []
  /\ grown (mkdir_chain (String.length p) p) s (final (os_MkdirAll p s)).
Proof. apply MkdirAll_from_effect. Qed.

Lemma emits_os_MkdirAll P p : emits P (os_MkdirAll p).
Proof. intros s. destruct (os_MkdirAll_effect p s) as [-> _]. constructor. Qed.

(** ** The chain of [os.MkdirAll] *)

Lemma length_chars (p : string) : length (list_ascii_of_string p) = String.length p.
Proof. induction p as [|c p IH]; cbn; [reflexivity|]. rewrite IH. reflexivity. Qed.

Lemma length_of_chars (l : list ascii) : String.length (string_of_list_ascii l) = length l.
Proof. induction l as [|c l IH]; cbn; [reflexivity|]. rewrite IH. reflexivity. Qed.

Lemma length_drop_seps l : (length (Str.drop_seps l) <= length l)%nat.
Proof.
  induction l as [|c l IH]; cbn; [lia|]. destruct (Str.is_sep c); cbn; lia.
Qed.

Lemma length_drop_elem l : (length (drop_elem l) <= length l)%nat.
Proof.
  induction l as [|c l IH]; cbn; [lia|]. destruct (Str.is_sep c); cbn; lia.
Qed.

(** The parent of a path is shorter than the path, unless it is empty. *)
Lemma parent_of_shorter p :
  (0 < String.length (parent_of p))%nat ->
  (String.length (parent_of p) < String.length p)%nat.
Proof.
  unfold parent_of. rewrite length_of_chars, length_rev, <- length_chars.
  pose proof (length_drop_elem (Str.drop_seps (rev (list_ascii_of_string p)))) as H1.
  pose proof (length_drop_seps (rev (list_ascii_of_string p))) as H2.
  rewrite length_rev in H2.
  destruct (drop_elem _) as [|c r]; cbn [tl length] in *; lia.
Qed.

(** The chain does not depend on the fuel, as soon as there is as much
    of it as the path is long: the fuel [os_MkdirAll] gives is enough. *)
Lemma mkdir_chain_fuel n : forall m p,
  (String.length p <= n)%nat -> (String.length p <= m)%nat ->
  mkdir_chain n p = mkdir_chain m p.
Proof.
  assert (Hshort : forall k p, (String.length p <= 0)%nat -> mkdir_chain k p = [p]).
  { intros k p Hp. destruct p; [|cbn in Hp; lia]. destruct k; reflexivity. }
  induction n as [|n IH]; intros m p Hn Hm.
  - rewrite (Hshort m p Hn). apply Hshort. lia.
  - destruct m as [|m]; [rewrite (Hshort (S n) p Hm); symmetry; apply Hshort; lia|].
    cbn [mkdir_chain].
    destruct (volume_len p <? String.length (parent_of p))%nat eqn:E; [|reflexivity].
    apply Nat.ltb_lt in E.
    assert (Hlt : (String.length (parent_of p) < String.length p)%nat)
      by (apply parent_of_shorter; lia).
    f_equal. apply IH; lia.
Qed.

(** The chain ends where [os.MkdirAll] stops: at a path whose parent is
    no longer than its volume name. *)
Lemma mkdir_chain_last n : forall p,
  (String.length p <= n)%nat ->
  exists top, last (mkdir_chain n p) = Some top
              /\ (String.length (parent_of top) <= volume_len top)%nat.
Proof.
  induction n as [|n IH]; intros p Hp.
  - destruct p; [|cbn in Hp; lia]. exists "". split; [reflexivity|cbn; lia].
  - cbn [mkdir_chain].
    destruct (volume_len p <? String.length (parent_of p))%nat eqn:E.
    + apply Nat.ltb_lt in E.
      assert (Hlt : (String.length (parent_of p) < String.length p)%nat)
        by (apply parent_of_shorter; lia).
      destruct (IH (parent_of p)) as (top & Hl & Ht); [lia|].
      exists top. split; [|exact Ht].
      destruct (mkdir_chain n (parent_of p)) as [|x r] eqn:Ec; [discriminate|].
      rewrite last_cons, Hl. reflexivity.
    + apply Nat.ltb_ge in E. exists p. split; [reflexivity|exact E].
Qed.

Lemma emits_zip_Close P p dir : emits P (zip_Close p dir).
Proof. unfold zip_Close. split_run; auto with run. Qed.

Lemma emits_zip_OpenReader P p : P (EvOpenReader p) -> emits P (zip_OpenReader p).
Proof. intros H. unfold zip_OpenReader. split_run; auto with run. Qed.

Lemma emits_os_ReadDir P p : P (EvReadDir p) -> emits P (os_ReadDir p).
Proof. intros H. unfold os_ReadDir. split_run; auto with run. Qed.

#[export] Hint Resolve emits_os_Create emits_zip_Close emits_zip_OpenReader
  emits_os_ReadDir : run.

(** ** Events of the archive builder and of the verifier *)

Lemma emits_addFilesToZip_loop P destPath l :
  (forall line, P (EvPrint line)) -> P EvLock -> P EvWrite ->
  (forall snap, P (EvUnlock snap)) ->
  forall dir added, emits P (addFilesToZip_loop destPath l dir added).
Proof.
  intros HP HL HW HU. induction l as [|lf l IH]; intros dir added; simpl.
  - auto with run.
  - split_run; auto with run.
Qed.

Lemma emits_addFilesToZip P l destPath :
  (forall line, P (EvPrint line)) -> P EvLock -> P EvWrite ->
  (forall snap, P (EvUnlock snap)) ->
  emits P (addFilesToZip l destPath).
Proof.
  intros HP HL HW HU. unfold addFilesToZip.
  split_run; auto using emits_addFilesToZip_loop with run.
Qed.

Lemma silent_verify_loop entries added :
  forall acc, silent (verify_loop entries added acc).
Proof.
  induction added as [|p added IH]; intros acc; simpl.
  - auto with run.
  - split_run; auto with run.
Qed.

Lemma emits_verifyZipContainsAll P zipPath added :
  P (EvOpenReader zipPath) -> P EvWrite ->
  emits P (verifyZipContainsAll zipPath added).
Proof.
  intros HO HW. unfold verifyZipContainsAll.
  split_run; auto using silent_emits, silent_verify_loop with run.
Qed.

Lemma emits_deleteWithRetry_from P path delay :
  (forall ok, P (EvRemove path ok)) -> (forall ms, P (EvSleep ms)) ->
  forall left lastErr, emits P (deleteWithRetry_from path left delay lastErr).
Proof.
  intros HR HS. induction left as [|k IH]; intros lastErr; simpl.
  - auto with run.
  - split_run; auto with run.
Qed.

Lemma emits_delete_verified P (l : list (string * bool)) :
  (forall p ok, In (p, true) l -> P (EvRemove p ok)) ->
  (forall ms, P (EvSleep ms)) -> (forall line, P (EvPrint line)) ->
  emits P (delete_verified l).
Proof.
  intros HR HS HP. induction l as [|[path ok] l IH]; cbn [delete_verified].
  - auto with run.
  - apply emits_bind; [|intros _].
    + destruct ok; [|auto with run].
      apply emits_bind; [|intros [e|]; auto with run].
      apply emits_deleteWithRetry_from; auto. intros ok. apply HR. left; reflexivity.
    + apply IH. intros p ok' Hin. apply HR. right; exact Hin.
Qed.

(** ** Integrity verifier *)

Lemma int64_of_uint64_eq u n :
  0 <= u < 2 ^ 64 -> 0 <= n < 2 ^ 63 -> int64_of_uint64 u = n <-> u = n.
Proof.
  intros Hu Hn. unfold int64_of_uint64, wrap64.
  destruct (Z_lt_le_dec u (2 ^ 63)) as [Hlt|Hge].
  - rewrite Z.mod_small by lia. lia.
  - replace (u + 2 ^ 63) with ((u - 2 ^ 63) + 1 * 2 ^ 64) by lia.
    rewrite Z.mod_add by lia. rewrite Z.mod_small by lia. lia.
Qed.

Lemma os_Stat_run p s : os_Stat p s = (stat_of (world s) p, s, []).
Proof. reflexivity. Qed.

Lemma entry_sizes_foldl n dir : forall acc : gmap string Z,
  foldl (fun entries f => <[Name f := UncompressedSize64 f]> entries) acc dir !! n
  = match last_named n dir with
    | Some u => Some u
    | None => acc !! n
    end.
Proof.
  induction dir as [|e dir IH]; intros acc; simpl; [reflexivity|].
  rewrite IH. destruct (last_named n dir); [reflexivity|].
  rewrite lookup_insert. destruct (String.eqb_spec (Name e) n) as [->|Hne].
  - rewrite decide_True by reflexivity. reflexivity.
  - rewrite decide_False by exact Hne. reflexivity.
Qed.

Lemma entry_sizes_lookup n dir : entry_sizes dir !! n = last_named n dir.
Proof.
  unfold entry_sizes. rewrite entry_sizes_foldl, lookup_empty.
  destruct (last_named n dir); reflexivity.
Qed.

Lemma last_named_In n dir u :
  last_named n dir = Some u ->
  exists e, In e dir /\ Name e = n /\ UncompressedSize64 e = u.
Proof.
  induction dir as [|e dir IH]; simpl; [discriminate|].
  destruct (last_named n dir) as [v|].
  - intros [= <-]. destruct (IH eq_refl) as (e' & Hin & Hn & Hu). eauto.
  - destruct (String.eqb_spec (Name e) n) as [Hn|]; [|discriminate].
    intros [= <-]. eauto.
Qed.

Lemma last_named_None n dir :
  last_named n dir = None -> forall e, In e dir -> Name e <> n.
Proof.
  induction dir as [|e dir IH]; simpl; [intros _ e []|].
  destruct (last_named n dir) as [v|]; [discriminate|].
  destruct (String.eqb_spec (Name e) n) as [|Hne]; [discriminate|].
  intros _ e' [<-|Hin]; [exact Hne|]. apply IH; auto.
Qed.

(** With pairwise distinct entry names, the last entry of a name is the
    entry of that name. *)
Lemma last_named_unique dir e :
  NoDup (map Name dir) -> In e dir ->
  last_named (Name e) dir = Some (UncompressedSize64 e).
Proof.
  induction dir as [|e0 dir IH]; simpl; intros Hnd Hin; [contradiction|].
  apply NoDup_cons in Hnd. destruct Hnd as [Hnot Hnd].
  destruct Hin as [->|Hin].
  - destruct (last_named (Name e) dir) as [v|] eqn:El.
    + exfalso. apply Hnot. apply last_named_In in El.
      destruct El as (e' & Hin' & Hn & _). rewrite <- Hn.
      apply list_elem_of_In, in_map, Hin'.
    + rewrite String.eqb_refl. reflexivity.
  - rewrite (IH Hnd Hin). reflexivity.
Qed.

Lemma verify_loop_run entries added : forall acc s,
  verify_loop entries added acc s
  = (foldl (fun r p => <[p := verdict (world s) entries p]> r) acc added, s, []).
Proof.
  induction added as [|p added IH]; intros acc s; simpl; [reflexivity|].
  rewrite bind_silent by auto with run. rewrite os_Stat_run. unfold result. simpl.
  unfold verdict. destruct (stat_of (world s) p) as [fi|]; [|apply IH].
  destruct (entries !! Str.Base p) as [u|]; [|apply IH].
  destruct (int64_of_uint64 u =? f_size fi); apply IH.
Qed.

Lemma foldl_insert_lookup {V} (f : string -> V) added p : forall acc : gmap string V,
  foldl (fun r q => <[q := f q]> r) acc added !! p
  = if decide (p ∈ added) then Some (f p) else acc !! p.
Proof.
  induction added as [|q added IH]; intros acc; cbn [foldl].
  - rewrite decide_False by apply not_elem_of_nil. reflexivity.
  - rewrite IH. destruct (decide (p ∈ added)) as [Hin|Hnin].
    + rewrite decide_True by (right; exact Hin). reflexivity.
    + rewrite lookup_insert. destruct (decide (q = p)) as [->|Hne].
      * rewrite decide_True by left. reflexivity.
      * rewrite decide_False; [reflexivity|].
        intros [?|?]%elem_of_cons; [congruence|contradiction].
Qed.

Lemma zip_OpenReader_run p s :
  final (zip_OpenReader p s) = s /\ events (zip_OpenReader p s) = [EvOpenReader p].
Proof. split; reflexivity. Qed.

(** C3 (amended).  If the container cannot be opened, every listed path
    is mapped to [false], nothing is mapped to [true], and one error is
    appended to the statistics.  If it opens, the mapping has exactly
    the listed paths as keys, and a path is mapped to [true] exactly
    when the live file can be stat-ed and the last entry of the
    container named by the base name of the path has an uncompressed
    size equal to the current size of the live file. *)
Theorem verifier_marks (zipPath : string) (added : list string) (s : State) :
  sizes_in_range (world s) ->
  let r := verifyZipContainsAll zipPath added s in
  (forall e, result (zip_OpenReader zipPath s) = inr e ->
     (forall p, In p added -> result r !! p = Some false)
     /\ (forall p, result r !! p <> Some true)
     /\ Errors (stats (final r))
        = Errors (stats s) ++ ["verify open zip " +:+ zipPath +:+ ": " +:+ e])
  /\ (forall dir, result (zip_OpenReader zipPath s) = inl dir ->
      Forall entry_in_range dir ->
      forall p,
        (is_Some (result r !! p) <-> In p added)
        /\ (result r !! p = Some true <->
            In p added
            /\ exists fi u, result (os_Stat p s) = Some fi
                 /\ last_named (Str.Base p) dir = Some u
                 /\ u = f_size fi)).
Proof.
  intros Hsz r. subst r. unfold verifyZipContainsAll.
  destruct (zip_OpenReader_run zipPath s) as [Hfin Hev].
  rewrite result_bind, final_bind, Hfin. split.
  - intros e He. rewrite He. cbv beta iota.
    assert (Hall : forall p, mark_unverified added !! p
                   = if decide (p ∈ added) then Some false else None).
    { intros p. unfold mark_unverified.
      rewrite (foldl_insert_lookup (fun _ => false)), lookup_empty. reflexivity. }
    repeat split.
    + intros p Hin. unfold result; simpl.
      rewrite Hall, decide_True by (apply list_elem_of_In, Hin). reflexivity.
    + intros p. unfold result; simpl. rewrite Hall.
      destruct (decide (p ∈ added)); discriminate.
  - intros dir Hd Hrange p. rewrite Hd. cbv beta iota.
    rewrite verify_loop_run, os_Stat_run. unfold result. cbn [fst].
    rewrite foldl_insert_lookup, lookup_empty.
    destruct (decide (p ∈ added)) as [Hin|Hnin];
      [apply list_elem_of_In in Hin | rewrite list_elem_of_In in Hnin].
    + split; [split; eauto|].
      unfold verdict. rewrite entry_sizes_lookup.
      destruct (stat_of (world s) p) as [fi|] eqn:Est.
      2:{ split; [discriminate|]. intros (_ & fi & u & Hfi & _). discriminate. }
      assert (Hfi : 0 <= f_size fi < 2 ^ 63).
      { unfold stat_of in Est. destruct (faults _ _); [discriminate|].
        eapply Hsz, Est. }
      destruct (last_named (Str.Base p) dir) as [u|] eqn:El.
      2:{ split; [discriminate|]. intros (_ & fi' & u & _ & Hu & _). discriminate. }
      assert (Hu : 0 <= u < 2 ^ 64).
      { apply last_named_In in El. destruct El as (e & Hine & _ & <-).
        rewrite Forall_forall in Hrange. apply Hrange, list_elem_of_In, Hine. }
      split.
      * intros [= Heq]. apply Z.eqb_eq in Heq.
        apply (int64_of_uint64_eq u (f_size fi) Hu Hfi) in Heq.
        split; [exact Hin|]. exists fi, u. auto.
      * intros (_ & fi' & u' & [= <-] & [= <-] & Heq). f_equal.
        apply Z.eqb_eq. apply (int64_of_uint64_eq u (f_size fi) Hu Hfi). exact Heq.
    + split; [split; [intros [x Hx]; discriminate|contradiction]|].
      split; [discriminate|]. intros [? _]; contradiction.
Qed.

Lemma verifier_marks_witness :
  result (verifyZipContainsAll Sample.zipPath Sample.record Sample.archived)
    !! Sample.site2_jan1 = Some true
  /\ result (verifyZipContainsAll Sample.zipPath Sample.record
               (final (built Sample.cfg Sample.january Variants.unreadable)))
       !! Sample.site2_jan1 = Some false.
Proof.
  split.
  - assert (Hsz : sizes_in_range (world Sample.archived)).
    { unfold sizes_in_range. apply (bool_decide_unpack _). vm_compute. exact I. }
    refine (proj2 (proj2 (proj2 (verifier_marks Sample.zipPath Sample.record
              Sample.archived Hsz)
      [mkZipEntry "u_ex240101.log" 10; mkZipEntry "u_ex240101.log" 20;
       mkZipEntry "u_ex240102.log" 30] _ _ Sample.site2_jan1)) _).
    + vm_compute. reflexivity.
    + repeat constructor; vm_compute; congruence.
    + split; [vm_compute; tauto|].
      exists (Sample.log 1 20), 20. repeat split; vm_compute; reflexivity.
  - assert (Hsz : sizes_in_range
                    (world (final (built Sample.cfg Sample.january Variants.unreadable)))).
    { unfold sizes_in_range. apply (bool_decide_unpack _). vm_compute. exact I. }
    refine (proj1 (proj1 (verifier_marks Sample.zipPath Sample.record
              (final (built Sample.cfg Sample.january Variants.unreadable)) Hsz)
              "open C:\archive\iis_2024_01.zip" _) Sample.site2_jan1 _).
    + vm_compute. reflexivity.
    + vm_compute. tauto.
Defined.

(** The claim C3 as worded fails where two members of a group share a
    base name: the container opens, the live file can be stat-ed, the
    container holds an entry of its base name and of its size, and yet
    the path is mapped to [false]. *)
Lemma verifier_duplicate_names :
  exists dir fi e,
    result (zip_OpenReader Sample.zipPath Sample.archived) = inl dir
    /\ result (os_Stat Sample.site1_jan1 Sample.archived) = Some fi
    /\ In e dir
    /\ Name e = Str.Base Sample.site1_jan1
    /\ UncompressedSize64 e = f_size fi
    /\ In Sample.site1_jan1 Sample.record
    /\ result (verifyZipContainsAll Sample.zipPath Sample.record Sample.archived)
         !! Sample.site1_jan1 = Some false.
Proof.
  exists [mkZipEntry "u_ex240101.log" 10; mkZipEntry "u_ex240101.log" 20;
          mkZipEntry "u_ex240102.log" 30], (Sample.log 1 10),
         (mkZipEntry "u_ex240101.log" 10).
  repeat split; try (vm_compute; reflexivity); vm_compute; tauto.
Qed.

(** ** Deletion guard *)

Lemma verified_in_record zipPath added s p :
  result (verifyZipContainsAll zipPath added s) !! p = Some true -> In p added.
Proof.
  unfold verifyZipContainsAll. rewrite result_bind.
  destruct (zip_OpenReader_run zipPath s) as [-> _].
  destruct (result (zip_OpenReader zipPath s)) as [dir|e]; cbv beta iota.
  - rewrite verify_loop_run. unfold result. cbn [fst].
    rewrite foldl_insert_lookup, lookup_empty.
    destruct (decide (p ∈ added)) as [Hin|]; [|discriminate].
    intros _. apply list_elem_of_In, Hin.
  - unfold result. simpl. unfold mark_unverified.
    rewrite (foldl_insert_lookup (fun _ => false)), lookup_empty.
    destruct (decide (p ∈ added)); discriminate.
Qed.

(** Whatever [compressMonthGroup] removes besides its own container
    is removed with [DeleteOriginalAfterCompress] enabled, is a path of
    the ArchiveRecord, and is mapped to [true] by the verification
    mapping produced for the group. *)
Lemma removal_is_guarded (cfg : Config) (groupKey : string)
    (l : list LogFile) (s : State) (p : string) (ok : bool) :
  In (EvRemove p ok) (events (compressMonthGroup cfg groupKey l s)) ->
  p <> container_path cfg l ->
  DeleteOriginalAfterCompress cfg = true
  /\ In p (fst (result (built cfg l s)))
  /\ verification cfg l s !! p = Some true.
Proof.
  intros Hin Hne.
  cut (DeleteOriginalAfterCompress cfg = true /\ verification cfg l s !! p = Some true).
  { intros [Hd Hv]. repeat split; try assumption.
    eapply verified_in_record. exact Hv. }
  set (P := fun e : Event =>
    forall q, removed_path e = Some q ->
      q = container_path cfg l
      \/ (DeleteOriginalAfterCompress cfg = true /\ verification cfg l s !! q = Some true)).
  assert (HP : Forall P (events (compressMonthGroup cfg groupKey l s))).
  2:{ rewrite Forall_forall in HP. apply list_elem_of_In in Hin.
      destruct (HP _ Hin p eq_refl) as [?|?]; [contradiction|assumption]. }
  clear Hin Hne ok p.
  assert (Hq : forall e, removed_path e = None -> P e).
  { intros e He q Hq. congruence. }
  assert (Hc : forall ok, P (EvRemove (container_path cfg l) ok)).
  { intros ok q [= <-]. left; reflexivity. }
  destruct l as [|first rest]; [constructor|].
  unfold compressMonthGroup. fold (container_path cfg (first :: rest)).
  set (destPath := container_path cfg (first :: rest)) in *.
  rewrite events_bind. apply Forall_app. split; [apply emits_os_Create|].
  destruct (result (os_Create destPath s)) as [e|] eqn:Ecreate; cbv beta iota;
    [constructor|].
  destruct (String.eqb _ "zip");
    [| destruct (String.eqb _ "gzip"); split_run; auto 6 with run ].
  rewrite events_bind. apply Forall_app. split.
  { apply emits_addFilesToZip; intros; apply Hq; reflexivity. }
  change (addFilesToZip (first :: rest) destPath (final (os_Create destPath s)))
    with (built cfg (first :: rest) s).
  destruct (result (built cfg (first :: rest) s)) as [added err] eqn:Ebuilt.
  destruct err as [e|]; cbv beta iota; [split_run; auto 6 with run|].
  rewrite bind_silent by auto with run.
  destruct (result (file_Close destPath _)); [constructor|].
  cbv beta iota.
  rewrite events_bind. apply Forall_app. split.
  { apply emits_verifyZipContainsAll; apply Hq; reflexivity. }
  assert (Hv : result (verifyZipContainsAll destPath added (final (built cfg (first :: rest) s)))
               = verification cfg (first :: rest) s).
  { unfold verification. rewrite Ebuilt. reflexivity. }
  rewrite Hv.
  rewrite events_bind. apply Forall_app. split.
  - destruct (DeleteOriginalAfterCompress cfg) eqn:Hdel; [|constructor].
    apply emits_delete_verified; try (intros; apply Hq; reflexivity).
    intros q ok Hq' q' [= <-]. right. split; [reflexivity|].
    apply list_elem_of_In, elem_of_map_to_list in Hq'. exact Hq'.
  - split_run; auto 6 with run; apply emits_mu_Lock || apply emits_stats_write || apply emits_mu_Unlock;
      intros; apply Hq; reflexivity.
Qed.


(** ** Statistics *)

Section Keeps.

Variable I : CompressionStats -> Prop.

Lemma keeps_ret {A} (a : A) : keeps I (ret a).
Proof. intros s H. split; [exact H|constructor]. Qed.

Lemma keeps_bind {A B} (m : M A) (k : A -> M B) :
  keeps I m -> (forall a, keeps I (k a)) -> keeps I (bind m k).
Proof.
  intros Hm Hk s H. rewrite final_bind, events_bind.
  destruct (Hm s H) as [H1 E1].
  destruct (Hk (result (m s)) (final (m s)) H1) as [H2 E2].
  split; [exact H2|]. apply Forall_app. auto.
Qed.

Lemma keeps_silent {A} (m : M A) : silent m -> keeps I m.
Proof. intros Hs s H. destruct (Hs s) as [-> ->]. split; [exact H|constructor]. Qed.

Lemma keeps_emit e : snapshot_ok I e -> keeps I (emit e).
Proof. intros He s H. split; [exact H|]. repeat constructor. exact He. Qed.

Lemma keeps_Printf line : keeps I (Printf line).
Proof. apply keeps_emit. exact Logic.I. Qed.

Lemma keeps_mu_Lock : keeps I mu_Lock.
Proof. apply keeps_emit. exact Logic.I. Qed.

Lemma keeps_time_Sleep ms : keeps I (time_Sleep ms).
Proof. apply keeps_emit. exact Logic.I. Qed.

Lemma keeps_mu_Unlock : keeps I mu_Unlock.
Proof. intros s H. split; [exact H|]. repeat constructor. exact H. Qed.

Lemma keeps_stats_write f : (forall st, I st -> I (f st)) -> keeps I (stats_write f).
Proof. intros Hf s H. split; [apply Hf, H|]. repeat constructor. Qed.

Lemma keeps_modify_world f : keeps I (modify_world f).
Proof. intros s H. split; [exact H|constructor]. Qed.

Lemma keeps_os_Remove p : keeps I (os_Remove p).
Proof.
  intros s H. unfold os_Remove.
  destruct (locks (world s) !! p) as [[|n]|]; [| split; [exact H|repeat constructor] |];
    destruct (files (world s) !! p); split; try exact H; repeat constructor.
Qed.

(** A critical section of three assignments: [I] may be broken between
    the assignments, it holds again when the lock is released. *)
Lemma keeps_section3 {A} f1 f2 f3 (k : M A) :
  (forall st, I st -> I (f3 (f2 (f1 st)))) -> keeps I k ->
  keeps I (let* _ := mu_Lock in
           let* _ := stats_write f1 in
           let* _ := stats_write f2 in
           let* _ := stats_write f3 in
           let* _ := mu_Unlock in k).
Proof.
  intros Hf Hk s H.
  repeat rewrite ?final_bind, ?events_bind. cbn [mu_Lock emit stats_write mu_Unlock
    final result events fst snd world stats].
  set (s' := mkState (world s) (f3 (f2 (f1 (stats s))))).
  destruct (Hk s' (Hf _ H)) as [H1 E1]. split; [exact H1|].
  repeat (apply Forall_app; split); try exact E1; repeat constructor.
  apply Hf, H.
Qed.

End Keeps.

#[export] Hint Resolve keeps_ret keeps_Printf keeps_mu_Lock keeps_time_Sleep
  keeps_mu_Unlock keeps_modify_world keeps_os_Remove : run.
#[export] Hint Extern 5 (keeps _ _) => (apply keeps_silent; solve [auto with run]) : run.

Ltac split_keeps :=
  repeat first
    [ solve [auto with run]
    | apply keeps_bind; [|intros ?]
    | match goal with
      | |- keeps _ (match ?x with _ => _ end) => destruct x
      end ].

Lemma agree_append_error msg st : counters_agree st -> counters_agree (append_error msg st).
Proof. exact (fun H => H). Qed.

Lemma agree_add_TotalSizeAfter n st :
  counters_agree st -> counters_agree (add_TotalSizeAfter n st).
Proof. exact (fun H => H). Qed.

Lemma agree_set_GroupCount n st : counters_agree st -> counters_agree (set_GroupCount n st).
Proof. exact (fun H => H). Qed.

Lemma agree_file_added n st :
  counters_agree st ->
  counters_agree (add_TotalSizeBefore n (incr_FilesCompressed (incr_FilesProcessed st))).
Proof. unfold counters_agree. simpl. intros ->. reflexivity. Qed.

#[export] Hint Resolve agree_append_error agree_add_TotalSizeAfter agree_set_GroupCount
  agree_file_added keeps_stats_write : run.

Lemma keeps_addFilesToZip_loop destPath l : forall dir added,
  keeps counters_agree (addFilesToZip_loop destPath l dir added).
Proof.
  induction l as [|lf l IH]; intros dir added; cbn [addFilesToZip_loop].
  - auto with run.
  - apply keeps_bind; [auto with run|]. intros [e|].
    { split_keeps; auto with run. }
    apply keeps_bind; [auto with run|]. intros [e|].
    { split_keeps; auto with run. }
    apply keeps_bind; [auto with run|]. intros [n [e|]].
    { split_keeps; auto with run. }
    apply keeps_section3; [apply agree_file_added|].
    split_keeps; auto with run.
Qed.

Lemma keeps_os_Create I p : keeps I (os_Create p).
Proof. unfold os_Create. split_keeps; auto with run. Qed.

Lemma keeps_os_MkdirAll I p : keeps I (os_MkdirAll p).
Proof.
  intros s H. destruct (os_MkdirAll_effect p s) as (-> & -> & _).
  split; [exact H|constructor].
Qed.

Lemma keeps_zip_Close I p dir : keeps I (zip_Close p dir).
Proof. unfold zip_Close. split_keeps; auto with run. Qed.

Lemma keeps_zip_OpenReader I p : keeps I (zip_OpenReader p).
Proof.
  unfold zip_OpenReader. split_keeps; auto with run. apply keeps_emit. exact Logic.I.
Qed.

Lemma keeps_os_ReadDir I p : keeps I (os_ReadDir p).
Proof.
  unfold os_ReadDir. split_keeps; auto with run. apply keeps_emit. exact Logic.I.
Qed.

#[export] Hint Resolve keeps_os_Create keeps_os_MkdirAll keeps_zip_Close
  keeps_zip_OpenReader keeps_os_ReadDir : run.

Lemma keeps_addFilesToZip l destPath : keeps counters_agree (addFilesToZip l destPath).
Proof.
  unfold addFilesToZip. split_keeps; auto using keeps_addFilesToZip_loop with run.
Qed.

Lemma keeps_verifyZipContainsAll zipPath added :
  keeps counters_agree (verifyZipContainsAll zipPath added).
Proof.
  unfold verifyZipContainsAll. split_keeps; auto with run.
  apply keeps_silent, silent_verify_loop.
Qed.

Lemma keeps_deleteWithRetry_from I path delay : forall left lastErr,
  keeps I (deleteWithRetry_from path left delay lastErr).
Proof.
  induction left as [|k IH]; intros lastErr; cbn [deleteWithRetry_from].
  - auto with run.
  - split_keeps; auto with run.
Qed.

Lemma keeps_delete_verified I (l : list (string * bool)) : keeps I (delete_verified l).
Proof.
  induction l as [|[path ok] l IH]; cbn [delete_verified].
  - auto with run.
  - apply keeps_bind; [|intros _; exact IH].
    destruct ok; [|auto with run].
    apply keeps_bind; [apply keeps_deleteWithRetry_from|intros [e|]; auto with run].
Qed.

Lemma keeps_compressMonthGroup cfg groupKey l :
  keeps counters_agree (compressMonthGroup cfg groupKey l).
Proof.
  unfold compressMonthGroup. destruct l as [|first rest]; [auto with run|].
  apply keeps_bind; [auto with run|]. intros [e|]; [auto with run|].
  destruct (String.eqb _ "zip");
    [|destruct (String.eqb _ "gzip"); split_keeps; auto with run].
  apply keeps_bind; [apply keeps_addFilesToZip|]. intros [added [e|]].
  { split_keeps; auto with run. }
  apply keeps_bind; [auto with run|]. intros [e|]; [auto with run|].
  apply keeps_bind; [apply keeps_verifyZipContainsAll|]. intros verified.
  apply keeps_bind; [|intros _].
  { destruct (DeleteOriginalAfterCompress cfg); [apply keeps_delete_verified|auto with run]. }
  split_keeps; auto with run.
Qed.

Lemma keeps_run_tasks cfg l : keeps counters_agree (run_tasks cfg l).
Proof.
  induction l as [|[gk fl] l IH]; cbn [run_tasks]; [auto with run|].
  apply keeps_bind; [|intros _; exact IH].
  unfold group_task. apply keeps_bind; [apply keeps_compressMonthGroup|].
  intros [e|]; split_keeps; auto with run.
Qed.

Lemma keeps_walk_loop {A} I (fn : WalkEntry -> A -> M (A * error)) l :
  (forall e a, keeps I (fn e a)) -> forall acc, keeps I (walk_loop fn l acc).
Proof.
  intros Hfn. induction l as [|e l IH]; intros acc; cbn [walk_loop].
  - auto with run.
  - apply keeps_bind; [apply Hfn|]. intros [acc1 [msg|]]; auto with run.
Qed.

Lemma keeps_filepath_Walk {A} I root (fn : WalkEntry -> A -> M (A * error)) acc :
  (forall e a, keeps I (fn e a)) -> keeps I (filepath_Walk root fn acc).
Proof.
  intros Hfn. unfold filepath_Walk. apply keeps_bind; [apply keeps_emit; exact Logic.I|].
  intros _. apply keeps_bind; [auto with run|]. intros w. apply keeps_walk_loop, Hfn.
Qed.

Lemma keeps_findLogFiles I cfg : keeps I (findLogFiles cfg).
Proof.
  unfold findLogFiles. apply keeps_bind; [auto with run|]. intros t.
  apply keeps_bind; [|intros [? ?]; auto with run].
  apply keeps_filepath_Walk. intros e a. unfold findLogFiles_fn.
  destruct (we_err e); [auto with run|].
  destruct (f_isDir _); [auto with run|].
  destruct (Time.After _ _); [auto with run|].
  destruct (_ || _); auto with run.
Qed.

Lemma keeps_processLogs cfg : keeps counters_agree (processLogs cfg).
Proof.
  unfold processLogs. apply keeps_bind; [auto with run|]. intros [e|]; [auto with run|].
  apply keeps_bind; [apply keeps_findLogFiles|]. intros [logFiles [e|]]; [auto with run|].
  destruct logFiles as [|lf logFiles]; [split_keeps; auto with run|].
  apply keeps_bind; [auto with run|]. intros _.
  apply keeps_bind; [auto with run|]. intros t.
  apply keeps_bind; [auto with run|]. intros _.
  apply keeps_bind; [apply keeps_run_tasks|]. auto with run.
Qed.

(** Both counters advance once per path [addFilesToZip_loop] adds. *)
Lemma addFilesToZip_loop_counts destPath l : forall dir added s,
  let r := addFilesToZip_loop destPath l dir added s in
  exists new,
    snd (result r) = added ++ new
    /\ FilesProcessed (stats (final r))
       = Nat.iter (length new) incr (FilesProcessed (stats s))
    /\ FilesCompressed (stats (final r))
       = Nat.iter (length new) incr (FilesCompressed (stats s)).
Proof.
  induction l as [|lf l IH]; intros dir added s; cbn [addFilesToZip_loop].
  - exists []. rewrite app_nil_r. auto.
  - cbv zeta. rewrite bind_silent by auto with run.
    assert (Hskip : forall s', FilesProcessed (stats s') = FilesProcessed (stats s) ->
              FilesCompressed (stats s') = FilesCompressed (stats s) ->
              exists new,
                snd (result (addFilesToZip_loop destPath l dir added s')) = added ++ new
                /\ FilesProcessed (stats (final (addFilesToZip_loop destPath l dir added s')))
                   = Nat.iter (length new) incr (FilesProcessed (stats s))
                /\ FilesCompressed (stats (final (addFilesToZip_loop destPath l dir added s')))
                   = Nat.iter (length new) incr (FilesCompressed (stats s))).
    { intros s' Hp Hc. rewrite <- Hp, <- Hc. apply IH. }
    destruct (result (os_Open (Path lf) s)) as [e|].
    { repeat rewrite ?result_bind, ?final_bind. apply Hskip; reflexivity. }
    rewrite bind_silent by auto with run.
    destruct (result (zip_Create (Path lf) s)) as [e|].
    { repeat rewrite ?result_bind, ?final_bind. apply Hskip; reflexivity. }
    rewrite bind_silent by auto with run.
    destruct (result (io_Copy (Path lf) s)) as [n [e|]].
    { repeat rewrite ?result_bind, ?final_bind.
      cbn [mu_Lock emit stats_write mu_Unlock Printf final result events fst snd].
      match goal with |- context [addFilesToZip_loop _ _ ?d ?a ?s'] =>
        destruct (IH d a s') as (new & Hn & Hp & Hc) end.
      exists new. auto. }
    repeat rewrite ?result_bind, ?final_bind.
    cbn [mu_Lock emit stats_write mu_Unlock Printf final result events fst snd].
    match goal with |- context [addFilesToZip_loop _ _ ?d ?a ?s'] =>
      destruct (IH d a s') as (new & Hn & Hp & Hc) end.
    exists (Path lf :: new). rewrite Hn, <- app_assoc. split; [reflexivity|].
    rewrite Hp, Hc. cbn [length]. rewrite !Nat.iter_succ_r. auto.
Qed.

Example counters_sample :
  FilesProcessed (stats (final (processLogs Sample.cfg Sample.start))) = 3
  /\ FilesCompressed (stats (final (processLogs Sample.cfg Sample.start))) = 3.
Proof. split; vm_compute; reflexivity. Qed.

Lemma grouping_excludes_current_period_witness :
  grouping Variants.cfg_daily Sample.today Sample.january
    !! groupKeyForTime Variants.cfg_daily Sample.today = None
  /\ grouping Sample.cfg Sample.today Sample.january
       !! groupKeyForTime Sample.cfg Sample.today = None
  /\ grouping Variants.cfg_current Sample.today Sample.january
     = group_files Variants.cfg_current Sample.january
  /\ groupKeyForTime Variants.cfg_daily (Time.date 2024 1 2)
     <> groupKeyForTime Variants.cfg_daily Sample.today.
Proof.
  split; [|split; [|split]].
  - exact (proj1 (grouping_excludes_current_period Variants.cfg_daily Sample.today
                    Sample.january) eq_refl).
  - exact (proj1 (proj2 (grouping_excludes_current_period Sample.cfg Sample.today
                           Sample.january)) eq_refl eq_refl).
  - exact (proj1 (proj2 (proj2 (grouping_excludes_current_period Variants.cfg_current
                                  Sample.today Sample.january))) eq_refl eq_refl).
  - refine (proj2 (proj2 (proj2 (proj2 (grouping_excludes_current_period
              Variants.cfg_daily Sample.today Sample.january)))) eq_refl
              "2024-01-02" [mkLogFile Sample.site1_jan2 30 (Time.date 2024 1 2)]
              (mkLogFile Sample.site1_jan2 30 (Time.date 2024 1 2)) _ _).
    + vm_compute. reflexivity.
    + left. reflexivity.
Defined.

Example grouping_sample :
  map_to_list (grouping Sample.cfg (Time.date 2024 1 20) Sample.january) = []
  /\ dom (grouping Sample.cfg Sample.today Sample.january) = {["2024-01"]}
  /\ dom (grouping Variants.cfg_daily Sample.today Sample.january)
     = {["2024-01-01"; "2024-01-02"]}.
Proof. repeat split; vm_compute; reflexivity. Qed.

(** ** Lock discipline *)

Lemma lock_run_app held a b :
  lock_run held (a ++ b)
  = match lock_run held a with
    | Some h => lock_run h b
    | None => None
    end.
Proof.
  revert held. induction a as [|e a IH]; intros held; [reflexivity|].
  destruct e; destruct held; cbn [app lock_run]; auto.
Qed.

Lemma lock_run_free held evs : Forall lock_free evs -> lock_run held evs = Some held.
Proof.
  induction 1 as [|e evs He _ IH]; [reflexivity|].
  destruct e; try contradiction; exact IH.
Qed.

Lemma guarded_free {A} (m : M A) : emits lock_free m -> guarded m.
Proof. intros H s. apply lock_run_free, H. Qed.

Lemma guarded_ret {A} (a : A) : guarded (ret a).
Proof. intros s. reflexivity. Qed.

Lemma guarded_bind {A B} (m : M A) (k : A -> M B) :
  guarded m -> (forall a, guarded (k a)) -> guarded (bind m k).
Proof.
  intros Hm Hk s. rewrite events_bind, lock_run_app, Hm. apply Hk.
Qed.

Lemma guarded_lock {A} (k : M A) : holding k -> guarded (let* _ := mu_Lock in k).
Proof. intros Hk s. rewrite events_bind. apply Hk. Qed.

Lemma holding_write {A} f (k : M A) :
  holding k -> holding (let* _ := stats_write f in k).
Proof. intros Hk s. rewrite events_bind. apply Hk. Qed.

Lemma holding_unlock_bind {A} (k : M A) :
  guarded k -> holding (let* _ := mu_Unlock in k).
Proof. intros Hk s. rewrite events_bind. apply Hk. Qed.

Lemma holding_unlock : holding mu_Unlock.
Proof. intros s. reflexivity. Qed.

Ltac free_event := first [exact Logic.I | intros; exact Logic.I].

Ltac split_guarded :=
  repeat first
    [ apply guarded_ret
    | solve [apply guarded_free; auto with run]
    | apply guarded_lock
    | apply holding_write
    | apply holding_unlock
    | apply holding_unlock_bind
    | apply guarded_bind; [|intros ?]
    | match goal with
      | |- guarded (match ?x with _ => _ end) => destruct x
      end ].

Lemma guarded_Printf line : guarded (Printf line).
Proof. apply guarded_free, emits_Printf. exact Logic.I. Qed.

Lemma guarded_os_Remove p : guarded (os_Remove p).
Proof. apply guarded_free, emits_os_Remove. intros ok. exact Logic.I. Qed.

(** The archive builder assigns [stats] under the lock only. *)
Lemma guarded_addFilesToZip_loop destPath l : forall dir added,
  guarded (addFilesToZip_loop destPath l dir added).
Proof.
  induction l as [|lf l IH]; intros dir added; cbn [addFilesToZip_loop].
  - apply guarded_ret.
  - apply guarded_bind; [apply guarded_free; auto with run|]. intros [e|].
    { apply guarded_bind; [apply guarded_Printf|intros _]. split_guarded. apply IH. }
    apply guarded_bind; [apply guarded_free; auto with run|]. intros [e|].
    { apply guarded_bind; [apply guarded_Printf|intros _]. split_guarded. apply IH. }
    apply guarded_bind; [apply guarded_free; auto with run|]. intros [n [e|]].
    { apply guarded_bind; [apply guarded_Printf|intros _]. split_guarded. apply IH. }
    apply guarded_lock. do 3 apply holding_write. apply holding_unlock_bind.
    apply guarded_bind; [apply guarded_Printf|intros _]. apply IH.
Qed.

Lemma guarded_addFilesToZip l destPath : guarded (addFilesToZip l destPath).
Proof.
  unfold addFilesToZip. apply guarded_bind; [apply guarded_addFilesToZip_loop|].
  intros [dir added]. apply guarded_bind; [apply guarded_free; auto with run|].
  intros [e|]; apply guarded_ret.
Qed.

(** The verifier, when the container cannot be opened, appends to
    [stats.Errors] without taking the lock. *)
Lemma verifier_unguarded zipPath added s e :
  result (zip_OpenReader zipPath s) = inr e ->
  lock_run false (events (verifyZipContainsAll zipPath added s)) = None.
Proof.
  intros He. unfold verifyZipContainsAll. rewrite events_bind, He. reflexivity.
Qed.

(** C8 fails on the code: in the run of the group of January where the
    container cannot be reopened, the task appends its error to
    [stats.Errors] while it does not hold the lock. *)
Theorem unlocked_write_when_reopen_fails :
  let r := compressMonthGroup Sample.cfg "2024-01" Sample.january Variants.unreadable in
  lock_run false (events r) = None
  /\ In EvWrite (events (verifyZipContainsAll Sample.zipPath Sample.record
                          (final (built Sample.cfg Sample.january Variants.unreadable))))
  /\ ~ In EvLock (events (verifyZipContainsAll Sample.zipPath Sample.record
                           (final (built Sample.cfg Sample.january Variants.unreadable))))
  /\ Errors (stats (final r))
     = ["verify open zip C:\archive\iis_2024_01.zip: open C:\archive\iis_2024_01.zip"].
Proof.
  repeat split; try (vm_compute; reflexivity).
  - vm_compute. tauto.
  - vm_compute. intros [H|[H|[]]]; discriminate.
Qed.

(** ** Retention manager *)

Lemma bind_ext {A B} (m : M A) (k k' : A -> M B) s :
  (forall a s', k a s' = k' a s') -> bind m k s = bind m k' s.
Proof.
  intros H. unfold bind. destruct (m s) as [[a s1] e1]. rewrite H. reflexivity.
Qed.

Lemma omap_cons_eq {A B} (f : A -> option B) x (l : list A) :
  omap f (x :: l) = match f x with Some y => y :: omap f l | None => omap f l end.
Proof. reflexivity. Qed.

Lemma collect_archives_run cfg entries : forall found s,
  collect_archives cfg entries found s
  = (found ++ omap (candidate cfg (world s)) entries, s, []).
Proof.
  induction entries as [|e entries IH]; intros found s; cbn [collect_archives].
  - cbn. rewrite app_nil_r. reflexivity.
  - rewrite omap_cons_eq. unfold candidate at 1, archive_name.
    destruct (de_isDir e); [apply IH|].
    destruct (Str.HasSuffix (Str.ToLower (de_name e)) ".zip");
      destruct (Str.HasSuffix (Str.ToLower (de_name e)) ".gz"); cbn [negb andb orb];
      try apply IH;
      (rewrite bind_silent by auto with run; rewrite os_Stat_run; unfold result; cbn [fst];
       destruct (stat_of (world s) _); [rewrite IH, <- app_assoc; reflexivity | apply IH]).
Qed.

Lemma collect_archives_ext cfg cfg' entries found s :
  DestFolder cfg = DestFolder cfg' ->
  collect_archives cfg entries found s = collect_archives cfg' entries found s.
Proof.
  intros H. rewrite !collect_archives_run. unfold candidate. rewrite H. reflexivity.
Qed.

Lemma remove_beyond_ext cfg cfg' :
  KeepLastNArchives cfg = KeepLastNArchives cfg' ->
  forall l idx s, remove_beyond cfg l idx s = remove_beyond cfg' l idx s.
Proof.
  intros H. induction l as [|f l IH]; intros idx s; cbn [remove_beyond]; [reflexivity|].
  rewrite H. apply bind_ext. intros _ s'. apply IH.
Qed.

Lemma emits_remove_beyond P cfg l :
  (forall line, P (EvPrint line)) ->
  (forall f ok, In f l -> P (EvRemove (fst f) ok)) ->
  forall idx, emits P (remove_beyond cfg l idx).
Proof.
  intros HP. induction l as [|f l IH]; intros HR idx; cbn [remove_beyond].
  - auto with run.
  - apply emits_bind; [|intros _; apply IH; intros; apply HR; right; assumption].
    destruct (_ <=? _); [|auto with run].
    apply emits_bind; [auto with run|intros _].
    apply emits_bind; [|auto with run].
    apply emits_os_Remove. intros ok. apply HR. left; reflexivity.
Qed.

Lemma emits_cleanup_fn P cutoff e a :
  (forall line, P (EvPrint line)) ->
  (expired cutoff e -> forall ok, P (EvRemove (we_path e) ok)) ->
  emits P (cleanup_fn cutoff e a).
Proof.
  intros HP HR. unfold cleanup_fn.
  destruct (we_err e) eqn:Ee; [auto with run|].
  destruct (f_isDir (we_info e)) eqn:Ed; [auto with run|].
  destruct (Time.Before _ _) eqn:Eb; [|auto with run].
  apply emits_bind; [auto with run|intros _].
  apply emits_bind; [|auto with run].
  apply emits_os_Remove. apply HR. repeat split; try assumption.
  apply Z.ltb_lt, Eb.
Qed.

Lemma emits_walk_loop {A} P (fn : WalkEntry -> A -> M (A * error)) l :
  (forall e a, In e l -> emits P (fn e a)) -> forall acc, emits P (walk_loop fn l acc).
Proof.
  induction l as [|e l IH]; intros Hfn acc; cbn [walk_loop].
  - auto with run.
  - apply emits_bind; [apply Hfn; left; reflexivity|].
    intros [acc1 [msg|]]; [auto with run|].
    apply IH. intros e' a Hin. apply Hfn. right; exact Hin.
Qed.

Lemma sort_insert_In {A} (less : A -> A -> bool) x l y :
  In y (sort_insert less x l) <-> y = x \/ In y l.
Proof.
  induction l as [|z l IH]; cbn [sort_insert].
  - simpl. intuition.
  - destruct (less z x); simpl; rewrite ?IH; intuition.
Qed.

Lemma sort_Slice_In {A} (less : A -> A -> bool) l y :
  In y (sort_Slice less l) <-> In y l.
Proof.
  unfold sort_Slice. induction l as [|x l IH]; cbn [fold_right]; [reflexivity|].
  rewrite sort_insert_In, IH. simpl. intuition.
Qed.

(** C6. Keep-last-N runs whenever [KeepLastNArchives > 0], and then the
    age policy is not evaluated: the directory is listed, never walked,
    and [RetentionDays] has no influence on the run.  With
    [KeepLastNArchives <= 0] the age policy runs when [RetentionDays > 0],
    and the directory is walked, not listed; with both at most zero the
    retention step does nothing at all. *)
Theorem retention_policy_selection (cfg : Config) (s : State) :
  let r := cleanupOldCompressedLogs cfg s in
  (0 < KeepLastNArchives cfg ->
     In (EvReadDir (DestFolder cfg)) (events r)
     /\ (forall root, ~ In (EvWalk root) (events r))
     /\ forall d, cleanupOldCompressedLogs (with_RetentionDays d cfg) s = r)
  /\ (KeepLastNArchives cfg <= 0 -> 0 < RetentionDays cfg ->
      In (EvWalk (DestFolder cfg)) (events r)
      /\ forall dir, ~ In (EvReadDir dir) (events r))
  /\ (KeepLastNArchives cfg <= 0 -> RetentionDays cfg <= 0 -> r = (None, s, [])).
Proof.
  cbv zeta. unfold cleanupOldCompressedLogs. split; [|split].
  - intros HN. apply Z.ltb_lt in HN. cbn [KeepLastNArchives with_RetentionDays].
    rewrite HN. split; [|split].
    + rewrite events_bind. apply in_or_app. left. left. reflexivity.
    + intros root Hin.
      assert (HF : Forall (fun e => e <> EvWalk root)
                (events ((let* r := os_ReadDir (DestFolder cfg) in
                          match r with
                          | inr e => ret (Some e)
                          | inl entries =>
                              let* found := collect_archives cfg entries [] in
                              let* _ := remove_beyond cfg
                                (sort_Slice (fun a b => Time.After (snd a) (snd b)) found) 0 in
                              ret None
                          end) s))).
      { apply emits_bind; [apply emits_os_ReadDir; discriminate|].
        intros [entries|e]; [|auto with run].
        apply emits_bind; [intros s'; rewrite collect_archives_run; constructor|].
        intros found. apply emits_bind; [|auto with run].
        apply emits_remove_beyond; intros; discriminate. }
      rewrite Forall_forall in HF. apply (HF (EvWalk root)); [|reflexivity].
      apply list_elem_of_In, Hin.
    + intros d. apply bind_ext. intros [entries|e] s'; [|reflexivity].
      cbv beta iota. unfold bind at 1 3.
      rewrite (collect_archives_ext (with_RetentionDays d cfg) cfg) by reflexivity.
      destruct (collect_archives cfg entries [] s') as [[found s2] e2].
      apply (f_equal (fun r => let '(b, s3, e3) := r in (b, s3, e2 ++ e3))).
      apply bind_ext. intros _ s''. reflexivity.
  - intros HN HD.
    assert (E1 : (0 <? KeepLastNArchives cfg) = false) by (apply Z.ltb_ge; lia).
    assert (E2 : (RetentionDays cfg <=? 0) = false) by (apply Z.leb_gt; lia).
    rewrite E1, E2. rewrite bind_silent by auto with run. split.
    + rewrite events_bind. apply in_or_app. left.
      unfold filepath_Walk. rewrite events_bind. left. reflexivity.
    + intros dir Hin.
      match type of Hin with In _ (events ?t) =>
        assert (HF : Forall (fun e => e <> EvReadDir dir) (events t)) end.
      { clear Hin. cbv beta. apply emits_bind; [|intros [? ?]; auto with run].
        unfold filepath_Walk. apply emits_bind; [apply emits_emit; discriminate|intros _].
        apply emits_bind; [auto with run|intros w].
        apply emits_walk_loop. intros e a _. apply emits_cleanup_fn; intros; discriminate. }
      rewrite Forall_forall in HF. apply (HF (EvReadDir dir)); [|reflexivity].
      apply list_elem_of_In, Hin.
  - intros HN HD.
    assert (E1 : (0 <? KeepLastNArchives cfg) = false) by (apply Z.ltb_ge; lia).
    assert (E2 : (RetentionDays cfg <=? 0) = true) by (apply Z.leb_le; lia).
    rewrite E1, E2. reflexivity.
Qed.

Example retention_sample :
  events (cleanupOldCompressedLogs Archive.cfg_keep Archive.start)
  = [EvReadDir Archive.dir;
     EvPrint "Removing old compressed log (keep last 2): C:\archive\iis_2023_11.zip";
     EvRemove Archive.nov true;
     EvPrint "Removing old compressed log (keep last 2): C:\archive\old.gz";
     EvRemove Archive.old_gz true]
  /\ events (cleanupOldCompressedLogs Archive.cfg_age Archive.start)
     = [EvWalk Archive.dir;
        EvPrint "Removing old compressed log: C:\archive\iis_2023_11.zip";
        EvRemove Archive.nov true;
        EvPrint "Removing old compressed log: C:\archive\iis_2023_12.ZIP";
        EvRemove Archive.dec true;
        EvPrint "Removing old compressed log: C:\archive\notes.txt";
        EvRemove Archive.notes true;
        EvPrint "Removing old compressed log: C:\archive\old.gz";
        EvRemove Archive.old_gz true].
Proof. split; vm_compute; reflexivity. Qed.

Lemma retention_policy_selection_witness :
  In (EvReadDir Archive.dir) (events (cleanupOldCompressedLogs Archive.cfg_keep Archive.start))
  /\ In (EvWalk Archive.dir) (events (cleanupOldCompressedLogs Archive.cfg_age Archive.start))
  /\ cleanupOldCompressedLogs Archive.cfg_off Archive.start = (None, Archive.start, []).
Proof.
  split; [|split].
  - exact (proj1 (proj1 (retention_policy_selection Archive.cfg_keep Archive.start) eq_refl)).
  - refine (proj1 (proj1 (proj2 (retention_policy_selection Archive.cfg_age Archive.start)) _ _)).
    + vm_compute. discriminate.
    + reflexivity.
  - refine (proj2 (proj2 (retention_policy_selection Archive.cfg_off Archive.start)) _ _);
      vm_compute; discriminate.
Defined.

Lemma os_ReadDir_run p s :
  final (os_ReadDir p s) = s
  /\ (result (os_ReadDir p s) = inl (readdir (world s) p)
      \/ exists e, result (os_ReadDir p s) = inr e).
Proof.
  unfold os_ReadDir. rewrite final_bind, result_bind.
  cbn [emit final result fst snd].
  rewrite !bind_silent by auto with run. cbn [fails get_world result fst].
  destruct (faults (world s) (OpReadDir p)); split; try reflexivity; eauto.
Qed.

Lemma in_omap_candidate cfg w entries p t :
  In (p, t) (omap (candidate cfg w) entries) <->
  exists e fi, In e entries /\ de_isDir e = false /\ archive_name (de_name e) = true
    /\ p = Str.Join (DestFolder cfg) (de_name e)
    /\ stat_of w p = Some fi /\ t = f_mod fi.
Proof.
  rewrite <- list_elem_of_In, list_elem_of_omap. split.
  - intros (e & Hin & Hc). apply list_elem_of_In in Hin. unfold candidate in Hc.
    destruct (de_isDir e) eqn:Ed; [discriminate|].
    destruct (archive_name (de_name e)) eqn:Ea; [|discriminate].
    destruct (stat_of w _) as [fi|] eqn:Es; [|discriminate].
    injection Hc as <- <-. exists e, fi. auto 10.
  - intros (e & fi & Hin & Ed & Ea & -> & Es & ->). exists e.
    split; [apply list_elem_of_In, Hin|]. unfold candidate. rewrite Ed, Ea, Es. reflexivity.
Qed.

(** C10 (amended).  Under keep-last-N a directory entry is a candidate,
    counted towards the N kept and removed beyond them, exactly when it
    is not a directory, its name ends in [.zip] or [.gz] whatever the
    case, and [os.Stat] succeeds on it; nothing but such candidates is
    removed; and the configured compression type has no influence. *)
Theorem keep_last_n_candidates (cfg : Config) (s : State) :
  let entries := readdir (world s) (DestFolder cfg) in
  let found := result (collect_archives cfg entries [] s) in
  (forall p t,
     In (p, t) found <->
     exists e fi, In e entries /\ de_isDir e = false /\ archive_name (de_name e) = true
       /\ p = Str.Join (DestFolder cfg) (de_name e)
       /\ result (os_Stat p s) = Some fi /\ t = f_mod fi)
  /\ (0 < KeepLastNArchives cfg ->
      forall p ok, In (EvRemove p ok) (events (cleanupOldCompressedLogs cfg s)) ->
        exists t, In (p, t) found)
  /\ (forall kind,
        cleanupOldCompressedLogs (with_CompressionType kind cfg) s
        = cleanupOldCompressedLogs cfg s).
Proof.
  cbv zeta. split; [|split].
  - intros p t. rewrite collect_archives_run, os_Stat_run. unfold result. cbn [fst app].
    apply in_omap_candidate.
  - intros HN p ok Hin. apply Z.ltb_lt in HN.
    set (found := result (collect_archives cfg (readdir (world s) (DestFolder cfg)) [] s)).
    assert (HF : Forall (fun e => forall q, removed_path e = Some q -> exists t, In (q, t) found)
                   (events (cleanupOldCompressedLogs cfg s))).
    2:{ rewrite Forall_forall in HF. apply (HF (EvRemove p ok)); [|reflexivity].
        apply list_elem_of_In, Hin. }
    clear Hin. unfold cleanupOldCompressedLogs. rewrite HN.
    rewrite events_bind. apply Forall_app. split.
    { apply emits_os_ReadDir. discriminate. }
    destruct (os_ReadDir_run (DestFolder cfg) s) as [-> [->|[e ->]]]; [|constructor].
    cbv beta iota. rewrite events_bind. apply Forall_app. split.
    { rewrite collect_archives_run. constructor. }
    rewrite events_bind. apply Forall_app. split; [|constructor].
    assert (Hs : final (collect_archives cfg (readdir (world s) (DestFolder cfg)) [] s) = s).
    { rewrite collect_archives_run. reflexivity. }
    rewrite Hs. fold found. apply emits_remove_beyond; [discriminate|].
    intros [q t] ok' Hq q' [= <-]. exists t. apply sort_Slice_In in Hq. exact Hq.
  - intros kind. reflexivity.
Qed.

Lemma keep_last_n_candidates_witness :
  exists t, In (Archive.old_gz, t)
    (result (collect_archives Archive.cfg_keep
               (readdir (world Archive.start) (DestFolder Archive.cfg_keep)) []
               Archive.start)).
Proof.
  refine (proj1 (proj2 (keep_last_n_candidates Archive.cfg_keep Archive.start))
            _ Archive.old_gz true _).
  - reflexivity.
  - vm_compute. tauto.
Defined.

(** The claim C10 as worded fails on an entry that cannot be stat-ed:
    [ghost.zip] is listed, is not a directory and is named like an
    archive, yet it is no candidate. *)
Lemma keep_last_n_skips_unreadable :
  let e := mkDirEntry "ghost.zip" false in
  let entries := readdir (world Archive.start) (DestFolder Archive.cfg_keep) in
  In e entries
  /\ de_isDir e = false
  /\ archive_name (de_name e) = true
  /\ ~ exists t, In (Str.Join (DestFolder Archive.cfg_keep) (de_name e), t)
                   (result (collect_archives Archive.cfg_keep entries [] Archive.start)).
Proof.
  cbv zeta. split; [vm_compute; tauto|]. split; [reflexivity|]. split; [reflexivity|].
  intros [t Hin]. vm_compute in Hin.
  repeat (destruct Hin as [Hin|Hin]; [discriminate Hin|]). exact Hin.
Qed.

(** *** The age policy *)

Lemma expiredb_spec cutoff e : expiredb cutoff e = true <-> expired cutoff e.
Proof.
  unfold expiredb, expired, Time.Before. destruct (we_err e).
  - split; [discriminate|]. intros [H _]; discriminate.
  - destruct (f_isDir (we_info e)); cbn [negb andb].
    + split; [discriminate|]. intros (_ & H & _); discriminate.
    + rewrite Z.ltb_lt. tauto.
Qed.

Lemma os_Remove_cases p s :
  os_Remove p s
  = (None, mkState (set_files (delete p) (world s)) (stats s), [EvRemove p true])
  \/ exists msg s1,
       os_Remove p s = (Some msg, s1, [EvRemove p false])
       /\ files (world s1) = files (world s).
Proof.
  unfold os_Remove. destruct (locks (world s) !! p) as [[|n]|].
  - destruct (files (world s) !! p); [left; reflexivity|right; eauto].
  - right. eauto.
  - destruct (files (world s) !! p); [left; reflexivity|right; eauto].
Qed.

Lemma cleanup_fn_expired cutoff e a s :
  expiredb cutoff e = true ->
  cleanup_fn cutoff e a s
  = (let '(err, s1, ev) := os_Remove (we_path e) s in
     ((tt, err), s1,
      EvPrint ("Removing old compressed log: " +:+ we_path e) :: ev)).
Proof.
  unfold expiredb, cleanup_fn. destruct (we_err e); [discriminate|].
  destruct (f_isDir (we_info e)); [discriminate|]. cbn [negb andb]. intros ->.
  unfold bind, Printf, emit, ret.
  destruct (os_Remove (we_path e) s) as [[err s1] ev]. cbn [app].
  rewrite app_nil_r. reflexivity.
Qed.

Lemma cleanup_fn_kept cutoff e a s :
  expiredb cutoff e = false ->
  cleanup_fn cutoff e a s = ((tt, we_err e), s, []).
Proof.
  unfold expiredb, cleanup_fn. destruct (we_err e); [reflexivity|].
  destruct (f_isDir (we_info e)); [reflexivity|]. cbn [negb andb]. intros ->.
  reflexivity.
Qed.

Lemma sweep_cons cutoff e l s :
  sweep cutoff (e :: l) s
  = (let '(r, s1, e1) := cleanup_fn cutoff e tt s in
     match snd r with
     | Some msg => ((tt, Some msg), s1, e1)
     | None => let '(b, s2, e2) := sweep cutoff l s1 in (b, s2, e1 ++ e2)
     end).
Proof.
  unfold sweep. cbn [walk_loop]. unfold bind.
  destruct (cleanup_fn cutoff e tt s) as [[[[] [msg|]] s1] e1]; cbn [snd].
  - unfold ret. rewrite app_nil_r. reflexivity.
  - reflexivity.
Qed.

(** Whatever the sweep removes is an expired entry of the walk. *)
Lemma sweep_removes_expired cutoff l s :
  Forall (fun ev => forall p, removed_path ev = Some p ->
            exists e, In e l /\ we_path e = p /\ expired cutoff e)
         (events (sweep cutoff l s)).
Proof.
  unfold sweep. apply emits_walk_loop. intros e a Hin.
  apply emits_cleanup_fn; [discriminate|].
  intros He ok p [= <-]. eauto.
Qed.

(** A path none of whose entries is expired is left alone. *)
Lemma sweep_untouched cutoff p l : forall s,
  (forall e, In e l -> we_path e = p -> ~ expired cutoff e) ->
  files (world (final (sweep cutoff l s))) !! p = files (world s) !! p.
Proof.
  induction l as [|e l IH]; intros s Hp; [reflexivity|].
  rewrite sweep_cons.
  assert (Hl : forall e', In e' l -> we_path e' = p -> ~ expired cutoff e').
  { intros e' Hin. apply Hp. right; exact Hin. }
  destruct (expiredb cutoff e) eqn:Ex.
  - rewrite cleanup_fn_expired by exact Ex.
    assert (Hne : we_path e <> p).
    { intros Heq. apply (Hp e (or_introl eq_refl) Heq). apply expiredb_spec, Ex. }
    destruct (os_Remove_cases (we_path e) s) as [->|(msg & s1 & -> & Hf)]; cbn [snd].
    + specialize (IH (mkState (set_files (delete (we_path e)) (world s)) (stats s)) Hl).
      destruct (sweep cutoff l _) as [[b s2] e2]. unfold final in *. cbn [fst snd] in *.
      rewrite IH. cbn [world set_files files]. apply lookup_delete_ne, Hne.
    + unfold final. cbn [fst snd]. rewrite Hf. reflexivity.
  - rewrite cleanup_fn_kept by exact Ex. cbn [snd].
    destruct (we_err e); [reflexivity|].
    specialize (IH s Hl). destruct (sweep cutoff l s) as [[b s2] e2]. exact IH.
Qed.

(** The sweep never creates a file. *)
Lemma sweep_shrinks cutoff p l : forall s,
  files (world s) !! p = None ->
  files (world (final (sweep cutoff l s))) !! p = None.
Proof.
  induction l as [|e l IH]; intros s Hp; [exact Hp|].
  rewrite sweep_cons. destruct (expiredb cutoff e) eqn:Ex.
  - rewrite cleanup_fn_expired by exact Ex.
    destruct (os_Remove_cases (we_path e) s) as [->|(msg & s1 & -> & Hf)]; cbn [snd].
    + set (s1 := mkState _ _).
      assert (H1 : files (world s1) !! p = None).
      { subst s1. cbn [world set_files files]. rewrite lookup_delete.
        destruct (decide (we_path e = p)); [reflexivity|exact Hp]. }
      specialize (IH s1 H1). destruct (sweep cutoff l s1) as [[b s2] e2]. exact IH.
    + unfold final. cbn [fst snd]. rewrite Hf. exact Hp.
  - rewrite cleanup_fn_kept by exact Ex. cbn [snd].
    destruct (we_err e); [exact Hp|].
    specialize (IH s Hp). destruct (sweep cutoff l s) as [[b s2] e2]. exact IH.
Qed.

(** A sweep that returns no error met no traversal error and removed
    every expired entry. *)
Lemma sweep_complete cutoff l : forall s,
  snd (result (sweep cutoff l s)) = None ->
  forall e, In e l ->
    we_err e = None
    /\ (expired cutoff e ->
        In (EvRemove (we_path e) true) (events (sweep cutoff l s))
        /\ files (world (final (sweep cutoff l s))) !! we_path e = None).
Proof.
  induction l as [|e0 l IH]; intros s Hr e Hin; [contradiction|].
  rewrite sweep_cons in Hr |- *.
  destruct (expiredb cutoff e0) eqn:Ex.
  - rewrite cleanup_fn_expired in Hr |- * by exact Ex.
    destruct (os_Remove_cases (we_path e0) s) as [E|(msg & s1 & E & Hf)];
      rewrite E in Hr |- *; cbn [snd] in Hr |- *; [|discriminate Hr].
    set (s1 := mkState _ _) in *.
    pose proof (IH s1) as IH1. pose proof (sweep_shrinks cutoff (we_path e0) l s1) as Hsh.
    destruct (sweep cutoff l s1) as [[b s2] e2].
    unfold result, final, events in *. cbn [fst snd] in *.
    destruct Hin as [<-|Hin].
    + split; [apply expiredb_spec in Ex; apply Ex|]. intros _. split.
      * right. left. reflexivity.
      * apply Hsh. subst s1. cbn [world set_files files]. apply lookup_delete_eq.
    + destruct (IH1 Hr e Hin) as [He Hx]. split; [exact He|]. intros Hexp.
      destruct (Hx Hexp) as [H1 H2]. split; [|exact H2].
      right. apply in_or_app. right. exact H1.
  - rewrite cleanup_fn_kept in Hr |- * by exact Ex. cbn [snd] in Hr |- *.
    destruct (we_err e0) eqn:Ee; [discriminate Hr|].
    pose proof (IH s) as IH1. destruct (sweep cutoff l s) as [[b s2] e2].
    unfold result, final, events in *. cbn [fst snd app] in *.
    destruct Hin as [<-|Hin].
    + split; [exact Ee|]. intros Hexp. apply expiredb_spec in Hexp. congruence.
    + apply IH1; assumption.
Qed.

Lemma NoDup_map_eq {A B} (f : A -> B) (l : list A) x y :
  NoDup (map f l) -> In x l -> In y l -> f x = f y -> x = y.
Proof.
  induction l as [|z l IH]; cbn [map]; intros Hnd Hx Hy Hf; [contradiction|].
  apply NoDup_cons in Hnd. destruct Hnd as [Hnot Hnd].
  destruct Hx as [->|Hx], Hy as [->|Hy]; auto.
  - exfalso. apply Hnot. rewrite Hf. apply list_elem_of_In, in_map, Hy.
  - exfalso. apply Hnot. rewrite <- Hf. apply list_elem_of_In, in_map, Hx.
Qed.

Lemma cleanup_age_run cfg s :
  KeepLastNArchives cfg <= 0 -> 0 < RetentionDays cfg ->
  let sw := sweep (retention_cutoff cfg s) (walk (world s) (DestFolder cfg)) s in
  result (cleanupOldCompressedLogs cfg s) = snd (result sw)
  /\ final (cleanupOldCompressedLogs cfg s) = final sw
  /\ events (cleanupOldCompressedLogs cfg s) = EvWalk (DestFolder cfg) :: events sw.
Proof.
  intros HN HD. cbv zeta. unfold cleanupOldCompressedLogs.
  assert (E1 : (0 <? KeepLastNArchives cfg) = false) by (apply Z.ltb_ge; lia).
  assert (E2 : (RetentionDays cfg <=? 0) = false) by (apply Z.leb_gt; lia).
  rewrite E1, E2. unfold filepath_Walk, bind, time_Now, emit, get_world.
  fold (retention_cutoff cfg s).
  change (walk_loop (cleanup_fn (retention_cutoff cfg s))
            (walk (world s) (DestFolder cfg)) tt s)
    with (sweep (retention_cutoff cfg s) (walk (world s) (DestFolder cfg)) s).
  destruct (sweep _ _ s) as [[[[] err] s1] e1].
  unfold result, final, events, ret. cbn [fst snd app]. rewrite app_nil_r. auto.
Qed.

(** C7. Under the age policy only files whose modification time is
    strictly before now minus [RetentionDays] days are ever removed; a
    sweep that returns no error removes every such file, so that, the
    walk visiting each path once, a file is removed exactly when its
    modification time is strictly before the cutoff; a file whose
    modification time is the cutoff instant is neither removed nor
    touched, whatever else happens in the sweep; and on every file it is
    called on, the function of the walk attempts the removal exactly
    when the modification time is strictly before the cutoff. *)
Theorem age_cutoff_is_strict (cfg : Config) (s : State) :
  KeepLastNArchives cfg <= 0 -> 0 < RetentionDays cfg ->
  let cutoff := Time.AddDays (now (world s)) (- RetentionDays cfg) in
  let entries := walk (world s) (DestFolder cfg) in
  let r := cleanupOldCompressedLogs cfg s in
  (forall p ok, In (EvRemove p ok) (events r) ->
     exists e, In e entries /\ we_path e = p /\ f_isDir (we_info e) = false
               /\ f_mod (we_info e) < cutoff)
  /\ (result r = None ->
      forall e, In e entries -> f_isDir (we_info e) = false ->
        f_mod (we_info e) < cutoff ->
        In (EvRemove (we_path e) true) (events r)
        /\ files (world (final r)) !! we_path e = None)
  /\ (result r = None -> NoDup (map we_path entries) ->
      forall e, In e entries -> f_isDir (we_info e) = false ->
        (In (EvRemove (we_path e) true) (events r) <-> f_mod (we_info e) < cutoff))
  /\ (NoDup (map we_path entries) ->
      forall e, In e entries -> f_mod (we_info e) = cutoff ->
        (forall ok, ~ In (EvRemove (we_path e) ok) (events r))
        /\ files (world (final r)) !! we_path e = files (world s) !! we_path e)
  /\ (forall e s', we_err e = None -> f_isDir (we_info e) = false ->
        ((exists ok, In (EvRemove (we_path e) ok) (events (cleanup_fn cutoff e tt s')))
         <-> f_mod (we_info e) < cutoff)).
Proof.
  intros HN HD. cbv zeta. fold (retention_cutoff cfg s).
  destruct (cleanup_age_run cfg s HN HD) as (Hres & Hfin & Hev).
  rewrite Hres, Hfin, Hev.
  set (cutoff := retention_cutoff cfg s). set (entries := walk (world s) (DestFolder cfg)).
  assert (Honly : forall p ok, In (EvRemove p ok) (EvWalk (DestFolder cfg)
                     :: events (sweep cutoff entries s)) ->
            exists e, In e entries /\ we_path e = p /\ expired cutoff e).
  { intros p ok [Hin|Hin]; [discriminate Hin|].
    pose proof (sweep_removes_expired cutoff entries s) as HF.
    rewrite Forall_forall in HF.
    apply (HF (EvRemove p ok)); [apply list_elem_of_In, Hin|reflexivity]. }
  assert (Hall : snd (result (sweep cutoff entries s)) = None ->
            forall e, In e entries -> f_isDir (we_info e) = false ->
              f_mod (we_info e) < cutoff ->
              In (EvRemove (we_path e) true) (EvWalk (DestFolder cfg)
                    :: events (sweep cutoff entries s))
              /\ files (world (final (sweep cutoff entries s))) !! we_path e = None).
  { intros Hr e Hin Hd Hlt.
    destruct (sweep_complete cutoff entries s Hr e Hin) as [He Hx].
    destruct (Hx (conj He (conj Hd Hlt))) as [H1 H2]. split; [right; exact H1|exact H2]. }
  split; [|split; [|split; [|split]]].
  - intros p ok Hin. destruct (Honly p ok Hin) as (e & He & Hp & _ & Hd & Hlt). eauto 6.
  - exact Hall.
  - intros Hr Hnd e Hin Hd. split.
    + intros Hrem. destruct (Honly _ _ Hrem) as (e' & He' & Hp & _ & _ & Hlt).
      rewrite <- (NoDup_map_eq we_path entries e' e Hnd He' Hin Hp). exact Hlt.
    + intros Hlt. apply (Hall Hr e Hin Hd Hlt).
  - intros Hnd e Hin Heq.
    assert (Hkeep : forall e', In e' entries -> we_path e' = we_path e ->
                      ~ expired cutoff e').
    { intros e' He' Hp (_ & _ & Hlt).
      rewrite (NoDup_map_eq we_path entries e' e Hnd He' Hin Hp) in Hlt. lia. }
    split.
    + intros ok Hrem. destruct (Honly _ _ Hrem) as (e' & He' & Hp & Hexp).
      exact (Hkeep e' He' Hp Hexp).
    + apply sweep_untouched. exact Hkeep.
  - intros e s' He Hd. destruct (expiredb cutoff e) eqn:Ex.
    + rewrite cleanup_fn_expired by exact Ex. apply expiredb_spec in Ex.
      split; [intros _; apply Ex|]. intros _.
      destruct (os_Remove_cases (we_path e) s') as [->|(msg & s1 & -> & _)];
        [exists true|exists false]; right; left; reflexivity.
    + rewrite cleanup_fn_kept by exact Ex. split; [intros [ok []]|].
      intros Hlt. assert (Hexp : expired cutoff e) by (repeat split; assumption).
      apply expiredb_spec in Hexp. congruence.
Qed.

Lemma age_cutoff_is_strict_witness :
  (In (EvRemove Archive.dec true)
      (events (cleanupOldCompressedLogs Archive.cfg_age Archive.start))
   /\ files (world (final (cleanupOldCompressedLogs Archive.cfg_age Archive.start)))
        !! Archive.dec = None)
  /\ files (world (final (cleanupOldCompressedLogs Archive.cfg_age Archive.start)))
       !! Archive.feb = files (world Archive.start) !! Archive.feb.
Proof.
  assert (HN : KeepLastNArchives Archive.cfg_age <= 0) by (vm_compute; discriminate).
  assert (HD : 0 < RetentionDays Archive.cfg_age) by reflexivity.
  assert (Hnd : NoDup (map we_path (walk (world Archive.start) (DestFolder Archive.cfg_age)))).
  { apply (bool_decide_unpack _). vm_compute. exact I. }
  pose proof (age_cutoff_is_strict Archive.cfg_age Archive.start HN HD)
    as (_ & H2 & _ & H4 & _).
  split.
  - apply (H2 eq_refl (mkWalkEntry Archive.dec (Archive.file 2024 1 1) None)).
    + vm_compute. tauto.
    + reflexivity.
    + reflexivity.
  - apply (H4 Hnd (mkWalkEntry Archive.feb (Archive.file 2024 3 1) None)).
    + vm_compute. tauto.
    + reflexivity.
Defined.

Example boundary_sample :
  retention_cutoff Archive.cfg_age Archive.start = Time.date 2024 3 1
  /\ is_Some (files (world (final (cleanupOldCompressedLogs Archive.cfg_age Archive.start)))
                !! Archive.feb).
Proof. split; [reflexivity|]. vm_compute. eauto. Qed.

(** *** Failed deletions during the sweep *)

(** Under keep-last-N every candidate beyond the first N is attempted,
    whether or not earlier removals went through. *)
Lemma remove_beyond_attempts_all cfg l : forall idx s i f,
  l !! i = Some f -> KeepLastNArchives cfg <= idx + Z.of_nat i ->
  exists ok, In (EvRemove (fst f) ok) (events (remove_beyond cfg l idx s)).
Proof.
  induction l as [|f0 l IH]; intros idx s i f Hl Hi; [discriminate|].
  cbn [remove_beyond]. rewrite events_bind.
  destruct i as [|i]; cbn in Hl.
  - injection Hl as ->. assert (E : (KeepLastNArchives cfg <=? idx) = true)
      by (apply Z.leb_le; lia).
    rewrite E. rewrite events_bind. cbn [Printf emit events snd result final fst].
    rewrite events_bind.
    destruct (os_Remove_cases (fst f) s) as [->|(msg & s1 & -> & _)];
      [exists true|exists false]; right; left; reflexivity.
  - match goal with |- context [remove_beyond cfg l (idx + 1) ?s'] =>
      destruct (IH (idx + 1) s' i f Hl ltac:(lia)) as [ok Hin] end.
    exists ok. apply in_or_app. right. exact Hin.
Qed.

(** C5 fails on the code for the age policy: with the oldest archive
    locked, the sweep gives up at its failed removal.  The remaining
    expired files are not attempted and stay on disk. *)
Theorem age_sweep_stops_at_failed_removal :
  let r := cleanupOldCompressedLogs Archive.cfg_age Archive.locked in
  events r
  = [EvWalk Archive.dir;
     EvPrint "Removing old compressed log: C:\archive\iis_2023_11.zip";
     EvRemove Archive.nov false]
  /\ result r = Some "remove C:\archive\iis_2023_11.zip: file in use"
  /\ (forall ok, ~ In (EvRemove Archive.dec ok) (events r))
  /\ f_mod (Archive.file 2024 1 1) < retention_cutoff Archive.cfg_age Archive.locked
  /\ files (world (final r)) !! Archive.dec = Some (Archive.file 2024 1 1).
Proof.
  cbv zeta. repeat split; try (vm_compute; reflexivity).
  intros ok Hin. vm_compute in Hin.
  repeat (destruct Hin as [Hin|Hin]; [discriminate Hin|]). exact Hin.
Qed.

Example keep_last_n_goes_on :
  events (cleanupOldCompressedLogs Archive.cfg_keep Archive.locked)
  = [EvReadDir Archive.dir;
     EvPrint "Removing old compressed log (keep last 2): C:\archive\iis_2023_11.zip";
     EvRemove Archive.nov false;
     EvPrint "Removing old compressed log (keep last 2): C:\archive\old.gz";
     EvRemove Archive.old_gz true]
  /\ result (cleanupOldCompressedLogs Archive.cfg_keep Archive.locked) = None.
Proof. split; vm_compute; reflexivity. Qed.

(** ** Failure of a group *)

(** A group that fails is neither verified nor are its originals deleted. *)
Lemma failed_group_untouched cfg groupKey l s msg :
  result (compressMonthGroup cfg groupKey l s) = Some msg ->
  Forall (fun e => (forall p, e <> EvOpenReader p)
                   /\ forall p, removed_path e = Some p -> p = container_path cfg l)
         (events (compressMonthGroup cfg groupKey l s)).
Proof.
  set (P := fun e : Event => (forall p, e <> EvOpenReader p)
              /\ forall p, removed_path e = Some p -> p = container_path cfg l).
  assert (Hprint : forall line, P (EvPrint line)).
  { intros line. split; [discriminate|]. intros p [=]. }
  assert (Hlock : P EvLock) by (split; [discriminate|intros p [=]]).
  assert (Hwrite : P EvWrite) by (split; [discriminate|intros p [=]]).
  assert (Hunlock : forall sn, P (EvUnlock sn)) by (split; [discriminate|intros p [=]]).
  assert (Hc : forall ok, P (EvRemove (container_path cfg l) ok)).
  { intros ok. split; [discriminate|]. intros p [= <-]. reflexivity. }
  destruct l as [|first rest]; [discriminate|].
  unfold compressMonthGroup. fold (container_path cfg (first :: rest)).
  set (destPath := container_path cfg (first :: rest)) in *.
  rewrite result_bind, events_bind.
  destruct (result (os_Create destPath s)) as [e|] eqn:Ecreate; cbv beta iota.
  { intros _. apply Forall_app. split; [apply emits_os_Create|constructor]. }
  destruct (String.eqb _ "zip").
  2:{ intros _. apply Forall_app. split; [apply emits_os_Create|].
      destruct (String.eqb _ "gzip"); split_run; auto 6 with run. }
  rewrite result_bind, events_bind.
  change (addFilesToZip (first :: rest) destPath (final (os_Create destPath s)))
    with (built cfg (first :: rest) s).
  destruct (result (built cfg (first :: rest) s)) as [added [e|]] eqn:Ebuilt; cbv beta iota.
  { intros _. apply Forall_app. split; [apply emits_os_Create|].
    apply Forall_app. split; [apply emits_addFilesToZip; auto|].
    split_run; auto 6 with run. }
  rewrite !bind_silent by auto with run.
  destruct (result (file_Close destPath _)) as [e|].
  { intros _. apply Forall_app. split; [apply emits_os_Create|].
    apply Forall_app. split; [apply emits_addFilesToZip; auto|]. constructor. }
  repeat rewrite result_bind. rewrite result_ret. discriminate.
Qed.

(** C4 fails on the code where it is the destination file, not the zip
    writer, that cannot be closed: the group fails and is neither
    verified nor are originals deleted, but the container stays on disk. *)
Theorem container_left_when_file_close_fails :
  let r := compressMonthGroup Sample.cfg "2024-01" Sample.january Variants.unclosable in
  result r = Some "closing destination file: close C:\archive\iis_2024_01.zip"
  /\ (forall p ok, ~ In (EvRemove p ok) (events r))
  /\ (forall p, ~ In (EvOpenReader p) (events r))
  /\ is_Some (files (world (final r)) !! Sample.zipPath)
  /\ files (world (final r)) !! Sample.site2_jan1
     = files (world Variants.unclosable) !! Sample.site2_jan1.
Proof.
  cbv zeta. split; [vm_compute; reflexivity|]. split; [|split; [|split]].
  - intros p ok Hin. vm_compute in Hin.
    repeat (destruct Hin as [Hin|Hin]; [discriminate Hin|]). exact Hin.
  - intros p Hin. vm_compute in Hin.
    repeat (destruct Hin as [Hin|Hin]; [discriminate Hin|]). exact Hin.
  - vm_compute. eauto.
  - vm_compute. reflexivity.
Qed.

(** When it is the zip writer that cannot be closed, the container is
    removed. *)
Example container_removed_when_zip_close_fails :
  let r := compressMonthGroup Sample.cfg "2024-01" Sample.january Variants.unflushable in
  result r = Some "closing zip writer: zip: write error"
  /\ In (EvRemove Sample.zipPath true) (events r)
  /\ files (world (final r)) !! Sample.zipPath = None.
Proof.
  cbv zeta. split; [vm_compute; reflexivity|]. split; [vm_compute; tauto|].
  vm_compute. reflexivity.
Qed.

(** ** Sample evaluations of the string and time functions *)

Example Base_sample : Str.Base "C:\logs\W3SVC1\u_ex240101.log" = "u_ex240101.log".
Proof. reflexivity. Qed.

Example Format_sample :
  Time.Format_2006_01_02 (Time.date 2024 3 17 + 5) = "2024-03-17"
  /\ Time.Format_002 (Time.date 2024 3 17) = "077".
Proof. split; vm_compute; reflexivity. Qed.

Example ReplaceAll_sample :
  Str.ReplaceAll "iis_%Y_%m_%Y" "%Y" "2024" = "iis_2024_%m_2024".
Proof. reflexivity. Qed.

Example archive_name_sample :
  archive_name "IIS_2023_12.ZIP" = true /\ archive_name "old.gz" = true
  /\ archive_name "notes.txt" = false.
Proof. repeat split. Qed.

(** * Further properties *)

(** ** Configuration *)

Ltac fields :=
  cbn [with_LogAgeDays with_RetentionDays with_CompressionType
       with_DestFileNamePattern with_ArchiveScope with_KeepLastNArchives
       SourceFolder DestFolder LogAgeDays RetentionDays CleanupOldLogs
       DeleteOriginalAfterCompress CompressCurrentMonth ArchiveScope
       KeepLastNArchives DestFileNamePattern CompressionType MaxCPUs].

(** A field is the same on both sides of defaults that do not set it. *)
Ltac untouched :=
  repeat match goal with
         | x := _ : Config |- _ => subst x
         end;
  repeat match goal with
         | |- context [if ?b then _ else _] => destruct b
         end;
  reflexivity.

Lemma loadConfig_validate_normal (c c' : Config) :
  loadConfig_validate c = inl c' ->
  normal c'
  /\ SourceFolder c' = SourceFolder c /\ DestFolder c' = DestFolder c
  /\ CleanupOldLogs c' = CleanupOldLogs c
  /\ DeleteOriginalAfterCompress c' = DeleteOriginalAfterCompress c
  /\ CompressCurrentMonth c' = CompressCurrentMonth c
  /\ MaxCPUs c' = MaxCPUs c.
Proof.
  unfold loadConfig_validate, normal.
  destruct (String.eqb_spec (SourceFolder c) "") as [|Hs]; [discriminate|].
  destruct (String.eqb_spec (DestFolder c) "") as [|Hd]; [discriminate|].
  cbv zeta.
  set (c1 := if LogAgeDays c <=? 0 then with_LogAgeDays 7 c else c).
  set (c2 := if RetentionDays c1 <? 0 then with_RetentionDays 0 c1 else c1).
  set (c3 := if String.eqb (CompressionType c2) "" then with_CompressionType "zip" c2 else c2).
  set (c4 := if String.eqb (DestFileNamePattern c3) ""
             then with_DestFileNamePattern "logs_%Y%m%d_%H%M%S" c3 else c3).
  set (c5 := if String.eqb (ArchiveScope c4) "" then with_ArchiveScope "monthly" c4 else c4).
  set (c6 := if negb (String.eqb (Str.ToLower (ArchiveScope c5)) "monthly")
                && negb (String.eqb (Str.ToLower (ArchiveScope c5)) "daily")
             then with_ArchiveScope "monthly" c5 else c5).
  set (c7 := if KeepLastNArchives c6 <? 0 then with_KeepLastNArchives 0 c6 else c6).
  intros [= <-].
  assert (H1 : 0 < LogAgeDays c1).
  { subst c1. destruct (Z.leb_spec (LogAgeDays c) 0); fields; lia. }
  assert (H2 : 0 <= RetentionDays c2).
  { subst c2. destruct (Z.ltb_spec (RetentionDays c1) 0); fields; lia. }
  assert (H3 : CompressionType c3 <> "").
  { subst c3. destruct (String.eqb_spec (CompressionType c2) ""); fields;
      [discriminate|assumption]. }
  assert (H4 : DestFileNamePattern c4 <> "").
  { subst c4. destruct (String.eqb_spec (DestFileNamePattern c3) ""); fields;
      [discriminate|assumption]. }
  assert (H6 : Str.ToLower (ArchiveScope c6) = "monthly"
               \/ Str.ToLower (ArchiveScope c6) = "daily").
  { subst c6.
    destruct (String.eqb_spec (Str.ToLower (ArchiveScope c5)) "monthly") as [E|_];
      cbn [negb andb]; [left; exact E|].
    destruct (String.eqb_spec (Str.ToLower (ArchiveScope c5)) "daily") as [E|_];
      cbn [negb]; [right; exact E|left; reflexivity]. }
  assert (H7 : 0 <= KeepLastNArchives c7).
  { subst c7. destruct (Z.ltb_spec (KeepLastNArchives c6) 0); fields; lia. }
  assert (E1 : LogAgeDays c7 = LogAgeDays c1) by (clear; untouched).
  assert (E2 : RetentionDays c7 = RetentionDays c2) by (clear; untouched).
  assert (E3 : CompressionType c7 = CompressionType c3) by (clear; untouched).
  assert (E4 : DestFileNamePattern c7 = DestFileNamePattern c4) by (clear; untouched).
  assert (E6 : ArchiveScope c7 = ArchiveScope c6) by (clear; untouched).
  assert (Es : SourceFolder c7 = SourceFolder c) by (clear; untouched).
  assert (Ed : DestFolder c7 = DestFolder c) by (clear; untouched).
  rewrite E1, E2, E3, E4, E6, Es, Ed.
  repeat split; try assumption; clear; untouched.
Qed.

(** X1. A configuration accepted by [loadConfig] names both folders,
    has a positive log age, non-negative retention settings, a
    compression type and a name pattern, and a scope that reads
    [monthly] or [daily] whatever its case; the folders and the flags
    are those of the file. *)
Theorem loadConfig_normalises (c c' : Config) :
  loadConfig_validate c = inl c' ->
  normal c'
  /\ SourceFolder c' = SourceFolder c /\ DestFolder c' = DestFolder c
  /\ CleanupOldLogs c' = CleanupOldLogs c
  /\ DeleteOriginalAfterCompress c' = DeleteOriginalAfterCompress c
  /\ CompressCurrentMonth c' = CompressCurrentMonth c
  /\ MaxCPUs c' = MaxCPUs c.
Proof. exact (loadConfig_validate_normal c c'). Qed.

Lemma normal_unchanged (c : Config) : normal c -> loadConfig_validate c = inl c.
Proof.
  intros (Hs & Hd & Ha & Hr & Hk & Ht & Hp & Hscope). unfold loadConfig_validate.
  apply String.eqb_neq in Hs, Hd, Ht, Hp. rewrite Hs, Hd. cbv zeta.
  assert (E1 : (LogAgeDays c <=? 0) = false) by (apply Z.leb_gt; lia).
  assert (E2 : (RetentionDays c <? 0) = false) by (apply Z.ltb_ge; lia).
  assert (E3 : (KeepLastNArchives c <? 0) = false) by (apply Z.ltb_ge; lia).
  assert (E4 : String.eqb (ArchiveScope c) "" = false).
  { apply String.eqb_neq. intros E. rewrite E in Hscope. destruct Hscope; discriminate. }
  assert (E5 : negb (String.eqb (Str.ToLower (ArchiveScope c)) "monthly")
               && negb (String.eqb (Str.ToLower (ArchiveScope c)) "daily") = false).
  { destruct Hscope as [-> | ->]; reflexivity. }
  rewrite E1, E2, Ht, Hp, E4, E5, E3. reflexivity.
Qed.

(** X2. The validation of [loadConfig] is idempotent: a configuration it
    returns passes it again unchanged; and the configurations it leaves
    unchanged are exactly the normal ones. *)
Theorem loadConfig_idempotent (c c' : Config) :
  (loadConfig_validate c = inl c' -> loadConfig_validate c' = inl c')
  /\ (loadConfig_validate c = inl c <-> normal c).
Proof.
  split; [|split].
  - intros H. apply normal_unchanged. apply (loadConfig_validate_normal c c' H).
  - intros H. apply (loadConfig_validate_normal c c H).
  - apply normal_unchanged.
Qed.

(** ** Period grouper, continued *)

Lemma group_foldl_lookup cfg k l : forall acc : gmap string (list LogFile),
  foldl (fun groups lf =>
           let key := groupKeyForTime cfg (ModTime lf) in
           <[key := default [] (groups !! key) ++ [lf]]> groups) acc l !! k
  = match filter (fun lf => groupKeyForTime cfg (ModTime lf) = k) l with
    | [] => acc !! k
    | g => Some (default [] (acc !! k) ++ g)
    end.
Proof.
  induction l as [|lf l IH]; intros acc; [reflexivity|].
  cbn [foldl]. cbv zeta. rewrite IH. rewrite filter_cons.
  destruct (decide (groupKeyForTime cfg (ModTime lf) = k)) as [->|Hne].
  - rewrite lookup_insert_eq.
    destruct (filter _ l) as [|x g]; [reflexivity|].
    f_equal. unfold default at 1. cbn [from_option id].
    rewrite <- app_assoc. reflexivity.
  - rewrite lookup_insert_ne by exact Hne. reflexivity.
Qed.

Lemma group_files_lookup (cfg : Config) (logFiles : list LogFile) (k : string) :
  group_files cfg logFiles !! k
  = match filter (fun lf => groupKeyForTime cfg (ModTime lf) = k) logFiles with
    | [] => None
    | g => Some g
    end.
Proof.
  unfold group_files. rewrite group_foldl_lookup, lookup_empty.
  destruct (filter _ logFiles); reflexivity.
Qed.

(** X3. The grouping loop partitions the candidates: the group of a key
    is the list of the files with that key, in the order of the scan,
    and there is no group for a key no file has. *)
Theorem group_files_partition (cfg : Config) (logFiles : list LogFile) (k : string) :
  group_files cfg logFiles !! k
  = match filter (fun lf => groupKeyForTime cfg (ModTime lf) = k) logFiles with
    | [] => None
    | g => Some g
    end.
Proof. exact (group_files_lookup cfg logFiles k). Qed.

(** X4. Every candidate is in exactly the group of its own key, and no
    group is empty. *)
Theorem group_files_covers (cfg : Config) (logFiles : list LogFile) :
  (forall lf, In lf logFiles ->
     exists g, group_files cfg logFiles !! groupKeyForTime cfg (ModTime lf) = Some g
               /\ In lf g)
  /\ (forall k g lf, group_files cfg logFiles !! k = Some g -> In lf g ->
        In lf logFiles /\ groupKeyForTime cfg (ModTime lf) = k)
  /\ (forall k, group_files cfg logFiles !! k <> Some []).
Proof.
  split; [|split].
  - intros lf Hin. rewrite group_files_lookup.
    assert (Hf : lf ∈ filter (fun x => groupKeyForTime cfg (ModTime x)
                                       = groupKeyForTime cfg (ModTime lf)) logFiles).
    { apply list_elem_of_filter. split; [reflexivity|apply list_elem_of_In, Hin]. }
    destruct (filter _ logFiles) as [|x g] eqn:E; [inversion Hf|].
    exists (x :: g). split; [reflexivity|apply list_elem_of_In, Hf].
  - intros k g lf. rewrite group_files_lookup.
    destruct (filter _ logFiles) as [|x g'] eqn:E; [discriminate|].
    intros [= <-] Hin. apply list_elem_of_In in Hin. rewrite <- E in Hin.
    apply list_elem_of_filter in Hin. destruct Hin as [Hk Hin].
    split; [apply list_elem_of_In, Hin|exact Hk].
  - intros k. rewrite group_files_lookup.
    destruct (filter _ logFiles); discriminate.
Qed.

(** ** Sorting *)

Lemma sort_insert_Permutation {A} (less : A -> A -> bool) x l :
  Permutation (sort_insert less x l) (x :: l).
Proof.
  induction l as [|y l IH]; cbn [sort_insert]; [reflexivity|].
  destruct (less y x); [|reflexivity].
  rewrite IH. apply perm_swap.
Qed.

Lemma sort_Slice_Permutation {A} (less : A -> A -> bool) l :
  Permutation (sort_Slice less l) l.
Proof.
  unfold sort_Slice. induction l as [|x l IH]; cbn [fold_right]; [reflexivity|].
  rewrite sort_insert_Permutation. constructor. exact IH.
Qed.

Section Sorted.

Context {A : Type} (less : A -> A -> bool).
Hypothesis less_asym : forall a b, less a b = true -> less b a = false.

Definition not_after (a b : A) : Prop := less b a = false.

Lemma sort_insert_HdRel x y l :
  not_after y x -> HdRel not_after y l -> HdRel not_after y (sort_insert less x l).
Proof.
  intros Hx Hl. destruct l as [|z l]; cbn [sort_insert]; [constructor; exact Hx|].
  inversion Hl; subst. destruct (less z x); constructor; assumption.
Qed.

Lemma sort_insert_Sorted x l :
  Sorted not_after l -> Sorted not_after (sort_insert less x l).
Proof.
  induction 1 as [|y l Hs IH Hh]; cbn [sort_insert]; [repeat constructor|].
  destruct (less y x) eqn:E.
  - constructor; [exact IH|]. apply sort_insert_HdRel; [|exact Hh].
    apply less_asym, E.
  - constructor; [constructor; assumption|]. constructor. exact E.
Qed.

Lemma sort_Slice_Sorted l : Sorted not_after (sort_Slice less l).
Proof.
  unfold sort_Slice. induction l as [|x l IH]; cbn [fold_right]; [constructor|].
  apply sort_insert_Sorted, IH.
Qed.

End Sorted.

Lemma Sorted_weaken {A} (R S : A -> A -> Prop) l :
  (forall a b, R a b -> S a b) -> Sorted R l -> Sorted S l.
Proof.
  intros HRS. induction 1 as [|x l Hs IH Hh]; constructor; [exact IH|].
  destruct Hh; constructor. auto.
Qed.

(** ** File scanner *)

Lemma findLogFiles_fn_run cutoff e acc s :
  findLogFiles_fn cutoff e acc s
  = (match we_err e with
     | Some err => (acc, Some err)
     | None => (if selected cutoff e then acc ++ [to_LogFile e] else acc, None)
     end, s, []).
Proof.
  unfold findLogFiles_fn, selected, log_name, to_LogFile.
  destruct (we_err e); [reflexivity|].
  destruct (f_isDir (we_info e)); [reflexivity|].
  destruct (Time.After _ _); [reflexivity|]. cbn [negb andb].
  destruct (_ || _); reflexivity.
Qed.

Lemma scan_run cutoff l : forall acc s,
  walk_loop (findLogFiles_fn cutoff) l acc s
  = ((acc ++ map to_LogFile (List.filter (selected cutoff) (fst (before_error l))),
      snd (before_error l)), s, []).
Proof.
  induction l as [|e l IH]; intros acc s; cbn [walk_loop before_error].
  - cbn. rewrite app_nil_r. reflexivity.
  - unfold bind. rewrite findLogFiles_fn_run.
    destruct (we_err e); cbn [fst snd List.filter map].
    + rewrite app_nil_r. reflexivity.
    + rewrite IH. destruct (selected cutoff e); cbn [map app];
        rewrite <- ?app_assoc; reflexivity.
Qed.

Lemma before_error_clean l :
  snd (before_error l) = None -> fst (before_error l) = l.
Proof.
  induction l as [|e l IH]; cbn [before_error]; [reflexivity|].
  destruct (we_err e); cbn [fst snd]; [discriminate|]. intros H. rewrite IH by exact H.
  reflexivity.
Qed.

Lemma before_error_first l err :
  snd (before_error l) = Some err ->
  exists pre e post, l = pre ++ e :: post /\ we_err e = Some err
                     /\ fst (before_error l) = pre
                     /\ Forall (fun x => we_err x = None) pre.
Proof.
  induction l as [|e l IH]; cbn [before_error]; [discriminate|].
  destruct (we_err e) as [m|] eqn:Ee; cbn [fst snd].
  - intros [= <-]. exists [], e, l. auto.
  - intros H. destruct (IH H) as (pre & e' & post & -> & He' & Hpre & Hall).
    exists (e :: pre), e', post. rewrite Hpre. repeat split; auto.
Qed.

Lemma findLogFiles_run cfg s :
  findLogFiles cfg s
  = ((sort_Slice (fun a b => Time.Before (ModTime a) (ModTime b))
        (map to_LogFile
           (List.filter (selected (scan_cutoff cfg s))
              (fst (before_error (walk (world s) (SourceFolder cfg)))))),
      snd (before_error (walk (world s) (SourceFolder cfg)))),
     s, [EvWalk (SourceFolder cfg)]).
Proof.
  unfold findLogFiles, filepath_Walk, bind, time_Now, emit, get_world, ret.
  fold (scan_cutoff cfg s). rewrite scan_run. reflexivity.
Qed.

(** X5. The scan reads and changes nothing.  When the walk meets no
    error, the files it returns are exactly the entries of the walk that
    are not directories, were modified at or before now minus
    [LogAgeDays] days, and pass the name test: the extension is [.log]
    or [.txt], or the path contains [log], whatever the case of the
    letters; they come with the size and the modification time the
    walk reported. *)
Theorem findLogFiles_selects (cfg : Config) (s : State) :
  let r := findLogFiles cfg s in
  let cutoff := Time.AddDays (now (world s)) (- LogAgeDays cfg) in
  final r = s
  /\ events r = [EvWalk (SourceFolder cfg)]
  /\ (snd (result r) = None ->
      forall lf, In lf (fst (result r)) <->
        exists e, In e (walk (world s) (SourceFolder cfg))
          /\ f_isDir (we_info e) = false
          /\ f_mod (we_info e) <= cutoff
          /\ log_name (we_path e) = true
          /\ lf = mkLogFile (we_path e) (f_size (we_info e)) (f_mod (we_info e))).
Proof.
  cbv zeta. rewrite findLogFiles_run. unfold final, events, result. cbn [fst snd].
  split; [reflexivity|]. split; [reflexivity|]. intros Hok lf.
  rewrite (before_error_clean _ Hok).
  rewrite sort_Slice_In.
  rewrite in_map_iff. fold (scan_cutoff cfg s). split.
  - intros (e & <- & He). apply filter_In in He. destruct He as [Hin Hsel].
    unfold selected in Hsel. apply andb_true_iff in Hsel. destruct Hsel as [Hsel Hn].
    apply andb_true_iff in Hsel. destruct Hsel as [Hd Ha].
    apply negb_true_iff in Hd, Ha. unfold Time.After in Ha. apply Z.ltb_ge in Ha.
    exists e. auto 6.
  - intros (e & Hin & Hd & Ha & Hn & ->). exists e. split; [reflexivity|].
    apply filter_In. split; [exact Hin|]. unfold selected, Time.After.
    rewrite Hd, Hn. apply Z.ltb_ge in Ha. rewrite Ha. reflexivity.
Qed.

(** X6. The scan returns its files oldest first, and returns each entry
    it selected once: the result is a permutation of the selected
    entries. *)
Theorem findLogFiles_sorted (cfg : Config) (s : State) :
  let r := findLogFiles cfg s in
  Sorted older_first (fst (result r))
  /\ Permutation (fst (result r))
       (map to_LogFile
          (List.filter (selected (scan_cutoff cfg s))
             (fst (before_error (walk (world s) (SourceFolder cfg)))))).
Proof.
  cbv zeta. rewrite findLogFiles_run. unfold result. cbn [fst]. split.
  - eapply Sorted_weaken; [|apply sort_Slice_Sorted].
    + intros a b H. unfold not_after, Time.Before in H. apply Z.ltb_ge in H. exact H.
    + intros a b H. unfold Time.Before in *. apply Z.ltb_lt in H. apply Z.ltb_ge. lia.
  - apply sort_Slice_Permutation.
Qed.

(** X7. A traversal error stops the scan: the error returned is that
    of the first entry of the walk that carries one. *)
Theorem findLogFiles_fails_fast (cfg : Config) (s : State) (err : string) :
  snd (result (findLogFiles cfg s)) = Some err <->
  exists pre e post,
    walk (world s) (SourceFolder cfg) = pre ++ e :: post
    /\ we_err e = Some err
    /\ Forall (fun x => we_err x = None) pre.
Proof.
  rewrite findLogFiles_run. unfold result. cbn [fst snd]. split.
  - intros H. destruct (before_error_first _ _ H) as (pre & e & post & Hl & He & _ & Hall).
    eauto 6.
  - intros (pre & e & post & -> & He & Hall). clear s.
    induction Hall as [|x pre Hx _ IH]; cbn [app before_error].
    + rewrite He. reflexivity.
    + rewrite Hx. exact IH.
Qed.

(** ** Retry-guarded deletion *)

Lemma os_Remove_locked p s n :
  locks (world s) !! p = Some (S n) ->
  os_Remove p s
  = (Some ("remove " +:+ p +:+ ": file in use"),
     mkState (set_locks (insert p n) (world s)) (stats s), [EvRemove p false]).
Proof. intros H. unfold os_Remove. rewrite H. reflexivity. Qed.

Lemma os_Remove_free p s f :
  lock_count s p = 0%nat -> files (world s) !! p = Some f ->
  os_Remove p s
  = (None, mkState (set_files (delete p) (world s)) (stats s), [EvRemove p true]).
Proof.
  unfold lock_count, os_Remove. intros Hl Hf.
  destruct (locks (world s) !! p) as [[|n]|]; try discriminate; rewrite Hf; reflexivity.
Qed.

Lemma os_Remove_missing p s :
  lock_count s p = 0%nat -> files (world s) !! p = None ->
  os_Remove p s = (Some ("remove " +:+ p +:+ ": no such file"), s, [EvRemove p false]).
Proof.
  unfold lock_count, os_Remove. intros Hl Hf.
  destruct (locks (world s) !! p) as [[|n]|]; try discriminate; rewrite Hf; reflexivity.
Qed.

Lemma deleteWithRetry_from_run path delay f : forall left s lastErr,
  files (world s) !! path = Some f ->
  let r := deleteWithRetry_from path left delay lastErr s in
  ((lock_count s path < left)%nat ->
     result r = None
     /\ files (world (final r)) !! path = None
     /\ events r = concat (replicate (lock_count s path) (failed_attempt path delay))
                   ++ [EvRemove path true])
  /\ ((left <= lock_count s path)%nat ->
      result r = match left with
                 | O => lastErr
                 | S _ => Some ("remove " +:+ path +:+ ": file in use")
                 end
      /\ files (world (final r)) !! path = Some f
      /\ lock_count (final r) path = (lock_count s path - left)%nat
      /\ events r = concat (replicate left (failed_attempt path delay)))
  /\ (forall q, q <> path -> files (world (final r)) !! q = files (world s) !! q)
  /\ stats (final r) = stats s.
Proof.
  induction left as [|k IH]; intros s lastErr Hf; cbv zeta; cbn [deleteWithRetry_from].
  - split; [lia|]. split; [|split; [reflexivity|reflexivity]].
    intros _. unfold result, final, events. cbn. rewrite Nat.sub_0_r. auto.
  - destruct (lock_count s path) as [|n] eqn:En.
    + unfold bind. rewrite (os_Remove_free path s f En Hf).
      unfold result, final, events, ret. cbn [fst snd app concat replicate world
        set_files files stats].
      split; [|split; [lia|split; [|reflexivity]]].
      * intros _. split; [reflexivity|]. split; [apply lookup_delete_eq|reflexivity].
      * intros q Hq. apply lookup_delete_ne. congruence.
    + assert (Hl : locks (world s) !! path = Some (S n)).
      { unfold lock_count in En. destruct (locks (world s) !! path) as [m|];
          cbn in En; [congruence|discriminate]. }
      unfold bind. rewrite (os_Remove_locked path s n Hl). cbn [time_Sleep emit].
      set (s1 := mkState (set_locks (insert path n) (world s)) (stats s)).
      assert (Hf1 : files (world s1) !! path = Some f) by exact Hf.
      assert (En1 : lock_count s1 path = n).
      { unfold lock_count, s1. cbn [world set_locks locks]. rewrite lookup_insert_eq.
        reflexivity. }
      specialize (IH s1 (Some ("remove " +:+ path +:+ ": file in use")) Hf1).
      cbv zeta in IH. rewrite En1 in IH.
      destruct (deleteWithRetry_from path k delay _ s1) as [[b s2] e2].
      unfold result, final, events in *. cbn [fst snd app concat replicate] in *.
      destruct IH as (IHa & IHb & IHc & IHd).
      split; [|split; [|split]].
      * intros Hlt. destruct (IHa ltac:(lia)) as (-> & H2 & ->). auto.
      * intros Hle. destruct (IHb ltac:(lia)) as (Hr & H2 & H3 & ->).
        split; [|auto]. destruct k; [exact Hr|exact Hr].
      * exact IHc.
      * exact IHd.
Qed.

(** X8. [deleteWithRetry] on a file that exists and is locked for [n]
    more attempts: with [n < attempts] it fails [n] times, pausing
    after each failure, then removes the file and returns no error;
    with [attempts <= n] every attempt fails, each followed by a pause,
    also the last one, the file stays and the error of the lock is
    returned.  No other file and no statistic is touched. *)
Theorem deleteWithRetry_outcome (path : string) (attempts : nat) (delay : Z)
    (s : State) (f : File) :
  files (world s) !! path = Some f ->
  (0 < attempts)%nat ->
  let n := lock_count s path in
  let r := deleteWithRetry path attempts delay s in
  ((n < attempts)%nat ->
     result r = None
     /\ files (world (final r)) !! path = None
     /\ events r = concat (replicate n (failed_attempt path delay)) ++ [EvRemove path true])
  /\ ((attempts <= n)%nat ->
      result r = Some ("remove " +:+ path +:+ ": file in use")
      /\ files (world (final r)) !! path = Some f
      /\ events r = concat (replicate attempts (failed_attempt path delay)))
  /\ (forall q, q <> path -> files (world (final r)) !! q = files (world s) !! q)
  /\ stats (final r) = stats s.
Proof.
  intros Hf Hpos. cbv zeta. unfold deleteWithRetry.
  destruct (deleteWithRetry_from_run path delay f attempts s None Hf) as (Ha & Hb & Hc & Hd).
  split; [exact Ha|]. split; [|split; assumption].
  intros Hle. destruct (Hb Hle) as (Hr & H2 & _ & H4).
  destruct attempts; [lia|]. auto.
Qed.

Lemma deleteWithRetry_from_missing path delay : forall left s lastErr,
  files (world s) !! path = None -> lock_count s path = 0%nat ->
  deleteWithRetry_from path left delay lastErr s
  = (match left with
     | O => lastErr
     | S _ => Some ("remove " +:+ path +:+ ": no such file")
     end, s, concat (replicate left (failed_attempt path delay))).
Proof.
  induction left as [|k IH]; intros s lastErr Hf Hl; cbn [deleteWithRetry_from];
    [reflexivity|].
  unfold bind. rewrite (os_Remove_missing path s Hl Hf). cbn [time_Sleep emit].
  rewrite IH by assumption. cbn [app concat replicate]. destruct k; reflexivity.
Qed.

(** X9. [deleteWithRetry] on a path that is already gone does not
    succeed: it makes all its attempts, pausing after each, changes
    nothing and returns the error of the last one.  Asked for no
    attempt at all, it returns no error without trying. *)
Theorem deleteWithRetry_missing (path : string) (attempts : nat) (delay : Z) (s : State) :
  files (world s) !! path = None -> lock_count s path = 0%nat ->
  deleteWithRetry path attempts delay s
  = (match attempts with
     | O => None
     | S _ => Some ("remove " +:+ path +:+ ": no such file")
     end, s, concat (replicate attempts (failed_attempt path delay))).
Proof. intros Hf Hl. apply deleteWithRetry_from_missing; assumption. Qed.

(** ** Keep-last-N *)

Lemma remove_beyond_paths cfg l : forall idx s,
  omap removed_path (events (remove_beyond cfg l idx s))
  = map fst (drop (Z.to_nat (KeepLastNArchives cfg - idx)) l).
Proof.
  induction l as [|f l IH]; intros idx s; cbn [remove_beyond].
  - rewrite drop_nil. reflexivity.
  - rewrite events_bind, omap_app, IH.
    destruct (Z.leb_spec (KeepLastNArchives cfg) idx) as [Hle|Hgt].
    + replace (Z.to_nat (KeepLastNArchives cfg - idx)) with 0%nat by lia.
      replace (Z.to_nat (KeepLastNArchives cfg - (idx + 1))) with 0%nat by lia.
      rewrite !drop_0. unfold bind, Printf, emit, ret.
      destruct (os_Remove_cases (fst f) s) as [->|(msg & s1 & -> & _)];
        reflexivity.
    + replace (Z.to_nat (KeepLastNArchives cfg - idx))
        with (S (Z.to_nat (KeepLastNArchives cfg - (idx + 1)))) by lia.
      reflexivity.
Qed.

Lemma os_ReadDir_ok p s :
  faults (world s) (OpReadDir p) = false ->
  os_ReadDir p s = (inl (readdir (world s) p), s, [EvReadDir p]).
Proof.
  intros H. unfold os_ReadDir, bind, emit, fails, get_world, ret. rewrite H. reflexivity.
Qed.

Lemma os_ReadDir_fails p s :
  faults (world s) (OpReadDir p) = true ->
  os_ReadDir p s = (inr ("open " +:+ p), s, [EvReadDir p]).
Proof.
  intros H. unfold os_ReadDir, bind, emit, fails, get_world, ret. rewrite H. reflexivity.
Qed.

(** X10. Keep-last-N orders the candidates newest first and attempts
    to remove exactly those after the first N, in that order; with N
    candidates or fewer it removes nothing. *)
Theorem keep_last_n_removes_oldest (cfg : Config) (s : State) :
  0 < KeepLastNArchives cfg ->
  faults (world s) (OpReadDir (DestFolder cfg)) = false ->
  let found := result (collect_archives cfg (readdir (world s) (DestFolder cfg)) [] s) in
  let r := cleanupOldCompressedLogs cfg s in
  exists sorted,
    Permutation sorted found
    /\ Sorted newer_first sorted
    /\ omap removed_path (events r)
       = map fst (drop (Z.to_nat (KeepLastNArchives cfg)) sorted)
    /\ length (omap removed_path (events r))
       = (length found - Z.to_nat (KeepLastNArchives cfg))%nat.
Proof.
  intros HN Hok. cbv zeta. apply Z.ltb_lt in HN.
  set (found := result (collect_archives cfg (readdir (world s) (DestFolder cfg)) [] s)).
  set (sorted := sort_Slice (fun a b : string * Time.t => Time.After (snd a) (snd b)) found).
  assert (Hperm : Permutation sorted found) by apply sort_Slice_Permutation.
  assert (Hev : omap removed_path (events (cleanupOldCompressedLogs cfg s))
                = map fst (drop (Z.to_nat (KeepLastNArchives cfg)) sorted)).
  { unfold cleanupOldCompressedLogs. rewrite HN. unfold bind at 1.
    rewrite (os_ReadDir_ok _ _ Hok). unfold bind at 1.
    subst sorted found. rewrite collect_archives_run. unfold result. cbn [fst].
    unfold bind.
    match goal with |- context [remove_beyond cfg ?l 0 s] =>
      pose proof (remove_beyond_paths cfg l 0 s) as Hp;
      destruct (remove_beyond cfg l 0 s) as [[b s2] e2] end.
    unfold events, ret in *. cbn [fst snd app] in *. rewrite app_nil_r.
    rewrite Z.sub_0_r in Hp. exact Hp. }
  exists sorted. split; [exact Hperm|]. split; [|split; [exact Hev|]].
  - eapply Sorted_weaken; [|apply sort_Slice_Sorted].
    + intros a b H. unfold not_after, Time.After in H. apply Z.ltb_ge in H. exact H.
    + intros a b H. unfold Time.After in *. apply Z.ltb_lt in H. apply Z.ltb_ge. lia.
  - rewrite Hev, length_map, length_drop, (Permutation_length Hperm). reflexivity.
Qed.

(** X11. Keep-last-N returns an error exactly when the destination
    folder cannot be listed, and then it has removed nothing: a removal
    that fails is not reported. *)
Theorem keep_last_n_reports_listing_only (cfg : Config) (s : State) :
  0 < KeepLastNArchives cfg ->
  let r := cleanupOldCompressedLogs cfg s in
  (is_Some (result r) <-> faults (world s) (OpReadDir (DestFolder cfg)) = true)
  /\ (faults (world s) (OpReadDir (DestFolder cfg)) = true ->
      final r = s /\ events r = [EvReadDir (DestFolder cfg)]).
Proof.
  intros HN. apply Z.ltb_lt in HN. cbv zeta.
  destruct (faults (world s) (OpReadDir (DestFolder cfg))) eqn:Ef.
  - assert (E : cleanupOldCompressedLogs cfg s
                = (Some ("open " +:+ DestFolder cfg), s, [EvReadDir (DestFolder cfg)])).
    { unfold cleanupOldCompressedLogs. rewrite HN. unfold bind.
      rewrite (os_ReadDir_fails _ _ Ef). reflexivity. }
    rewrite E. unfold result, final, events. cbn [fst snd]. split; [|auto].
    split; [intros _; reflexivity|intros _; eauto].
  - split; [|discriminate]. unfold cleanupOldCompressedLogs. rewrite HN.
    unfold bind at 1. rewrite (os_ReadDir_ok _ _ Ef). unfold bind.
    destruct (collect_archives cfg _ [] s) as [[found s1] e1].
    destruct (remove_beyond cfg _ 0 s1) as [[b s2] e2].
    unfold result, ret. cbn [fst snd].
    split; [intros [x Hx]; discriminate|discriminate].
Qed.

(** ** Archive builder, continued *)

Lemma result_os_Open p s :
  result (os_Open p s)
  = if faults (world s) (OpOpen p) then Some ("open " +:+ p)
    else match files (world s) !! p with
         | Some _ => None
         | None => Some ("open " +:+ p +:+ ": no such file")
         end.
Proof. reflexivity. Qed.

Lemma result_zip_Create p s :
  result (zip_Create p s)
  = if faults (world s) (OpZipCreate p) then Some "zip: write error" else None.
Proof. reflexivity. Qed.

Lemma result_io_Copy p s :
  result (io_Copy p s)
  = if faults (world s) (OpCopy p) then (partial (world s) p, Some "copy failed")
    else (default 0 (f_size <$> files (world s) !! p), None).
Proof. reflexivity. Qed.

Ltac loop_step IH :=
  rewrite !result_bind, !final_bind;
  cbn [Printf mu_Lock emit stats_write mu_Unlock final fst snd];
  match goal with |- context [addFilesToZip_loop _ _ ?d ?a ?s'] =>
    destruct (IH d a s') as [-> ->] end;
  cbn [world stats]; rewrite <- ?app_assoc; auto.

Lemma addFilesToZip_loop_run destPath l : forall dir added s,
  let r := addFilesToZip_loop destPath l dir added s in
  result r = (dir ++ omap (entry_of (world s)) l,
              added ++ map Path (List.filter (is_embedded (world s)) l))
  /\ final r = mkState (world s) (foldl (account (world s)) (stats s) l).
Proof.
  induction l as [|lf l IH]; intros dir added s; cbv zeta; cbn [addFilesToZip_loop].
  - unfold result, final, ret. cbn. rewrite !app_nil_r. destruct s; auto.
  - rewrite omap_cons_eq. cbn [List.filter map foldl].
    unfold entry_of at 1, is_embedded at 1, account at 2, fate.
    rewrite bind_silent by auto with run. rewrite result_os_Open.
    destruct (faults (world s) (OpOpen (Path lf))); [loop_step IH|].
    destruct (files (world s) !! Path lf) as [fi|] eqn:Ef; [|loop_step IH].
    rewrite bind_silent by auto with run. rewrite result_zip_Create.
    destruct (faults (world s) (OpZipCreate (Path lf))); [loop_step IH|].
    rewrite bind_silent by auto with run. rewrite result_io_Copy, Ef.
    cbn [fmap option_fmap option_map default from_option id].
    destruct (faults (world s) (OpCopy (Path lf))); loop_step IH.
Qed.

Lemma addFilesToZip_run l destPath s :
  let w := world s in
  let dir := omap (entry_of w) l in
  let st := foldl (account w) (stats s) l in
  let r := addFilesToZip l destPath s in
  fst (result r) = map Path (List.filter (is_embedded w) l)
  /\ (if faults w (OpZipClose destPath)
      then snd (result r) = Some "closing zip writer: zip: write error"
           /\ final r = mkState w st
      else snd (result r) = None
           /\ final r = mkState (set_files (insert destPath
                           (mkFile (packed w dir) (now w) false (Some dir))) w) st).
Proof.
  cbv zeta. unfold addFilesToZip. rewrite result_bind, final_bind.
  destruct (addFilesToZip_loop_run destPath l [] [] s) as [-> ->].
  cbn [app]. cbv beta iota. rewrite result_bind, final_bind.
  unfold zip_Close. rewrite bind_silent by auto with run.
  cbn [fails result fst world].
  destruct (faults (world s) (OpZipClose destPath)).
  - unfold result, final, ret. cbn [fst snd]. auto.
  - unfold bind, time_Now, get_world, modify_world, ret, result, final.
    cbn [fst snd world stats]. auto.
Qed.

Lemma account_errors w l : forall st,
  exists errs,
    Errors (foldl (account w) st l) = Errors st ++ errs
    /\ (length (List.filter (is_embedded w) l) + length errs = length l)%nat.
Proof.
  induction l as [|lf l IH]; intros st; cbn [foldl List.filter].
  - exists []. rewrite app_nil_r. auto.
  - destruct (IH (account w st lf)) as (errs & -> & Hlen).
    assert (He : is_embedded w lf = match fate w lf with Embedded _ => true | _ => false end)
      by reflexivity.
    rewrite He. clear He. unfold account.
    destruct (fate w lf) as [e|e|n e|n]; cbn [Errors append_error add_TotalSizeBefore
      incr_FilesCompressed incr_FilesProcessed length].
    + exists (("open " +:+ Path lf +:+ ": " +:+ e) :: errs).
      rewrite <- app_assoc. split; [reflexivity|]. cbn [length]. lia.
    + exists (("zip entry " +:+ Path lf +:+ ": " +:+ e) :: errs).
      rewrite <- app_assoc. split; [reflexivity|]. cbn [length]. lia.
    + exists (("zip copy " +:+ Path lf +:+ ": " +:+ e) :: errs).
      rewrite <- app_assoc. split; [reflexivity|]. cbn [length]. lia.
    + exists errs. split; [reflexivity|lia].
Qed.

Lemma is_embedded_spec w lf :
  is_embedded w lf = true <->
  faults w (OpOpen (Path lf)) = false /\ is_Some (files w !! Path lf)
  /\ faults w (OpZipCreate (Path lf)) = false /\ faults w (OpCopy (Path lf)) = false.
Proof.
  unfold is_embedded, fate.
  destruct (faults w (OpOpen (Path lf))); [split; [discriminate|intros [? _]; discriminate]|].
  destruct (files w !! Path lf) as [fi|];
    [|split; [discriminate|intros (_ & [x Hx] & _); discriminate]].
  destruct (faults w (OpZipCreate (Path lf)));
    [split; [discriminate|intros (_ & _ & ? & _); discriminate]|].
  destruct (faults w (OpCopy (Path lf)));
    [split; [discriminate|intros (_ & _ & _ & ?); discriminate]|].
  split; eauto.
Qed.

(** X12. [addFilesToZip] reports as added, in the order of the group,
    exactly the members whose file could be opened, whose entry could
    be created and whose content could be copied; for every other
    member it appends one error to the statistics, so that added paths
    and new errors together are as many as the members.  This holds
    also when the zip writer then fails to close. *)
Theorem addFilesToZip_accounts (l : list LogFile) (destPath : string) (s : State) :
  let r := addFilesToZip l destPath s in
  fst (result r) = map Path (List.filter (is_embedded (world s)) l)
  /\ (forall lf, In (Path lf) (fst (result r)) ->
        exists lf', In lf' l /\ Path lf' = Path lf /\ is_embedded (world s) lf' = true)
  /\ exists errs,
       Errors (stats (final r)) = Errors (stats s) ++ errs
       /\ (length (fst (result r)) + length errs = length l)%nat.
Proof.
  cbv zeta. destruct (addFilesToZip_run l destPath s) as [Ha Hb]. rewrite Ha.
  split; [reflexivity|]. split.
  - intros lf Hin. apply in_map_iff in Hin. destruct Hin as (lf' & Hp & Hin).
    apply filter_In in Hin. destruct Hin as [Hin He]. eauto.
  - destruct (account_errors (world s) l (stats s)) as (errs & He & Hlen).
    exists errs. rewrite length_map.
    destruct (faults (world s) (OpZipClose destPath)); destruct Hb as [_ ->];
      cbn [stats]; auto.
Qed.

Lemma entry_of_In w l e :
  In e (omap (entry_of w) l) -> exists lf, In lf l /\ Name e = Str.Base (Path lf).
Proof.
  rewrite <- list_elem_of_In, list_elem_of_omap. intros (lf & Hin & He).
  exists lf. split; [apply list_elem_of_In, Hin|].
  unfold entry_of in He. destruct (fate w lf); try discriminate; injection He as <-;
    reflexivity.
Qed.

Lemma addFilesToZip_writes (l : list LogFile) (destPath : string) (s : State) :
  let r := addFilesToZip l destPath s in
  (snd (result r) = None ->
     exists dir f,
       files (world (final r)) !! destPath = Some f
       /\ f_zip f = Some dir /\ f_isDir f = false /\ f_mod f = now (world s)
       /\ (forall lf, In lf l -> is_embedded (world s) lf = true ->
             exists fi, files (world s) !! Path lf = Some fi
               /\ In (mkZipEntry (Str.Base (Path lf)) (f_size fi)) dir)
       /\ (forall e, In e dir -> exists lf, In lf l /\ Name e = Str.Base (Path lf))
       /\ forall q, q <> destPath ->
            files (world (final r)) !! q = files (world s) !! q)
  /\ (snd (result r) <> None -> world (final r) = world s).
Proof.
  cbv zeta. destruct (addFilesToZip_run l destPath s) as [_ Hb].
  destruct (faults (world s) (OpZipClose destPath)); destruct Hb as [-> ->].
  { split; [discriminate|reflexivity]. }
  split; [|congruence]. intros _.
  exists (omap (entry_of (world s)) l). eexists.
  cbn [world set_files files]. split; [apply lookup_insert_eq|].
  cbn [f_zip f_isDir f_mod]. repeat split.
  - intros lf Hin He. unfold is_embedded in He.
    destruct (fate (world s) lf) as [| | |n] eqn:Ef; try discriminate.
    assert (Hentry : entry_of (world s) lf = Some (mkZipEntry (Str.Base (Path lf)) n)).
    { unfold entry_of. rewrite Ef. reflexivity. }
    unfold fate in Ef. destruct (faults (world s) (OpOpen (Path lf))); [discriminate|].
    destruct (files (world s) !! Path lf) as [fi|]; [|discriminate].
    destruct (faults (world s) (OpZipCreate (Path lf))); [discriminate|].
    destruct (faults (world s) (OpCopy (Path lf))); [discriminate|].
    injection Ef as <-. exists fi. split; [reflexivity|].
    apply list_elem_of_In, list_elem_of_omap. exists lf.
    split; [apply list_elem_of_In, Hin|exact Hentry].
  - apply entry_of_In.
  - intros q Hq. apply lookup_insert_ne. congruence.
Qed.

(** X13. When [addFilesToZip] returns no error, the container holds,
    for every path it reports as added other than the container's own,
    an entry under the base name of the path whose uncompressed size is
    the size of the file, and every entry of the container is named
    after a member of the group.  Whether it returns an error or not,
    no file but the container has changed. *)
Theorem addFilesToZip_container (l : list LogFile) (destPath : string) (s : State) :
  let r := addFilesToZip l destPath s in
  (snd (result r) = None ->
     exists dir f,
       files (world (final r)) !! destPath = Some f
       /\ f_zip f = Some dir /\ f_isDir f = false /\ f_mod f = now (world s)
       /\ (forall lf, In lf l -> Path lf <> destPath -> is_embedded (world s) lf = true ->
             exists fi, files (world s) !! Path lf = Some fi
               /\ In (mkZipEntry (Str.Base (Path lf)) (f_size fi)) dir)
       /\ (forall e, In e dir -> exists lf, In lf l /\ Name e = Str.Base (Path lf)))
  /\ (forall q, q <> destPath ->
        files (world (final r)) !! q = files (world s) !! q).
Proof.
  cbv zeta. destruct (addFilesToZip_writes l destPath s) as [Hok Hfail]. split.
  - intros Hnone. destruct (Hok Hnone) as (dir & f & H1 & H2 & H3 & H4 & H5 & H6 & _).
    exists dir, f. repeat split; try assumption. intros lf Hin _. apply H5, Hin.
  - intros q Hq. destruct (snd (result (addFilesToZip l destPath s))) as [e|] eqn:E.
    + rewrite Hfail by discriminate. reflexivity.
    + destruct (Hok eq_refl) as (dir & f & _ & _ & _ & _ & _ & _ & H7). apply H7, Hq.
Qed.

Lemma loadConfig_normalises_witness : normal Extra.cfg_loaded.
Proof.
  exact (proj1 (loadConfig_normalises Extra.cfg_raw Extra.cfg_loaded eq_refl)).
Defined.

Lemma loadConfig_idempotent_witness :
  loadConfig_validate Extra.cfg_loaded = inl Extra.cfg_loaded.
Proof.
  exact (proj1 (loadConfig_idempotent Extra.cfg_raw Extra.cfg_loaded) eq_refl).
Defined.

Lemma group_files_covers_witness :
  exists g,
    group_files Sample.cfg Sample.january
      !! groupKeyForTime Sample.cfg (Time.date 2024 1 2) = Some g
    /\ In (mkLogFile Sample.site1_jan2 30 (Time.date 2024 1 2)) g.
Proof.
  apply (proj1 (group_files_covers Sample.cfg Sample.january)
           (mkLogFile Sample.site1_jan2 30 (Time.date 2024 1 2))).
  right. right. left. reflexivity.
Defined.

Lemma findLogFiles_selects_witness :
  In (mkLogFile Sample.site1_jan1 10 (Time.date 2024 1 1))
     (fst (result (findLogFiles Sample.cfg Sample.start))).
Proof.
  apply (proj2 (proj2 (findLogFiles_selects Sample.cfg Sample.start)) eq_refl).
  exists (mkWalkEntry Sample.site1_jan1 (Sample.log 1 10) None).
  split; [right; left; reflexivity|]. split; [reflexivity|].
  split; [vm_compute; discriminate|]. split; reflexivity.
Defined.

Lemma findLogFiles_fails_fast_witness :
  snd (result (findLogFiles Sample.cfg Extra.broken)) = Some "access denied".
Proof.
  apply (findLogFiles_fails_fast Sample.cfg Extra.broken "access denied").
  exists [mkWalkEntry "C:\logs" (mkFile 0 0 true None) None;
          mkWalkEntry Sample.site1_jan1 (Sample.log 1 10) None],
         (mkWalkEntry "C:\logs\W3SVC2" (mkFile 0 0 true None) (Some "access denied")),
         [mkWalkEntry Sample.site2_jan1 (Sample.log 1 20) None].
  split; [reflexivity|]. split; [reflexivity|]. repeat constructor.
Defined.

Lemma deleteWithRetry_outcome_witness :
  result (deleteWithRetry Archive.nov 3 500 Archive.locked) = None
  /\ files (world (final (deleteWithRetry Archive.nov 3 500 Archive.locked)))
       !! Archive.nov = None
  /\ events (deleteWithRetry Archive.nov 3 500 Archive.locked)
     = concat (replicate (lock_count Archive.locked Archive.nov)
                 (failed_attempt Archive.nov 500))
       ++ [EvRemove Archive.nov true].
Proof.
  refine (proj1 (deleteWithRetry_outcome Archive.nov 3 500 Archive.locked
                   (Archive.file 2023 12 1) _ _) _).
  - vm_compute. reflexivity.
  - lia.
  - vm_compute. lia.
Defined.

Lemma deleteWithRetry_missing_witness :
  deleteWithRetry "C:\archive\ghost.zip" 3 500 Archive.start
  = (Some "remove C:\archive\ghost.zip: no such file", Archive.start,
     concat (replicate 3 (failed_attempt "C:\archive\ghost.zip" 500))).
Proof.
  apply (deleteWithRetry_missing "C:\archive\ghost.zip" 3 500 Archive.start);
    vm_compute; reflexivity.
Defined.

Lemma keep_last_n_removes_oldest_witness :
  exists sorted,
    Permutation sorted
      (result (collect_archives Archive.cfg_keep
                 (readdir (world Archive.start) (DestFolder Archive.cfg_keep)) []
                 Archive.start))
    /\ Sorted newer_first sorted
    /\ omap removed_path (events (cleanupOldCompressedLogs Archive.cfg_keep Archive.start))
       = map fst (drop (Z.to_nat (KeepLastNArchives Archive.cfg_keep)) sorted)
    /\ length (omap removed_path
                 (events (cleanupOldCompressedLogs Archive.cfg_keep Archive.start)))
       = (length (result (collect_archives Archive.cfg_keep
                            (readdir (world Archive.start) (DestFolder Archive.cfg_keep)) []
                            Archive.start))
          - Z.to_nat (KeepLastNArchives Archive.cfg_keep))%nat.
Proof.
  apply (keep_last_n_removes_oldest Archive.cfg_keep Archive.start); reflexivity.
Defined.

Lemma keep_last_n_reports_listing_only_witness :
  is_Some (result (cleanupOldCompressedLogs Archive.cfg_keep Archive.start))
  <-> faults (world Archive.start) (OpReadDir (DestFolder Archive.cfg_keep)) = true.
Proof.
  exact (proj1 (keep_last_n_reports_listing_only Archive.cfg_keep Archive.start eq_refl)).
Defined.

Lemma addFilesToZip_accounts_witness :
  exists lf', In lf' Sample.january
    /\ Path lf' = Sample.site2_jan1
    /\ is_embedded (world Extra.created) lf' = true.
Proof.
  apply (proj1 (proj2 (addFilesToZip_accounts Sample.january Sample.zipPath Extra.created))
           (mkLogFile Sample.site2_jan1 20 (Time.date 2024 1 1))).
  vm_compute. tauto.
Defined.

Lemma addFilesToZip_container_witness :
  exists dir f,
    files (world (final (addFilesToZip Sample.january Sample.zipPath Extra.created)))
      !! Sample.zipPath = Some f
    /\ f_zip f = Some dir /\ f_isDir f = false /\ f_mod f = now (world Extra.created)
    /\ (forall lf, In lf Sample.january -> Path lf <> Sample.zipPath ->
          is_embedded (world Extra.created) lf = true ->
          exists fi, files (world Extra.created) !! Path lf = Some fi
            /\ In (mkZipEntry (Str.Base (Path lf)) (f_size fi)) dir)
    /\ (forall e, In e dir -> exists lf, In lf Sample.january /\ Name e = Str.Base (Path lf)).
Proof.
  apply (proj1 (addFilesToZip_container Sample.january Sample.zipPath Extra.created)).
  vm_compute. reflexivity.
Defined.

(** ** Integrity verifier, continued *)

Lemma zip_OpenReader_result p s :
  result (zip_OpenReader p s)
  = if faults (world s) (OpOpenReader p) then inr ("open " +:+ p)
    else match files (world s) !! p with
         | Some f => match f_zip f with
                     | Some dir => inl dir
                     | None => inr "zip: not a valid zip file"
                     end
         | None => inr ("open " +:+ p +:+ ": no such file")
         end.
Proof. reflexivity. Qed.

Lemma verifyZipContainsAll_run zipPath added s :
  verifyZipContainsAll zipPath added s
  = match result (zip_OpenReader zipPath s) with
    | inl dir =>
        (foldl (fun r p => <[p := verdict (world s) (entry_sizes dir) p]> r) ∅ added,
         s, [EvOpenReader zipPath])
    | inr e =>
        (mark_unverified added,
         mkState (world s)
           (append_error ("verify open zip " +:+ zipPath +:+ ": " +:+ e) (stats s)),
         [EvOpenReader zipPath; EvWrite])
    end.
Proof.
  unfold verifyZipContainsAll. unfold bind at 1.
  assert (E : zip_OpenReader zipPath s
              = (result (zip_OpenReader zipPath s), s, [EvOpenReader zipPath])).
  { unfold zip_OpenReader, bind, emit, fails, get_world, ret, result. reflexivity. }
  rewrite E at 1. destruct (result (zip_OpenReader zipPath s)) as [dir|e].
  - rewrite verify_loop_run. reflexivity.
  - reflexivity.
Qed.

(** X14. The verifier changes no file.  When the container opens it
    changes nothing at all; when it does not, its only effect is one
    error appended to the statistics. *)
Theorem verifier_reads_only (zipPath : string) (added : list string) (s : State) :
  let r := verifyZipContainsAll zipPath added s in
  world (final r) = world s
  /\ (forall dir, result (zip_OpenReader zipPath s) = inl dir -> final r = s)
  /\ (forall e, result (zip_OpenReader zipPath s) = inr e ->
        stats (final r)
        = append_error ("verify open zip " +:+ zipPath +:+ ": " +:+ e) (stats s)).
Proof.
  cbv zeta. rewrite verifyZipContainsAll_run.
  destruct (result (zip_OpenReader zipPath s)) as [dir|e]; unfold final; cbn [fst snd].
  - split; [reflexivity|]. split; [reflexivity|discriminate].
  - split; [reflexivity|]. split; [discriminate|]. intros e' [= <-]. reflexivity.
Qed.

Lemma entry_names_sublist w l :
  sublist (map Name (omap (entry_of w) l)) (map (fun lf => Str.Base (Path lf)) l).
Proof.
  induction l as [|lf l IH]; [constructor|].
  rewrite omap_cons_eq. cbn [map]. unfold entry_of at 1.
  destruct (fate w lf); cbn [map Name]; try (apply sublist_cons; exact IH);
    apply sublist_skip; exact IH.
Qed.

Lemma verify_distinct_names (cfg : Config) (l : list LogFile) (s : State) :
  NoDup (map (fun lf => Str.Base (Path lf)) l) ->
  ~ In (container_path cfg l) (map Path l) ->
  sizes_in_range (world s) ->
  snd (result (built cfg l s)) = None ->
  faults (world s) (OpOpenReader (container_path cfg l)) = false ->
  (forall lf, In lf l -> faults (world s) (OpStat (Path lf)) = false) ->
  forall p, In p (fst (result (built cfg l s))) ->
    verification cfg l s !! p = Some true.
Proof.
  intros Hnd Hdest Hsz Hok Hopen Hstat p Hp.
  set (dest := container_path cfg l) in *.
  set (s1 := final (os_Create dest s)).
  assert (Hf1 : faults (world s1) = faults (world s)).
  { subst s1. unfold os_Create, bind, fails, time_Now, modify_world, ret, final.
    destruct (faults (world s) (OpCreate dest)); reflexivity. }
  assert (Hfiles1 : forall q, q <> dest -> files (world s1) !! q = files (world s) !! q).
  { intros q Hq. subst s1.
    unfold os_Create, bind, fails, time_Now, modify_world, ret, final.
    destruct (faults (world s) (OpCreate dest)); cbn [fst snd world set_files files];
      [reflexivity|]. apply lookup_insert_ne. congruence. }
  unfold verification, built in *. fold dest s1 in Hok, Hp |- *.
  destruct (addFilesToZip_run l dest s1) as [Ha Hb].
  rewrite Hf1 in Hb.
  destruct (faults (world s) (OpZipClose dest)); destruct Hb as [Hr Hfin];
    [rewrite Hr in Hok; discriminate|].
  rewrite Ha in Hp |- *. rewrite Hfin. clear Hr Hfin Ha Hok.
  set (dir := omap (entry_of (world s1)) l).
  set (s2 := mkState _ _).
  apply in_map_iff in Hp. destruct Hp as (lf & <- & Hlf).
  apply filter_In in Hlf. destruct Hlf as [Hin Hemb].
  assert (Hne : Path lf <> dest).
  { intros E. apply Hdest. rewrite <- E. apply in_map, Hin. }
  rewrite verifyZipContainsAll_run, zip_OpenReader_result.
  assert (Hf2 : faults (world s2) = faults (world s)) by (subst s2; exact Hf1).
  rewrite Hf2, Hopen. subst s2. cbn [world set_files files]. rewrite lookup_insert_eq.
  cbn [f_zip]. unfold result. cbn [fst].
  rewrite foldl_insert_lookup, lookup_empty.
  rewrite decide_True.
  2:{ apply list_elem_of_In, in_map_iff. exists lf. split; [reflexivity|].
      apply filter_In. auto. }
  f_equal. unfold verdict, stat_of. cbn [world set_files files faults].
  rewrite Hf1, (Hstat lf Hin), lookup_insert_ne by congruence.
  unfold is_embedded in Hemb. destruct (fate (world s1) lf) as [| | |n] eqn:Ef;
    try discriminate.
  assert (Hentry : entry_of (world s1) lf = Some (mkZipEntry (Str.Base (Path lf)) n)).
  { unfold entry_of. rewrite Ef. reflexivity. }
  unfold fate in Ef. destruct (faults (world s1) (OpOpen (Path lf))); [discriminate|].
  destruct (files (world s1) !! Path lf) as [fi|] eqn:Efi; [|discriminate].
  destruct (faults (world s1) (OpZipCreate (Path lf))); [discriminate|].
  destruct (faults (world s1) (OpCopy (Path lf))); [discriminate|].
  injection Ef as <-.
  rewrite entry_sizes_lookup.
  assert (Hlast : last_named (Str.Base (Path lf)) dir = Some (f_size fi)).
  { apply (last_named_unique dir (mkZipEntry (Str.Base (Path lf)) (f_size fi))).
    - eapply sublist_NoDup; [exact Hnd|apply entry_names_sublist].
    - apply list_elem_of_In, list_elem_of_omap. exists lf.
      split; [apply list_elem_of_In, Hin|exact Hentry]. }
  rewrite Hlast. apply Z.eqb_eq.
  assert (Hrange : 0 <= f_size fi < 2 ^ 63).
  { rewrite Hfiles1 in Efi by exact Hne. exact (Hsz _ _ Efi). }
  apply int64_of_uint64_eq; lia.
Qed.

(** X15. Round trip of a group.  If the members of a group have
    pairwise distinct base names, none of them is the container
    itself, the container could be written and can be reopened, and
    the members can be stat-ed, then every path reported as added is
    verified. *)
Theorem distinct_names_verify (cfg : Config) (l : list LogFile) (s : State) :
  NoDup (map (fun lf => Str.Base (Path lf)) l) ->
  ~ In (container_path cfg l) (map Path l) ->
  sizes_in_range (world s) ->
  snd (result (built cfg l s)) = None ->
  faults (world s) (OpOpenReader (container_path cfg l)) = false ->
  (forall lf, In lf l -> faults (world s) (OpStat (Path lf)) = false) ->
  forall p, In p (fst (result (built cfg l s))) ->
    verification cfg l s !! p = Some true.
Proof. exact (verify_distinct_names cfg l s). Qed.

Lemma distinct_names_verify_witness :
  verification Sample.cfg Extra.site1 Sample.start !! Sample.site1_jan2 = Some true.
Proof.
  refine (distinct_names_verify Sample.cfg Extra.site1 Sample.start _ _ _ _ _ _
            Sample.site1_jan2 _).
  - apply (bool_decide_unpack _). vm_compute. exact I.
  - vm_compute. intros [H|[H|[]]]; discriminate H.
  - unfold sizes_in_range. apply (bool_decide_unpack _). vm_compute. exact I.
  - vm_compute. reflexivity.
  - reflexivity.
  - intros lf _. reflexivity.
  - vm_compute. tauto.
Defined.

(** ** Round trip of a group *)

Lemma os_Create_ok p s :
  faults (world s) (OpCreate p) = false ->
  os_Create p s
  = (None,
     mkState (set_files (insert p (mkFile 0 (now (world s)) false None)) (world s))
             (stats s), []).
Proof.
  intros H. unfold os_Create, bind, fails, time_Now, modify_world, ret. rewrite H.
  reflexivity.
Qed.

Lemma deleteWithRetry_free path k delay s f :
  lock_count s path = 0%nat -> files (world s) !! path = Some f ->
  deleteWithRetry path (S k) delay s
  = (None, mkState (set_files (delete path) (world s)) (stats s), [EvRemove path true]).
Proof.
  intros Hl Hf. unfold deleteWithRetry. cbn [deleteWithRetry_from]. unfold bind.
  rewrite (os_Remove_free path s f Hl Hf). reflexivity.
Qed.

Lemma delete_verified_all (L : list (string * bool)) : forall s,
  NoDup (map fst L) ->
  (forall p b, In (p, b) L ->
     b = true /\ is_Some (files (world s) !! p) /\ lock_count s p = 0%nat) ->
  let r := delete_verified L s in
  (forall p b, In (p, b) L -> files (world (final r)) !! p = None)
  /\ (forall q, ~ In q (map fst L) -> files (world (final r)) !! q = files (world s) !! q)
  /\ stats (final r) = stats s
  /\ events r = map (fun pb => EvRemove (fst pb) true) L.
Proof.
  induction L as [|[path ok] L IH]; intros s Hnd HL; cbv zeta.
  - unfold final, events, ret. cbn. repeat split; auto. intros p b [].
  - cbn [map fst] in Hnd. apply NoDup_cons in Hnd. destruct Hnd as [Hnot Hnd].
    destruct (HL path ok (or_introl eq_refl)) as (-> & [f Hf] & Hl).
    set (s1 := mkState (set_files (delete path) (world s)) (stats s)).
    assert (Estep : delete_verified ((path, true) :: L) s
                    = (let '(u, s2, e2) := delete_verified L s1 in
                       (u, s2, EvRemove path true :: e2))).
    { cbn [delete_verified]. unfold bind.
      rewrite (deleteWithRetry_free path 2 500 s f Hl Hf). unfold ret. fold s1.
      destruct (delete_verified L s1) as [[u s2] e2]. reflexivity. }
    rewrite Estep. clear Estep.
    assert (HL1 : forall p b, In (p, b) L ->
              b = true /\ is_Some (files (world s1) !! p) /\ lock_count s1 p = 0%nat).
    { intros p b Hin. destruct (HL p b (or_intror Hin)) as (Hb & Hs & Hlk).
      split; [exact Hb|]. split; [|exact Hlk].
      subst s1. cbn [world set_files files]. rewrite lookup_delete_ne; [exact Hs|].
      intros ->. apply Hnot. apply list_elem_of_In.
      change p with (fst (p, b)). apply in_map, Hin. }
    specialize (IH s1 Hnd HL1). cbv zeta in IH.
    destruct (delete_verified L s1) as [[u s2] e2].
    unfold final, events in *. cbn [fst snd app map] in *.
    destruct IH as (IHa & IHb & IHc & IHd). repeat split.
    + intros p b [[= <- <-]|Hin]; [|eapply IHa, Hin].
      etransitivity; [apply IHb; rewrite <- list_elem_of_In; exact Hnot|].
      subst s1. cbn [world set_files files]. apply lookup_delete_eq.
    + intros q Hq. etransitivity; [apply IHb; intros H; apply Hq; right; exact H|].
      subst s1. cbn [world set_files files]. apply lookup_delete_ne.
      intros ->. apply Hq. left. reflexivity.
    + exact IHc.
    + rewrite IHd. reflexivity.
Qed.

Lemma all_embedded w l :
  (forall o, faults w o = false) ->
  (forall lf, In lf l -> is_Some (files w !! Path lf)) ->
  List.filter (is_embedded w) l = l.
Proof.
  intros Hf Hl. induction l as [|lf l IH]; [reflexivity|]. cbn [List.filter].
  assert (He : is_embedded w lf = true).
  { apply is_embedded_spec. rewrite !Hf. repeat split. apply Hl. left; reflexivity. }
  rewrite He, IH; [reflexivity|]. intros x Hx. apply Hl. right; exact Hx.
Qed.

(** The course of [compressMonthGroup] when the container is written
    and closed: the verifier, then the deletion loop. *)
Lemma compressMonthGroup_zip cfg groupKey first rest s :
  let l := first :: rest in
  let dest := container_path cfg l in
  Str.ToLower (CompressionType cfg) = "zip" ->
  result (os_Create dest s) = None ->
  snd (result (built cfg l s)) = None ->
  result (file_Close dest (final (built cfg l s))) = None ->
  let v := verifyZipContainsAll dest (fst (result (built cfg l s))) (final (built cfg l s)) in
  let d := (if DeleteOriginalAfterCompress cfg
            then delete_verified (map_to_list (result v))
            else ret tt) (final v) in
  result (compressMonthGroup cfg groupKey l s) = None
  /\ world (final (compressMonthGroup cfg groupKey l s)) = world (final d).
Proof.
  cbv zeta. intros Hk Hcreate Hok Hclose.
  unfold compressMonthGroup. fold (container_path cfg (first :: rest)).
  set (dest := container_path cfg (first :: rest)) in *.
  rewrite result_bind, final_bind, Hcreate. cbv beta iota.
  rewrite Hk, String.eqb_refl.
  rewrite result_bind, final_bind.
  change (addFilesToZip (first :: rest) dest (final (os_Create dest s)))
    with (built cfg (first :: rest) s).
  destruct (result (built cfg (first :: rest) s)) as [added err].
  cbn [snd fst] in *. subst err. cbv beta iota.
  rewrite !bind_silent by auto with run. rewrite Hclose.
  rewrite result_bind, final_bind.
  set (v := verifyZipContainsAll dest added (final (built cfg (first :: rest) s))).
  rewrite result_bind, final_bind.
  set (d := (if DeleteOriginalAfterCompress cfg
             then delete_verified (map_to_list (result v)) else ret tt) (final v)).
  rewrite !bind_silent by auto with run.
  destruct (result (os_Stat dest (final d))) as [fi|].
  - rewrite result_bind, final_bind. split; reflexivity.
  - split; reflexivity.
Qed.

(** X16. Round trip of a group with deletion.  In a file system where
    no call fails, for a non-empty group under zip compression whose
    members exist, are not locked, have pairwise distinct base names
    and are not the container: [compressMonthGroup] returns no error,
    the container holds one entry for each member, under its base name
    and with its size, every original is gone afterwards, and no other
    file has changed. *)
Theorem group_round_trip (cfg : Config) (groupKey : string) (l : list LogFile) (s : State) :
  l <> [] ->
  Str.ToLower (CompressionType cfg) = "zip" ->
  DeleteOriginalAfterCompress cfg = true ->
  (forall o, faults (world s) o = false) ->
  (forall lf, In lf l ->
     is_Some (files (world s) !! Path lf) /\ lock_count s (Path lf) = 0%nat) ->
  NoDup (map (fun lf => Str.Base (Path lf)) l) ->
  ~ In (container_path cfg l) (map Path l) ->
  sizes_in_range (world s) ->
  let r := compressMonthGroup cfg groupKey l s in
  result r = None
  /\ (forall lf, In lf l -> files (world (final r)) !! Path lf = None)
  /\ (exists f dir,
        files (world (final r)) !! container_path cfg l = Some f
        /\ f_zip f = Some dir
        /\ length dir = length l
        /\ forall lf fi, In lf l -> files (world s) !! Path lf = Some fi ->
             In (mkZipEntry (Str.Base (Path lf)) (f_size fi)) dir)
  /\ (forall q, q <> container_path cfg l -> ~ In q (map Path l) ->
        files (world (final r)) !! q = files (world s) !! q).
Proof.
  intros Hne Hk Hdel Hfaults Hmembers Hnd Hdest Hsz.
  destruct l as [|first rest]; [contradiction|]. clear Hne.
  set (l := first :: rest) in *. set (dest := container_path cfg l) in *.
  (* the container is created *)
  pose proof (os_Create_ok dest s (Hfaults _)) as Hcreate.
  set (s1 := mkState (set_files (insert dest (mkFile 0 (now (world s)) false None))
                        (world s)) (stats s)) in Hcreate.
  assert (Hfiles1 : forall q, q <> dest -> files (world s1) !! q = files (world s) !! q).
  { intros q Hq. subst s1. cbn [world set_files files]. apply lookup_insert_ne. congruence. }
  assert (Hpath : forall lf, In lf l -> Path lf <> dest).
  { intros lf Hin E. apply Hdest. rewrite <- E. apply in_map, Hin. }
  (* every member is embedded *)
  assert (Hall : List.filter (is_embedded (world s1)) l = l).
  { apply all_embedded; [exact Hfaults|]. intros lf Hin.
    rewrite Hfiles1 by (apply Hpath, Hin). apply Hmembers, Hin. }
  assert (Hbuilt : built cfg l s = addFilesToZip l dest s1).
  { unfold built. fold dest. rewrite Hcreate. reflexivity. }
  destruct (addFilesToZip_run l dest s1) as [Ha Hb].
  change (faults (world s1) (OpZipClose dest)) with (faults (world s) (OpZipClose dest)) in Hb.
  rewrite Hfaults in Hb. destruct Hb as [Hr Hfin]. rewrite Hall in Ha.
  set (dir := omap (entry_of (world s1)) l) in *.
  set (s2 := mkState _ _) in Hfin.
  (* the verifier marks every member *)
  assert (Hver : forall p, In p (map Path l) -> verification cfg l s !! p = Some true).
  { intros p Hp. apply verify_distinct_names; try assumption.
    - rewrite Hbuilt. exact Hr.
    - apply Hfaults.
    - intros lf _. apply Hfaults.
    - rewrite Hbuilt, Ha. exact Hp. }
  assert (Hv : verifyZipContainsAll dest (map Path l) s2
               = (verification cfg l s, s2, [EvOpenReader dest])).
  { assert (E : verification cfg l s = result (verifyZipContainsAll dest (map Path l) s2)).
    { unfold verification. fold dest. rewrite Hbuilt, Ha, Hfin. reflexivity. }
    rewrite E, verifyZipContainsAll_run, zip_OpenReader_result.
    change (faults (world s2)) with (faults (world s)). rewrite Hfaults.
    subst s2. cbn [world set_files files]. rewrite lookup_insert_eq. reflexivity. }
  assert (Hkeys : forall p b, verification cfg l s !! p = Some b ->
                    In p (map Path l) /\ b = true).
  { intros p b Hpb.
    assert (Hin : In p (map Path l)).
    { assert (E : verification cfg l s
                  = result (verifyZipContainsAll dest (map Path l) s2))
        by (rewrite Hv; reflexivity).
      rewrite E, verifyZipContainsAll_run in Hpb.
      destruct (result (zip_OpenReader dest s2)); unfold result in Hpb; cbn [fst] in Hpb.
      - rewrite foldl_insert_lookup, lookup_empty in Hpb.
        destruct (decide (p ∈ map Path l)) as [Hd|]; [|discriminate].
        apply list_elem_of_In, Hd.
      - unfold mark_unverified in Hpb.
        rewrite (foldl_insert_lookup (fun _ => false)), lookup_empty in Hpb.
        destruct (decide (p ∈ map Path l)) as [Hd|]; [|discriminate].
        apply list_elem_of_In, Hd. }
    split; [exact Hin|]. rewrite (Hver p Hin) in Hpb. congruence. }
  (* the deletion loop removes every member *)
  set (L := map_to_list (verification cfg l s)).
  assert (HL : forall p b, In (p, b) L ->
            b = true /\ is_Some (files (world s2) !! p) /\ lock_count s2 p = 0%nat).
  { intros p b Hin. apply list_elem_of_In, elem_of_map_to_list in Hin.
    destruct (Hkeys p b Hin) as [Hp ->]. split; [reflexivity|].
    apply in_map_iff in Hp. destruct Hp as (lf & <- & Hlf).
    split; [|apply Hmembers, Hlf].
    subst s2. cbn [world set_files files].
    rewrite lookup_insert_ne by (intros E; apply (Hpath lf Hlf); congruence).
    rewrite Hfiles1 by (apply Hpath, Hlf). apply Hmembers, Hlf. }
  destruct (delete_verified_all L s2 (NoDup_fst_map_to_list _) HL) as (Hgone & Hkept & _ & _).
  (* the whole task *)
  destruct (compressMonthGroup_zip cfg groupKey first rest s Hk) as [Hres Hworld].
  { fold l dest. rewrite Hcreate. reflexivity. }
  { fold l. rewrite Hbuilt. exact Hr. }
  { fold l dest. unfold file_Close, bind, fails, ret, result. cbn [fst].
    rewrite Hbuilt, Hfin. change (faults (world s2)) with (faults (world s)).
    rewrite Hfaults. reflexivity. }
  fold l dest in Hres, Hworld. rewrite Hbuilt, Ha, Hfin, Hv, Hdel in Hworld.
  unfold result at 1, final at 2 in Hworld. cbn [fst snd] in Hworld. fold L in Hworld.
  cbv zeta. rewrite Hworld. split; [exact Hres|].
  assert (HinL : forall lf, In lf l -> In (Path lf, true) L).
  { intros lf Hlf. apply list_elem_of_In, elem_of_map_to_list. apply Hver.
    apply in_map, Hlf. }
  assert (HnotL : forall q, ~ In q (map Path l) -> ~ In q (map fst L)).
  { intros q Hq Hin. apply Hq. apply in_map_iff in Hin. destruct Hin as ([p b] & <- & Hin).
    apply list_elem_of_In, elem_of_map_to_list in Hin. apply (Hkeys p b Hin). }
  split; [|split].
  - intros lf Hlf. eapply Hgone, HinL, Hlf.
  - exists (mkFile (packed (world s1) dir) (now (world s1)) false (Some dir)), dir.
    split.
    { rewrite Hkept by (apply HnotL, Hdest). subst s2. cbn [world set_files files].
      apply lookup_insert_eq. }
    split; [reflexivity|]. split.
    + subst dir. clear -Hall. revert Hall. generalize (world s1). intros w.
      induction l as [|lf l IH]; [reflexivity|]. cbn [List.filter]. rewrite omap_cons_eq.
      unfold is_embedded at 1, entry_of at 1.
      destruct (fate w lf) eqn:Ef; intros Hall.
      1-3: exfalso; assert (Hlen : (length (List.filter (is_embedded w) l) <= length l)%nat)
             by apply filter_length_le;
           rewrite Hall in Hlen; cbn [length] in Hlen; lia.
      injection Hall as Hall. cbn [length]. rewrite IH by exact Hall. reflexivity.
    + intros lf fi Hlf Hfi.
      destruct (proj1 (addFilesToZip_writes l dest s1)) as (dir' & f' & Hd1 & Hd2 & _ & _ & Hd5 & _).
      { exact Hr. }
      rewrite Hfin in Hd1. unfold s2 in Hd1. cbn [world set_files files] in Hd1.
      rewrite lookup_insert_eq in Hd1. injection Hd1 as <-. cbn [f_zip] in Hd2.
      injection Hd2 as <-.
      destruct (Hd5 lf Hlf) as (fi' & Hfi' & Hin').
      { rewrite <- Hall in Hlf. apply filter_In in Hlf. apply Hlf. }
      rewrite Hfiles1 in Hfi' by (apply Hpath, Hlf). rewrite Hfi in Hfi'.
      injection Hfi' as <-. exact Hin'.
  - intros q Hq1 Hq2. rewrite Hkept by (apply HnotL, Hq2). subst s2.
    cbn [world set_files files]. rewrite lookup_insert_ne by congruence.
    apply Hfiles1, Hq1.
Qed.

Lemma group_round_trip_witness :
  result (compressMonthGroup Sample.cfg "2024-01" Extra.site1 Sample.start) = None.
Proof.
  refine (proj1 (group_round_trip Sample.cfg "2024-01" Extra.site1 Sample.start
                   _ _ _ _ _ _ _ _)).
  - discriminate.
  - reflexivity.
  - reflexivity.
  - intros o. reflexivity.
  - intros lf [<-|[<-|[]]]; (split; [vm_compute; eauto|reflexivity]).
  - apply (bool_decide_unpack _). vm_compute. exact I.
  - vm_compute. intros [H|[H|[]]]; discriminate H.
  - unfold sizes_in_range. apply (bool_decide_unpack _). vm_compute. exact I.
Defined.

(** ** Failures of [processLogs] and of a group *)

Lemma bind_eq {A B} (m : M A) (k : A -> M B) s a s1 e1 :
  m s = (a, s1, e1) ->
  bind m k s = (let '(b, s2, e2) := k a s1 in (b, s2, e1 ++ e2)).
Proof. intros H. unfold bind. rewrite H. reflexivity. Qed.

Lemma os_MkdirAll_run p s :
  os_MkdirAll p s = (result (os_MkdirAll p s), final (os_MkdirAll p s), []).
Proof.
  destruct (os_MkdirAll_effect p s) as [He _]. unfold result, final, events in *.
  destruct (os_MkdirAll p s) as [[a s1] e]. cbn [fst snd] in *. subst e. reflexivity.
Qed.

(** The creation of directories changes nothing the scan looks at. *)
Lemma grown_fields chain s s' :
  grown chain s s' ->
  walk (world s') = walk (world s) /\ now (world s') = now (world s)
  /\ faults (world s') = faults (world s) /\ stats s' = stats s.
Proof. intros (Hs & (fs & ->) & _). auto. Qed.

Lemma findLogFiles_after_mkdir cfg chain s s' :
  grown chain s s' -> result (findLogFiles cfg s') = result (findLogFiles cfg s).
Proof.
  intros Hg. destruct (grown_fields _ _ _ Hg) as (Hw & Hn & _).
  rewrite !findLogFiles_run. unfold result, scan_cutoff. cbn [fst]. rewrite Hw, Hn.
  reflexivity.
Qed.

(** A path outside the chain holds what it held. *)
Lemma grown_lookup chain s s' q :
  grown chain s s' -> ~ In q chain -> files (world s') !! q = files (world s) !! q.
Proof.
  intros (_ & _ & Hk & Hn) Hq.
  destruct (files (world s) !! q) as [f|] eqn:E; [apply Hk, E|].
  destruct (files (world s') !! q) as [f|] eqn:E'; [|reflexivity].
  destruct (Hn q f E') as [H|(_ & _ & H)]; [congruence|contradiction].
Qed.

(** The course of [processLogs]. *)
Lemma processLogs_run cfg s :
  let m := os_MkdirAll (DestFolder cfg) s in
  let s1 := final m in
  let scan := result (findLogFiles cfg s1) in
  let groups := grouping cfg (now (world s1)) (fst scan) in
  let s2 := mkState (world s1) (set_GroupCount (Z.of_nat (size groups)) (stats s1)) in
  let tasks := run_tasks cfg (map_to_list groups) s2 in
  processLogs cfg s
  = match result m with
    | Some e => (Some ("failed to create destination folder: " +:+ e), s1, [])
    | None =>
        match snd scan with
        | Some e =>
            (Some ("failed to find log files: " +:+ e), s1, [EvWalk (SourceFolder cfg)])
        | None =>
            match fst scan with
            | [] =>
                (None, s1,
                 [EvWalk (SourceFolder cfg); EvPrint "No log files found matching criteria"])
            | _ :: _ =>
                (None, final tasks,
                 [EvWalk (SourceFolder cfg);
                  EvPrint ("Found " +:+ itoa (Z.of_nat (length (fst scan)))
                           +:+ " log files to process");
                  EvWrite] ++ events tasks)
            end
        end
    end.
Proof.
  cbv zeta. unfold processLogs.
  rewrite (bind_eq _ _ _ _ _ _ (os_MkdirAll_run (DestFolder cfg) s)).
  set (s1 := final (os_MkdirAll (DestFolder cfg) s)).
  destruct (result (os_MkdirAll (DestFolder cfg) s)) as [e|]; [reflexivity|].
  rewrite (bind_eq _ _ _ _ _ _ (findLogFiles_run cfg s1)).
  rewrite findLogFiles_run. unfold result. cbn [fst snd].
  destruct (snd (before_error (walk (world s1) (SourceFolder cfg)))) as [e|]; [reflexivity|].
  destruct (sort_Slice _ _) as [|lf logFiles]; [reflexivity|].
  unfold bind, Printf, emit, time_Now, stats_write, ret, final, events. cbn [fst snd world stats].
  destruct (run_tasks cfg _ _) as [[[] s3] e3]. cbn [fst snd app]. rewrite app_nil_r.
  reflexivity.
Qed.

(** X17. [processLogs] returns an error exactly when the destination
    folder cannot be created or the scan fails; then, and when the scan
    finds no file, it has done nothing but what [os.MkdirAll] did: no
    statistic and no file that existed has changed, and what was
    created are directories, the destination folder or folders above
    it.  The failure of a group is never returned. *)
Theorem processLogs_errors (cfg : Config) (s : State) :
  let r := processLogs cfg s in
  let m := os_MkdirAll (DestFolder cfg) s in
  (result r = None <-> result m = None /\ snd (result (findLogFiles cfg s)) = None)
  /\ (result r <> None -> final r = final m)
  /\ (result m = None -> fst (result (findLogFiles cfg s)) = [] -> final r = final m)
  /\ grown (mkdir_chain (String.length (DestFolder cfg)) (DestFolder cfg)) s (final m).
Proof.
  cbv zeta. destruct (os_MkdirAll_effect (DestFolder cfg) s) as [_ Hg].
  pose proof (processLogs_run cfg s) as E. cbv zeta in E.
  rewrite (findLogFiles_after_mkdir cfg _ _ _ Hg) in E. rewrite E. clear E.
  destruct (result (findLogFiles cfg s)) as [fl err].
  revert Hg. destruct (os_MkdirAll (DestFolder cfg) s) as [[rm s1] em].
  unfold result, final. cbn [fst snd]. intros Hg.
  destruct rm as [e|]; cbn [fst snd].
  { split; [|split; [reflexivity|split; [discriminate|exact Hg]]].
    split; [discriminate|]. intros [? _]; discriminate. }
  destruct err as [e|]; cbn [fst snd].
  { split; [|split; [reflexivity|split; [reflexivity|exact Hg]]].
    split; [discriminate|]. intros [_ ?]; discriminate. }
  destruct fl as [|lf fl]; cbn [fst snd].
  { split; [tauto|]. split; [reflexivity|]. split; [reflexivity|exact Hg]. }
  split; [tauto|]. split; [intros H; exfalso; apply H; reflexivity|].
  split; [discriminate|exact Hg].
Qed.

(** X18. Under a compression type other than zip a non-empty group
    always fails: the container is created and removed again, so that
    whatever file was at its path before is gone; nothing else changes,
    no other removal is attempted and no statistic is updated. *)
Theorem other_types_fail (cfg : Config) (groupKey : string) (l : list LogFile) (s : State) :
  l <> [] ->
  Str.ToLower (CompressionType cfg) <> "zip" ->
  faults (world s) (OpCreate (container_path cfg l)) = false ->
  lock_count s (container_path cfg l) = 0%nat ->
  let r := compressMonthGroup cfg groupKey l s in
  is_Some (result r)
  /\ files (world (final r)) = delete (container_path cfg l) (files (world s))
  /\ stats (final r) = stats s
  /\ events r = [EvRemove (container_path cfg l) true].
Proof.
  intros Hne Hk Hcreate Hlock. destruct l as [|first rest]; [contradiction|].
  cbv zeta. unfold compressMonthGroup. fold (container_path cfg (first :: rest)).
  set (dest := container_path cfg (first :: rest)) in *.
  rewrite (bind_eq _ _ _ _ _ _ (os_Create_ok dest s Hcreate)).
  set (s1 := mkState _ _).
  apply String.eqb_neq in Hk. rewrite Hk.
  assert (Hrm : os_Remove dest s1
                = (None, mkState (set_files (delete dest) (world s1)) (stats s1),
                   [EvRemove dest true])).
  { apply (os_Remove_free dest s1 (mkFile 0 (now (world s)) false None)).
    - exact Hlock.
    - subst s1. cbn [world set_files files]. apply lookup_insert_eq. }
  assert (Hfin : files (world (mkState (set_files (delete dest) (world s1)) (stats s1)))
                 = delete dest (files (world s))).
  { subst s1. cbn [world set_files files]. apply delete_insert_eq. }
  destruct (String.eqb _ "gzip");
    rewrite bind_silent by auto with run;
    rewrite (bind_eq _ _ _ _ _ _ Hrm);
    unfold ret, result, final, events; cbn [fst snd app];
    (split; [eauto|]); (split; [exact Hfin|]); split; reflexivity.
Qed.

Lemma other_types_fail_witness :
  events (compressMonthGroup Extra.cfg_gzip "2024-01" Sample.january Sample.start)
  = [EvRemove (container_path Extra.cfg_gzip Sample.january) true].
Proof.
  refine (proj2 (proj2 (proj2 (other_types_fail Extra.cfg_gzip "2024-01" Sample.january
                                 Sample.start _ _ _ _)))).
  - discriminate.
  - vm_compute. discriminate.
  - reflexivity.
  - reflexivity.
Defined.

Lemma account_counts w l : forall st,
  FilesProcessed (foldl (account w) st l)
  = Nat.iter (length (List.filter (is_embedded w) l)) incr (FilesProcessed st)
  /\ FilesCompressed (foldl (account w) st l)
     = Nat.iter (length (List.filter (is_embedded w) l)) incr (FilesCompressed st).
Proof.
  induction l as [|lf l IH]; intros st; cbn [foldl List.filter]; [auto|].
  destruct (IH (account w st lf)) as [-> ->].
  assert (He : is_embedded w lf = match fate w lf with Embedded _ => true | _ => false end)
    by reflexivity.
  rewrite He. unfold account. destruct (fate w lf); cbn [length]; auto.
  rewrite !Nat.iter_succ_r. auto.
Qed.

(** X19. When the zip writer cannot be closed the group fails and no
    original is touched, but the members already written stay counted:
    both file counters have advanced by the number of members that
    were embedded. *)
Theorem failed_close_still_counts (cfg : Config) (groupKey : string)
    (l : list LogFile) (s : State) :
  l <> [] ->
  Str.ToLower (CompressionType cfg) = "zip" ->
  faults (world s) (OpCreate (container_path cfg l)) = false ->
  faults (world s) (OpZipClose (container_path cfg l)) = true ->
  let r := compressMonthGroup cfg groupKey l s in
  let n := length (fst (result (built cfg l s))) in
  result r = Some "closing zip writer: zip: write error"
  /\ FilesProcessed (stats (final r)) = Nat.iter n incr (FilesProcessed (stats s))
  /\ FilesCompressed (stats (final r)) = Nat.iter n incr (FilesCompressed (stats s))
  /\ (forall q, q <> container_path cfg l ->
        files (world (final r)) !! q = files (world s) !! q).
Proof.
  intros Hne Hk Hcreate Hclose. destruct l as [|first rest]; [contradiction|].
  cbv zeta. set (dest := container_path cfg (first :: rest)) in *.
  remember (first :: rest) as l eqn:El.
  pose proof (os_Create_ok dest s Hcreate) as Hc. set (s1 := mkState _ _) in Hc.
  assert (Hbuilt : built cfg l s = addFilesToZip l dest s1).
  { unfold built. fold dest. rewrite Hc. reflexivity. }
  destruct (addFilesToZip_run l dest s1) as [Ha Hb].
  change (faults (world s1) (OpZipClose dest)) with (faults (world s) (OpZipClose dest)) in Hb.
  rewrite Hclose in Hb. destruct Hb as [Hr Hfin].
  destruct (account_counts (world s1) l (stats s1)) as [Hp Hq].
  rewrite Hbuilt, Ha, length_map.
  subst l. unfold compressMonthGroup.
  fold (container_path cfg (first :: rest)). fold dest.
  remember (first :: rest) as l eqn:El.
  rewrite (bind_eq _ _ _ _ _ _ Hc). rewrite Hk, String.eqb_refl.
  destruct (addFilesToZip l dest s1) as [[[added err] s2] ev] eqn:E2.
  unfold result, final in Ha, Hr, Hfin. cbn [fst snd] in Ha, Hr, Hfin. subst added err s2.
  rewrite (bind_eq _ _ _ _ _ _ E2). cbv iota.
  rewrite bind_silent by auto with run.
  set (s2 := mkState (world s1) (foldl (account (world s1)) (stats s1) l)).
  assert (Hfiles1 : forall q, q <> dest -> files (world s2) !! q = files (world s) !! q).
  { intros q Hq'. subst s2 s1. cbn [world set_files files]. apply lookup_insert_ne.
    congruence. }
  destruct (os_Remove_cases dest s2) as [E|(msg & s3 & E & Hf)];
    rewrite (bind_eq _ _ _ _ _ _ E); unfold ret, result, final; cbn [fst snd stats world].
  - split; [reflexivity|]. unfold s2 at 1 2. cbn [stats]. rewrite Hp, Hq. repeat split.
    intros q Hq'. cbn [set_files files]. rewrite lookup_delete_ne by congruence.
    apply Hfiles1, Hq'.
  - assert (Hs3 : stats s3 = stats s2).
    { unfold os_Remove in E. destruct (locks (world s2) !! dest) as [[|n]|];
        try destruct (files (world s2) !! dest); injection E as _ <-; reflexivity. }
    split; [reflexivity|]. rewrite Hs3. unfold s2 at 1 2. cbn [stats].
    rewrite Hp, Hq. repeat split. intros q Hq'. rewrite Hf. apply Hfiles1, Hq'.
Qed.

Lemma failed_close_still_counts_witness :
  result (compressMonthGroup Sample.cfg "2024-01" Sample.january Variants.unflushable)
  = Some "closing zip writer: zip: write error".
Proof.
  refine (proj1 (failed_close_still_counts Sample.cfg "2024-01" Sample.january
                   Variants.unflushable _ _ _ _)).
  - discriminate.
  - reflexivity.
  - reflexivity.
  - reflexivity.
Defined.

(** ** Names of containers *)

Lemma append_cons c a b : String c a +:+ b = String c (a +:+ b).
Proof. reflexivity. Qed.

Lemma append_assoc a b c : (a +:+ b) +:+ c = a +:+ (b +:+ c).
Proof.
  induction a as [|x a IH]; [reflexivity|].
  rewrite !append_cons, IH. reflexivity.
Qed.

Lemma ToLower_app a b : Str.ToLower (a +:+ b) = Str.ToLower a +:+ Str.ToLower b.
Proof.
  induction a as [|c a IH]; [reflexivity|].
  rewrite append_cons. simpl. rewrite IH, append_cons. reflexivity.
Qed.

Lemma rev_app_app a : forall b c,
  String.rev_app (a +:+ b) c = String.rev_app b (String.rev_app a c).
Proof.
  induction a as [|x a IH]; intros b c; [reflexivity|].
  rewrite append_cons. simpl. apply IH.
Qed.

Lemma rev_app_append a : forall c, String.rev_app a c = String.rev_app a "" +:+ c.
Proof.
  induction a as [|x a IH]; intros c; [reflexivity|]. simpl.
  rewrite (IH (String x c)), (IH (String x "")).
  rewrite append_assoc. reflexivity.
Qed.

Lemma prefix_append p x : String.prefix p (p +:+ x) = true.
Proof.
  induction p as [|c p IH]; [destruct x; reflexivity|]. rewrite append_cons. simpl.
  destruct (ascii_dec c c); [exact IH|contradiction].
Qed.

Lemma HasSuffix_append a suf : Str.HasSuffix (a +:+ suf) suf = true.
Proof.
  unfold Str.HasSuffix, String.rev. rewrite rev_app_app, (rev_app_append suf (String.rev_app a "")).
  apply prefix_append.
Qed.

(** X20. Whatever the pattern, the reference time and the configured
    compression type, the name [generateArchiveFileName] gives a
    container ends in [.zip] or [.gz], so that the test keep-last-N
    makes on the name of an entry holds of it; the extension is [.gz]
    exactly when the compression type reads [gzip]. *)
Theorem archive_names_are_recognised (cfg : Config) (ref : Time.t) :
  archive_name (generateArchiveFileName cfg ref) = true
  /\ (getCompressionExtension cfg = ".zip" \/ getCompressionExtension cfg = ".gz")
  /\ (getCompressionExtension cfg = ".gz"
      <-> Str.ToLower (CompressionType cfg) = "gzip").
Proof.
  assert (Hext : (getCompressionExtension cfg = ".zip"
                  /\ Str.ToLower (CompressionType cfg) <> "gzip")
                 \/ (getCompressionExtension cfg = ".gz"
                     /\ Str.ToLower (CompressionType cfg) = "gzip")).
  { unfold getCompressionExtension.
    destruct (String.eqb_spec (Str.ToLower (CompressionType cfg)) "zip") as [E|_].
    - left. split; [reflexivity|]. rewrite E. discriminate.
    - destruct (String.eqb_spec (Str.ToLower (CompressionType cfg)) "gzip"); auto. }
  split; [|split].
  - unfold generateArchiveFileName, archive_name.
    destruct Hext as [[-> _]|[-> _]]; rewrite ToLower_app;
      change (Str.ToLower ".zip") with ".zip"; change (Str.ToLower ".gz") with ".gz";
      rewrite HasSuffix_append; [reflexivity|apply orb_true_r].
  - destruct Hext as [[-> _]|[-> _]]; auto.
  - destruct Hext as [[-> Hn]|[-> Hy]]; split; try discriminate; tauto.
Qed.

Lemma ReplaceAll_absent s old new :
  Str.Contains s old = false -> Str.ReplaceAll s old new = s.
Proof.
  unfold Str.ReplaceAll. induction s as [|c s IH]; [reflexivity|].
  cbn [Str.Contains Str.replace_go]. intros H. apply orb_false_iff in H.
  destruct H as [Hp Hc]. rewrite Hp, IH by exact Hc. reflexivity.
Qed.

Lemma Contains_percent s t :
  Str.Contains s "%" = false -> Str.Contains s (String "%" t) = false.
Proof.
  induction s as [|c s IH]; cbn [Str.Contains]; intros H.
  - reflexivity.
  - apply orb_false_iff in H. destruct H as [Hp Hc]. rewrite IH by exact Hc.
    cbn [String.prefix] in *.
    destruct (ascii_dec "%" c); [destruct s; discriminate|reflexivity].
Qed.

(** X21. A pattern without any [%] is used as it is: every period gets
    the same container name, the pattern followed by the extension, so
    that all groups of a run write to one and the same container. *)
Theorem token_free_pattern (cfg : Config) :
  Str.Contains (DestFileNamePattern cfg) "%" = false ->
  (forall ref, generateArchiveFileName cfg ref
               = DestFileNamePattern cfg +:+ getCompressionExtension cfg)
  /\ (forall l1 l2, l1 <> [] -> l2 <> [] -> container_path cfg l1 = container_path cfg l2).
Proof.
  intros H.
  assert (Hname : forall ref, generateArchiveFileName cfg ref
                              = DestFileNamePattern cfg +:+ getCompressionExtension cfg).
  { intros ref. unfold generateArchiveFileName. f_equal.
    destruct (String.eqb _ "daily");
      repeat (rewrite (ReplaceAll_absent (DestFileNamePattern cfg))
                by (apply Contains_percent, H)); reflexivity. }
  split; [exact Hname|].
  intros [|f1 r1] [|f2 r2] H1 H2; try contradiction.
  unfold container_path. rewrite !Hname. reflexivity.
Qed.

Lemma token_free_pattern_witness :
  container_path Extra.cfg_fixed Sample.january = container_path Extra.cfg_fixed Extra.site1.
Proof.
  refine (proj2 (token_free_pattern Extra.cfg_fixed _) Sample.january Extra.site1 _ _).
  - reflexivity.
  - discriminate.
  - discriminate.
Defined.

(** ** Escaping of text for the HTML report *)

Lemma prefix_empty r : String.prefix "" r = true.
Proof. destruct r; reflexivity. Qed.

Lemma chars_append a b : chars (a +:+ b) = chars a ++ chars b.
Proof.
  induction a as [|c a IH]; [reflexivity|].
  rewrite append_cons. unfold chars in *. cbn [list_ascii_of_string]. rewrite IH. reflexivity.
Qed.

(** Replacing a single character works character by character. *)
Lemma ReplaceAll_char a new s :
  chars (Str.ReplaceAll s (String a "") new)
  = flat_map (fun c => if Ascii.eqb c a then chars new else [c]) (chars s).
Proof.
  unfold Str.ReplaceAll. induction s as [|c s IH]; [reflexivity|].
  cbn [Str.replace_go String.prefix String.length Nat.sub].
  change (chars (String c s)) with (c :: chars s). cbn [flat_map]. rewrite <- IH.
  rewrite prefix_empty. destruct (ascii_dec a c) as [->|Hn].
  - rewrite Ascii.eqb_refl, chars_append. reflexivity.
  - destruct (Ascii.eqb_spec c a) as [->|_]; [contradiction|reflexivity].
Qed.

(** X22. The text [htmlEscape] returns holds no [<] and no [>], and
    every other character of it is a character of the input or one of
    the entities [&amp;], [&lt;], [&gt;]. *)
Theorem htmlEscape_removes_markup (s : string) :
  ~ In "<"%char (chars (htmlEscape s))
  /\ ~ In ">"%char (chars (htmlEscape s))
  /\ forall c, In c (chars (htmlEscape s)) ->
       In c (chars s) \/ In c (chars "&amp;") \/ In c (chars "&lt;")
       \/ In c (chars "&gt;").
Proof.
  unfold htmlEscape. rewrite !ReplaceAll_char.
  set (f1 := fun c : ascii => if Ascii.eqb c "&" then chars "&amp;" else [c]).
  set (f2 := fun c : ascii => if Ascii.eqb c "<" then chars "&lt;" else [c]).
  set (f3 := fun c : ascii => if Ascii.eqb c ">" then chars "&gt;" else [c]).
  assert (H3 : forall c x, In c (f3 x) -> c <> ">"%char /\ (c = x \/ In c (chars "&gt;"))).
  { intros c x. unfold f3. destruct (Ascii.eqb_spec x ">") as [->|Hx].
    - intros H. split; [|right; exact H].
      cbn in H. intuition (subst; discriminate).
    - intros [<-|[]]. auto. }
  assert (H2 : forall c x, In c (f2 x) -> c <> "<"%char /\ (c = x \/ In c (chars "&lt;"))).
  { intros c x. unfold f2. destruct (Ascii.eqb_spec x "<") as [->|Hx].
    - intros H. split; [|right; exact H].
      cbn in H. intuition (subst; discriminate).
    - intros [<-|[]]. auto. }
  assert (H1 : forall c x, In c (f1 x) -> c = x \/ In c (chars "&amp;")).
  { intros c x. unfold f1. destruct (Ascii.eqb x "&"); [auto|]. intros [<-|[]]. auto. }
  split; [|split].
  - intros H. apply in_flat_map in H. destruct H as (x & Hx & Hc).
    destruct (H3 _ _ Hc) as [_ [<-|Hin]].
    + apply in_flat_map in Hx. destruct Hx as (y & _ & Hy).
      destruct (H2 _ _ Hy) as [Hne _]. contradiction.
    + cbn in Hin. intuition discriminate.
  - intros H. apply in_flat_map in H. destruct H as (x & _ & Hc).
    destruct (H3 _ _ Hc) as [Hne _]. contradiction.
  - intros c H. apply in_flat_map in H. destruct H as (x & Hx & Hc).
    destruct (H3 _ _ Hc) as [_ [->|Hin]].
    + apply in_flat_map in Hx. destruct Hx as (y & Hy & Hxy).
      destruct (H2 _ _ Hxy) as [_ [->|Hin]].
      * apply in_flat_map in Hy. destruct Hy as (z & Hz & Hyz).
        destruct (H1 _ _ Hyz) as [->|Hin]; [left; exact Hz|]. auto.
      * auto.
    + auto.
Qed.

(** X23. Text that holds none of [&], [<] and [>] is returned as it is. *)
Theorem htmlEscape_plain (s : string) :
  Str.Contains s "&" = false ->
  Str.Contains s "<" = false ->
  Str.Contains s ">" = false ->
  htmlEscape s = s.
Proof.
  intros Ha Hl Hg. unfold htmlEscape.
  rewrite (ReplaceAll_absent s "&") by exact Ha.
  rewrite (ReplaceAll_absent s "<") by exact Hl.
  apply ReplaceAll_absent, Hg.
Qed.

Lemma htmlEscape_plain_witness : htmlEscape "u_ex240101.log" = "u_ex240101.log".
Proof.
  refine (htmlEscape_plain "u_ex240101.log" _ _ _); reflexivity.
Defined.

(** ** What a run does to the statistics *)

(** Properties of the statistics that every update of a group
    preserves are maintained by the workers. *)
Section Stable.

Variable I : CompressionStats -> Prop.
Hypothesis I_error : forall msg st, I st -> I (append_error msg st).
Hypothesis I_after : forall n st, I st -> I (add_TotalSizeAfter n st).
Hypothesis I_file : forall n st,
  I st -> I (add_TotalSizeBefore n (incr_FilesCompressed (incr_FilesProcessed st))).

Lemma stable_addFilesToZip_loop destPath l : forall dir added,
  keeps I (addFilesToZip_loop destPath l dir added).
Proof.
  induction l as [|lf l IH]; intros dir added; cbn [addFilesToZip_loop].
  - auto with run.
  - apply keeps_bind; [auto with run|]. intros [e|].
    { split_keeps; auto using keeps_stats_write with run. }
    apply keeps_bind; [auto with run|]. intros [e|].
    { split_keeps; auto using keeps_stats_write with run. }
    apply keeps_bind; [auto with run|]. intros [n [e|]].
    { split_keeps; auto using keeps_stats_write with run. }
    apply keeps_section3; [apply I_file|].
    split_keeps; auto with run.
Qed.

Lemma stable_addFilesToZip l destPath : keeps I (addFilesToZip l destPath).
Proof.
  unfold addFilesToZip. apply keeps_bind; [apply stable_addFilesToZip_loop|].
  intros [dir added]. split_keeps; auto with run.
Qed.

Lemma stable_compressMonthGroup cfg groupKey l :
  keeps I (compressMonthGroup cfg groupKey l).
Proof.
  unfold compressMonthGroup. destruct l as [|first rest]; [auto with run|].
  apply keeps_bind; [auto with run|]. intros [e|]; [auto with run|].
  destruct (String.eqb _ "zip");
    [|destruct (String.eqb _ "gzip"); split_keeps; auto with run].
  apply keeps_bind; [apply stable_addFilesToZip|]. intros [added [e|]].
  { split_keeps; auto with run. }
  apply keeps_bind; [auto with run|]. intros [e|]; [auto with run|].
  apply keeps_bind.
  { unfold verifyZipContainsAll. split_keeps; auto using keeps_stats_write with run.
    apply keeps_silent, silent_verify_loop. }
  intros verified.
  apply keeps_bind; [|intros _].
  { destruct (DeleteOriginalAfterCompress cfg); [apply keeps_delete_verified|auto with run]. }
  split_keeps; auto using keeps_stats_write with run.
Qed.

Lemma stable_run_tasks cfg l : keeps I (run_tasks cfg l).
Proof.
  induction l as [|[gk fl] l IH]; cbn [run_tasks]; [auto with run|].
  apply keeps_bind; [|intros _; exact IH].
  unfold group_task. apply keeps_bind; [apply stable_compressMonthGroup|].
  intros [e|]; split_keeps; auto using keeps_stats_write with run.
Qed.

End Stable.

Lemma stable_processLogs (I : CompressionStats -> Prop) cfg :
  (forall msg st, I st -> I (append_error msg st)) ->
  (forall n st, I st -> I (add_TotalSizeAfter n st)) ->
  (forall n st, I st ->
     I (add_TotalSizeBefore n (incr_FilesCompressed (incr_FilesProcessed st)))) ->
  (forall n st, I st -> I (set_GroupCount n st)) ->
  keeps I (processLogs cfg).
Proof.
  intros He Ha Hf Hg.
  unfold processLogs. apply keeps_bind; [auto with run|]. intros [e|]; [auto with run|].
  apply keeps_bind; [apply keeps_findLogFiles|]. intros [logFiles [e|]]; [auto with run|].
  destruct logFiles as [|lf logFiles]; [split_keeps; auto with run|].
  apply keeps_bind; [auto with run|]. intros _.
  apply keeps_bind; [auto with run|]. intros t.
  apply keeps_bind; [apply keeps_stats_write; intros st; apply Hg|]. intros _.
  apply keeps_bind; [apply stable_run_tasks; assumption|]. auto with run.
Qed.

(** X24. [processLogs] only ever appends to the list of errors: the
    errors recorded before it starts are a prefix of the list at its
    end and of every list published when the lock is released, and it
    leaves the start time, the end time and the mail status alone. *)
Theorem errors_only_grow (cfg : Config) (s : State) :
  let r := processLogs cfg s in
  extends_errors (Errors (stats s)) (stats (final r))
  /\ Forall (snapshot_ok (extends_errors (Errors (stats s)))) (events r)
  /\ StartTime (stats (final r)) = StartTime (stats s)
  /\ EndTime (stats (final r)) = EndTime (stats s)
  /\ EmailStatus (stats (final r)) = EmailStatus (stats s).
Proof.
  cbv zeta.
  set (I := fun st => extends_errors (Errors (stats s)) st
                      /\ StartTime st = StartTime (stats s)
                      /\ EndTime st = EndTime (stats s)
                      /\ EmailStatus st = EmailStatus (stats s)).
  assert (HI : keeps I (processLogs cfg)).
  { apply stable_processLogs; subst I; cbv beta;
      intros ? st ((more & Hm) & H1 & H2 & H3); (split; [|auto]).
    - exists (more ++ [msg]). cbn [append_error Errors]. rewrite Hm, app_assoc. reflexivity.
    - exists more. exact Hm.
    - exists more. exact Hm.
    - exists more. exact Hm. }
  destruct (HI s) as [(Hx & H1 & H2 & H3) Hev].
  { subst I. cbv beta. split; [exists []; rewrite app_nil_r; reflexivity|auto]. }
  split; [exact Hx|]. split; [|auto].
  eapply Forall_impl; [exact Hev|]. intros [] H; try exact Logic.I. exact (proj1 H).
Qed.

(** X25. When the scan finds files, the group count that the summary
    and the report show is the number of groups handed to the workers,
    the current period left out as configured; no worker changes it,
    whether its group succeeds or fails. *)
Theorem group_count_reported (cfg : Config) (s : State) :
  let r := processLogs cfg s in
  let found := fst (result (findLogFiles cfg s)) in
  result r = None -> found <> [] ->
  GroupCount (stats (final r))
  = Z.of_nat (size (grouping cfg (now (world s)) found)).
Proof.
  cbv zeta. destruct (os_MkdirAll_effect (DestFolder cfg) s) as [_ Hg].
  destruct (grown_fields _ _ _ Hg) as (_ & Hnow & _ & Hst).
  pose proof (processLogs_run cfg s) as E. cbv zeta in E.
  rewrite (findLogFiles_after_mkdir cfg _ _ _ Hg), Hnow in E. rewrite E. clear E.
  destruct (result (os_MkdirAll (DestFolder cfg) s)) as [e|]; [discriminate|].
  destruct (snd (result (findLogFiles cfg s))) as [e|]; [discriminate|].
  destruct (fst (result (findLogFiles cfg s))) as [|lf logFiles];
    [intros _ H; contradiction|].
  intros _ _. unfold final at 1. cbn [fst snd].
  set (n := Z.of_nat (size (grouping cfg (now (world s)) (lf :: logFiles)))).
  assert (Hk : keeps (fun st => GroupCount st = n)
                 (run_tasks cfg (map_to_list (grouping cfg (now (world s)) (lf :: logFiles))))).
  { apply stable_run_tasks; intros ? st H; exact H. }
  apply Hk. reflexivity.
Qed.

Lemma group_count_reported_witness :
  GroupCount (stats (final (processLogs Sample.cfg Sample.start))) = 1.
Proof.
  refine (eq_trans (group_count_reported Sample.cfg Sample.start _ _) _).
  - vm_compute. reflexivity.
  - vm_compute. discriminate.
  - vm_compute. reflexivity.
Defined.

(** ** Files a group leaves alone *)

Create HintDb frame.

Lemma spares_bind {A B} q (m : M A) (k : A -> M B) :
  spares q m -> (forall s, spares q (k (result (m s)))) -> spares q (bind m k).
Proof. intros Hm Hk s. rewrite final_bind, Hk. apply Hm. Qed.

Lemma spares_silent {A} q (m : M A) : silent m -> spares q m.
Proof. intros H s. destruct (H s) as [-> _]. reflexivity. Qed.

Lemma spares_ret {A} q (a : A) : spares q (ret a).
Proof. intros s. reflexivity. Qed.

Lemma spares_emit q e : spares q (emit e).
Proof. intros s. reflexivity. Qed.

Lemma spares_stats_write q f : spares q (stats_write f).
Proof. intros s. reflexivity. Qed.

Lemma spares_os_Remove q p : p <> q -> spares q (os_Remove p).
Proof.
  intros Hne s. unfold os_Remove, final. cbn [fst snd].
  destruct (locks (world s) !! p) as [[|n]|]; cbn [fst snd world set_locks files];
    try reflexivity;
    destruct (files (world s) !! p); cbn [fst snd world set_files files];
    try reflexivity; apply lookup_delete_ne; exact Hne.
Qed.

Lemma spares_os_Create q p : p <> q -> spares q (os_Create p).
Proof.
  intros Hne s. unfold os_Create, bind, fails, time_Now, modify_world, ret, final.
  destruct (faults (world s) (OpCreate p)); cbn [fst snd world set_files files];
    [reflexivity|]. apply lookup_insert_ne. exact Hne.
Qed.

Lemma spares_zip_Close q p dir : p <> q -> spares q (zip_Close p dir).
Proof.
  intros Hne s. unfold zip_Close, bind, fails, time_Now, get_world, modify_world, ret, final.
  destruct (faults (world s) (OpZipClose p)); cbn [fst snd world set_files files];
    [reflexivity|]. apply lookup_insert_ne. exact Hne.
Qed.

#[export] Hint Resolve spares_ret spares_emit spares_stats_write spares_os_Remove
  spares_os_Create spares_zip_Close : frame.
#[export] Hint Extern 5 (spares _ _) =>
  (apply spares_silent; solve [auto with run]) : frame.
#[export] Hint Extern 1 (spares _ (Printf _)) => apply spares_emit : frame.
#[export] Hint Extern 1 (spares _ mu_Lock) => apply spares_emit : frame.
#[export] Hint Extern 1 (spares _ mu_Unlock) => (intros ?; reflexivity) : frame.
#[export] Hint Extern 1 (spares _ (time_Sleep _)) => apply spares_emit : frame.

Ltac split_spares :=
  repeat first
    [ solve [auto with frame]
    | apply spares_bind; [|intros ?]
    | match goal with
      | |- spares _ (match ?x with _ => _ end) => destruct x
      | |- spares _ (let (_, _) := ?x in _) => destruct x
      end ].

Lemma spares_addFilesToZip_loop q destPath l : forall dir added,
  spares q (addFilesToZip_loop destPath l dir added).
Proof.
  induction l as [|lf l IH]; intros dir added; cbn [addFilesToZip_loop].
  - auto with frame.
  - split_spares; auto with frame.
Qed.

Lemma spares_addFilesToZip q l destPath :
  destPath <> q -> spares q (addFilesToZip l destPath).
Proof.
  intros Hne. unfold addFilesToZip.
  apply spares_bind; [apply spares_addFilesToZip_loop|]. intros s.
  split_spares; auto with frame.
Qed.

Lemma spares_verifyZipContainsAll q zipPath added :
  spares q (verifyZipContainsAll zipPath added).
Proof.
  intros s. rewrite verifyZipContainsAll_run.
  destruct (result (zip_OpenReader zipPath s)); reflexivity.
Qed.

Lemma spares_deleteWithRetry_from q path delay : path <> q -> forall left lastErr,
  spares q (deleteWithRetry_from path left delay lastErr).
Proof.
  intros Hne. induction left as [|k IH]; intros lastErr; cbn [deleteWithRetry_from].
  - auto with frame.
  - split_spares; auto with frame.
Qed.

Lemma spares_delete_verified q (l : list (string * bool)) :
  (forall p, In (p, true) l -> p <> q) -> spares q (delete_verified l).
Proof.
  induction l as [|[path ok] l IH]; intros Hl; cbn [delete_verified].
  - auto with frame.
  - apply spares_bind; [|intros _; apply IH; intros p Hp; apply Hl; right; exact Hp].
    destruct ok; [|auto with frame].
    apply spares_bind.
    + apply spares_deleteWithRetry_from, Hl. left. reflexivity.
    + intros s. split_spares; auto with frame.
Qed.

Lemma spares_compressMonthGroup cfg groupKey l q :
  q <> container_path cfg l -> ~ In q (map Path l) ->
  spares q (compressMonthGroup cfg groupKey l).
Proof.
  intros Hdest Hmem.
  destruct l as [|first rest]; [apply spares_ret|].
  unfold compressMonthGroup. fold (container_path cfg (first :: rest)).
  set (l := first :: rest) in *. set (dest := container_path cfg l) in *.
  assert (Hne : dest <> q) by congruence.
  apply spares_bind; [auto with frame|]. intros s0.
  destruct (result (os_Create dest s0)); [auto with frame|].
  destruct (String.eqb _ "zip");
    [|destruct (String.eqb _ "gzip"); split_spares; auto with frame].
  apply spares_bind; [apply spares_addFilesToZip, Hne|]. intros s1.
  destruct (addFilesToZip_run l dest s1) as [Hadded _].
  destruct (result (addFilesToZip l dest s1)) as [added err]. cbn [fst] in Hadded.
  destruct err; [split_spares; auto with frame|].
  apply spares_bind; [auto with frame|]. intros s2.
  destruct (result (file_Close dest s2)); [auto with frame|].
  apply spares_bind; [apply spares_verifyZipContainsAll|]. intros s3.
  apply spares_bind; [|intros s4; split_spares; auto with frame].
  destruct (DeleteOriginalAfterCompress cfg); [|auto with frame].
  apply spares_delete_verified. intros p Hp ->. apply Hmem.
  apply list_elem_of_In, elem_of_map_to_list, verified_in_record in Hp.
  rewrite Hadded in Hp. apply in_map_iff in Hp. destruct Hp as (lf & <- & Hlf).
  apply in_map. apply filter_In in Hlf. apply Hlf.
Qed.

(** X26. A group touches only its own files: whatever happens while
    it runs, a path that is neither its container nor one of its
    members holds afterwards what it held before. *)
Theorem group_spares_other_files (cfg : Config) (groupKey : string)
    (l : list LogFile) (s : State) (q : string) :
  q <> container_path cfg l ->
  ~ In q (map Path l) ->
  files (world (final (compressMonthGroup cfg groupKey l s))) !! q
  = files (world s) !! q.
Proof. intros Hdest Hmem. apply spares_compressMonthGroup; assumption. Qed.

Lemma spares_run_tasks cfg q (l : list (string * list LogFile)) :
  (forall k g, In (k, g) l -> q <> container_path cfg g /\ ~ In q (map Path g)) ->
  spares q (run_tasks cfg l).
Proof.
  induction l as [|[gk fl] l IH]; intros Hl; cbn [run_tasks]; [apply spares_ret|].
  apply spares_bind; [|intros _; apply IH; intros k g H; apply (Hl k g); right; exact H].
  destruct (Hl gk fl (or_introl eq_refl)) as [Hd Hm].
  unfold group_task. apply spares_bind; [apply spares_compressMonthGroup; assumption|].
  intros s. split_spares; auto with frame.
Qed.

Lemma group_spares_other_files_witness :
  files (world (final (compressMonthGroup Sample.cfg "2024-01" Extra.site1 Sample.start)))
    !! Sample.site2_jan1
  = files (world Sample.start) !! Sample.site2_jan1.
Proof.
  refine (group_spares_other_files Sample.cfg "2024-01" Extra.site1 Sample.start
            Sample.site2_jan1 _ _).
  - vm_compute. discriminate.
  - vm_compute. intros [H|[H|[]]]; discriminate H.
Defined.

(** What [processLogs] leaves alone: a path that is neither a member
    nor the container of a group handed to the workers, nor a folder
    [os.MkdirAll] may create. *)
Lemma spares_processLogs cfg s q :
  ~ In q (mkdir_chain (String.length (DestFolder cfg)) (DestFolder cfg)) ->
  (forall k g,
     grouping cfg (now (world s)) (fst (result (findLogFiles cfg s))) !! k = Some g ->
     q <> container_path cfg g /\ ~ In q (map Path g)) ->
  files (world (final (processLogs cfg s))) !! q = files (world s) !! q.
Proof.
  intros Hq. destruct (os_MkdirAll_effect (DestFolder cfg) s) as [_ Hg].
  destruct (grown_fields _ _ _ Hg) as (_ & Hnow & _ & Hst).
  pose proof (grown_lookup _ _ _ q Hg Hq) as Hs1.
  pose proof (processLogs_run cfg s) as E. cbv zeta in E.
  rewrite (findLogFiles_after_mkdir cfg _ _ _ Hg), Hnow in E. rewrite E. clear E.
  destruct (result (os_MkdirAll (DestFolder cfg) s)) as [e|]; [intros _; exact Hs1|].
  destruct (snd (result (findLogFiles cfg s))) as [e|]; [intros _; exact Hs1|].
  destruct (fst (result (findLogFiles cfg s))) as [|lf logFiles]; [intros _; exact Hs1|].
  intros Hgr. unfold final at 1. cbn [fst snd].
  rewrite spares_run_tasks; [exact Hs1|].
  intros k g Hin. apply (Hgr k g).
  apply elem_of_map_to_list, list_elem_of_In. exact Hin.
Qed.

(** X27. The logs of the current period stay: under daily scope, and
    under monthly scope unless the current month is included, a path
    the scan reports only with a time of the current period holds after
    [processLogs] what it held before, provided that no container is
    written at this very path and that it is neither the destination
    folder nor a folder above it. *)
Theorem current_period_is_spared (cfg : Config) (s : State) (q : string) :
  let found := fst (result (findLogFiles cfg s)) in
  let nowKey := groupKeyForTime cfg (now (world s)) in
  (Str.ToLower (ArchiveScope cfg) = "monthly" -> CompressCurrentMonth cfg = false) ->
  (forall lf, In lf found -> Path lf = q -> groupKeyForTime cfg (ModTime lf) = nowKey) ->
  (forall k g, grouping cfg (now (world s)) found !! k = Some g ->
               q <> container_path cfg g) ->
  ~ In q (mkdir_chain (String.length (DestFolder cfg)) (DestFolder cfg)) ->
  files (world (final (processLogs cfg s))) !! q = files (world s) !! q.
Proof.
  cbv zeta. intros Hscope Hkey Hdest Hdir. apply spares_processLogs; [exact Hdir|].
  intros k g Hg. split; [apply (Hdest k g Hg)|].
  assert (Hdel : grouping cfg (now (world s)) (fst (result (findLogFiles cfg s)))
                 = delete (groupKeyForTime cfg (now (world s)))
                     (group_files cfg (fst (result (findLogFiles cfg s))))).
  { unfold grouping, exclude_current.
    destruct (String.eqb_spec (Str.ToLower (ArchiveScope cfg)) "monthly") as [E|_];
      [rewrite (Hscope E)|]; reflexivity. }
  rewrite Hdel in Hg.
  destruct (decide (k = groupKeyForTime cfg (now (world s)))) as [->|Hk].
  { rewrite lookup_delete_eq in Hg. discriminate. }
  rewrite lookup_delete_ne in Hg by congruence.
  unfold group_files in Hg. rewrite group_foldl_lookup, lookup_empty in Hg.
  intros Hin. apply in_map_iff in Hin. destruct Hin as (lf & Hp & Hlf).
  assert (Hf : lf ∈ filter (fun x => groupKeyForTime cfg (ModTime x) = k)
                      (fst (result (findLogFiles cfg s)))).
  { destruct (filter _ _) as [|x g'] eqn:E; [discriminate|].
    injection Hg as <-. apply list_elem_of_In. exact Hlf. }
  apply list_elem_of_filter in Hf. destruct Hf as [Hkey' Hfound].
  apply Hk. rewrite <- Hkey'. apply Hkey; [apply list_elem_of_In, Hfound|exact Hp].
Qed.

Lemma current_period_is_spared_witness :
  files (world (final (processLogs Sample.cfg Extra.busy))) !! Extra.feb10
  = files (world Extra.busy) !! Extra.feb10.
Proof.
  refine (current_period_is_spared Sample.cfg Extra.busy Extra.feb10 _ _ _ _).
  - intros _. reflexivity.
  - intros lf Hin Hp. vm_compute in Hin. destruct Hin as [<-|[<-|[]]].
    + vm_compute in Hp. discriminate Hp.
    + vm_compute. reflexivity.
  - change (map_Forall (fun _ g => Extra.feb10 <> container_path Sample.cfg g)
              (grouping Sample.cfg (now (world Extra.busy))
                 (fst (result (findLogFiles Sample.cfg Extra.busy))))).
    apply (bool_decide_unpack _). vm_compute. exact I.
  - vm_compute. intros [H|[]]; discriminate H.
Defined.

(** ** What retention does to the files *)

Lemma only_removes_bind {A B} (m : M A) (k : A -> M B) :
  only_removes m -> (forall a, only_removes (k a)) -> only_removes (bind m k).
Proof.
  intros Hm Hk s. rewrite final_bind.
  destruct (Hm s) as [H1 H2]. destruct (Hk (result (m s)) (final (m s))) as [H3 H4].
  split; [congruence|]. etransitivity; eassumption.
Qed.

Lemma only_removes_silent {A} (m : M A) : silent m -> only_removes m.
Proof. intros H s. destruct (H s) as [-> _]. split; reflexivity. Qed.

Lemma only_removes_emit e : only_removes (emit e).
Proof. intros s. split; reflexivity. Qed.

Lemma only_removes_os_Remove p : only_removes (os_Remove p).
Proof.
  intros s. unfold os_Remove, final. cbn [fst snd].
  destruct (locks (world s) !! p) as [[|n]|]; cbn [fst snd world stats set_locks files];
    try (split; reflexivity);
    destruct (files (world s) !! p); cbn [fst snd world stats set_files files];
    try (split; reflexivity); (split; [reflexivity|apply delete_subseteq]).
Qed.

#[export] Hint Resolve only_removes_emit only_removes_os_Remove : frame.
#[export] Hint Extern 5 (only_removes _) =>
  (apply only_removes_silent; solve [auto with run]) : frame.
#[export] Hint Extern 1 (only_removes (Printf _)) => apply only_removes_emit : frame.

Ltac split_removes :=
  repeat first
    [ solve [auto with frame]
    | apply only_removes_bind; [|intros ?]
    | match goal with
      | |- only_removes (match ?x with _ => _ end) => destruct x
      | |- only_removes (if ?x then _ else _) => destruct x
      end ].

Lemma only_removes_collect_archives cfg entries : forall found,
  only_removes (collect_archives cfg entries found).
Proof.
  induction entries as [|e entries IH]; intros found; cbn [collect_archives].
  - auto with frame.
  - destruct (de_isDir e); [apply IH|].
    destruct (_ && _); [apply IH|].
    apply only_removes_bind; [auto with frame|]. intros [f|]; apply IH.
Qed.

Lemma only_removes_remove_beyond cfg l : forall idx,
  only_removes (remove_beyond cfg l idx).
Proof.
  induction l as [|f l IH]; intros idx; cbn [remove_beyond].
  - auto with frame.
  - apply only_removes_bind; [|intros _; apply IH]. split_removes.
Qed.

Lemma only_removes_walk_loop {A} (fn : WalkEntry -> A -> M (A * error)) l :
  (forall e a, only_removes (fn e a)) -> forall acc, only_removes (walk_loop fn l acc).
Proof.
  intros Hfn. induction l as [|e l IH]; intros acc; cbn [walk_loop].
  - auto with frame.
  - apply only_removes_bind; [apply Hfn|]. intros [acc1 [msg|]]; auto with frame.
Qed.

Lemma only_removes_cleanup cfg : only_removes (cleanupOldCompressedLogs cfg).
Proof.
  unfold cleanupOldCompressedLogs.
  destruct (0 <? KeepLastNArchives cfg).
  - apply only_removes_bind.
    { intros s. split; reflexivity. }
    intros [entries|e]; [|auto with frame].
    apply only_removes_bind; [apply only_removes_collect_archives|]. intros found.
    apply only_removes_bind; [apply only_removes_remove_beyond|]. auto with frame.
  - destruct (RetentionDays cfg <=? 0); [auto with frame|].
    apply only_removes_bind; [auto with frame|]. intros t.
    apply only_removes_bind; [|intros [[] err]; auto with frame].
    unfold filepath_Walk.
    apply only_removes_bind; [auto with frame|]. intros _.
    apply only_removes_bind; [auto with frame|]. intros w.
    apply only_removes_walk_loop. intros e a. unfold cleanup_fn. split_removes.
Qed.

(** X28. Retention only removes: under either policy, every file
    present when [cleanupOldCompressedLogs] returns was present before
    with the same content, and the statistics are as they were, so
    that neither the removals nor their failures are counted. *)
Theorem cleanup_only_removes (cfg : Config) (s : State) :
  let r := cleanupOldCompressedLogs cfg s in
  stats (final r) = stats s
  /\ files (world (final r)) ⊆ files (world s).
Proof. exact (only_removes_cleanup cfg s). Qed.

(** ** Statistics, continued *)

Lemma addFilesToZip_counts l destPath s :
  let r := addFilesToZip l destPath s in
  FilesProcessed (stats (final r))
  = Nat.iter (length (fst (result r))) incr (FilesProcessed (stats s))
  /\ FilesCompressed (stats (final r))
     = Nat.iter (length (fst (result r))) incr (FilesCompressed (stats s)).
Proof.
  cbv zeta. destruct (addFilesToZip_run l destPath s) as [-> Hf].
  rewrite length_map.
  destruct (account_counts (world s) l (stats s)) as [Hp Hc].
  destruct (faults (world s) (OpZipClose destPath)); destruct Hf as [_ ->];
    cbn [stats]; auto.
Qed.

(** Apart from the build, [compressMonthGroup] maintains every property
    of the statistics that the recording of an error and of the size of
    the container preserve. *)
Section Frozen.

Variable I : CompressionStats -> Prop.
Hypothesis I_error : forall msg st, I st -> I (append_error msg st).
Hypothesis I_after : forall n st, I st -> I (add_TotalSizeAfter n st).

Lemma frozen_after_build cfg groupKey first rest s :
  let l := first :: rest in
  result (os_Create (container_path cfg l) s) = None ->
  String.eqb (Str.ToLower (CompressionType cfg)) "zip" = true ->
  I (stats (final (built cfg l s))) ->
  I (stats (final (compressMonthGroup cfg groupKey l s))).
Proof.
  cbv zeta. intros Hc Hz. unfold compressMonthGroup.
  fold (container_path cfg (first :: rest)).
  set (l := first :: rest) in *. set (dest := container_path cfg l) in *.
  rewrite final_bind, Hc. cbv beta iota. rewrite Hz, final_bind.
  change (addFilesToZip l dest (final (os_Create dest s))) with (built cfg l s).
  generalize (final (built cfg l s)). intros s2.
  destruct (result (built cfg l s)) as [added err]. intros HI.
  match goal with |- I (stats (final (?m s2))) => assert (Hk : keeps I m) end.
  { destruct err as [e|].
    - split_keeps; auto with run.
    - apply keeps_bind; [auto with run|]. intros [e|]; [auto with run|].
      apply keeps_bind.
      { unfold verifyZipContainsAll. split_keeps; auto using keeps_stats_write with run.
        apply keeps_silent, silent_verify_loop. }
      intros verified.
      apply keeps_bind; [|intros _].
      { destruct (DeleteOriginalAfterCompress cfg);
          [apply keeps_delete_verified|auto with run]. }
      split_keeps; auto using keeps_stats_write with run. }
  apply Hk, HI.
Qed.

Lemma frozen_without_build cfg groupKey first rest s :
  let l := first :: rest in
  result (os_Create (container_path cfg l) s) <> None
  \/ String.eqb (Str.ToLower (CompressionType cfg)) "zip" = false ->
  I (stats s) ->
  I (stats (final (compressMonthGroup cfg groupKey l s))).
Proof.
  cbv zeta. intros Hcase HI. unfold compressMonthGroup.
  fold (container_path cfg (first :: rest)).
  set (l := first :: rest) in *. set (dest := container_path cfg l) in *.
  rewrite final_bind.
  pose proof (proj1 (keeps_os_Create I dest s HI)) as H1.
  destruct (result (os_Create dest s)) as [e|]; [exact H1|].
  destruct Hcase as [Hc|Hz]; [contradiction|]. rewrite Hz.
  revert H1. generalize (final (os_Create dest s)). intros s1 H1.
  match goal with |- I (stats (final (?m s1))) => assert (Hk : keeps I m) end.
  { destruct (String.eqb _ "gzip"); split_keeps; auto with run. }
  apply Hk, H1.
Qed.

Lemma frozen_group_task cfg gk fl s :
  I (stats (final (compressMonthGroup cfg gk fl s))) ->
  I (stats (final (group_task cfg gk fl s))).
Proof.
  unfold group_task. rewrite final_bind.
  generalize (final (compressMonthGroup cfg gk fl s)). intros s1 H1.
  destruct (result (compressMonthGroup cfg gk fl s)) as [e|]; [|exact H1].
  match goal with |- I (stats (final (?m s1))) => assert (Hk : keeps I m) end.
  { split_keeps; auto using keeps_stats_write with run. }
  apply Hk, H1.
Qed.

End Frozen.

(** [compressMonthGroup] advances both counters by the number of paths
    of its ArchiveRecord. *)
Lemma compressMonthGroup_counts cfg groupKey l s :
  let r := compressMonthGroup cfg groupKey l s in
  let n := length (archive_record cfg l s) in
  FilesProcessed (stats (final r)) = Nat.iter n incr (FilesProcessed (stats s))
  /\ FilesCompressed (stats (final r)) = Nat.iter n incr (FilesCompressed (stats s)).
Proof.
  cbv zeta. destruct l as [|first rest]; [split; reflexivity|].
  set (I := fun P C (st : CompressionStats) => FilesProcessed st = P /\ FilesCompressed st = C).
  assert (He : forall P C msg st, I P C st -> I P C (append_error msg st))
    by (intros P C msg st H; exact H).
  assert (Ha : forall P C n st, I P C st -> I P C (add_TotalSizeAfter n st))
    by (intros P C n st H; exact H).
  unfold archive_record.
  destruct (result (os_Create (container_path cfg (first :: rest)) s)) as [e|] eqn:Ec.
  { change (I (FilesProcessed (stats s)) (FilesCompressed (stats s))
              (stats (final (compressMonthGroup cfg groupKey (first :: rest) s)))).
    apply frozen_without_build; auto.
    - left. rewrite Ec. discriminate.
    - split; reflexivity. }
  destruct (String.eqb (Str.ToLower (CompressionType cfg)) "zip") eqn:Ez.
  - match goal with |- ?a = ?P /\ ?b = ?C =>
      change (I P C (stats (final (compressMonthGroup cfg groupKey (first :: rest) s)))) end.
    apply frozen_after_build; auto.
    unfold built.
    destruct (addFilesToZip_counts (first :: rest) (container_path cfg (first :: rest))
                (final (os_Create (container_path cfg (first :: rest)) s))) as [Hp Hc].
    pose proof (proj1 (keeps_os_Create (I (FilesProcessed (stats s)) (FilesCompressed (stats s)))
                         (container_path cfg (first :: rest)) s (conj eq_refl eq_refl)))
      as [H1 H2].
    split; [rewrite Hp, H1|rewrite Hc, H2]; reflexivity.
  - change (I (FilesProcessed (stats s)) (FilesCompressed (stats s))
              (stats (final (compressMonthGroup cfg groupKey (first :: rest) s)))).
    apply frozen_without_build; auto.
    split; reflexivity.
Qed.

Lemma run_tasks_counts cfg l : forall s,
  let r := run_tasks cfg l s in
  let n := embedded_total cfg (task_states cfg l s) in
  FilesProcessed (stats (final r)) = Nat.iter n incr (FilesProcessed (stats s))
  /\ FilesCompressed (stats (final r)) = Nat.iter n incr (FilesCompressed (stats s)).
Proof.
  induction l as [|[gk fl] l IH]; intros s; cbv zeta; [split; reflexivity|].
  cbn [run_tasks task_states]. rewrite final_bind.
  unfold embedded_total. cbn [sum_list_with fst snd].
  fold (embedded_total cfg (task_states cfg l (final (group_task cfg gk fl s)))).
  destruct (IH (final (group_task cfg gk fl s))) as [Hp Hc]. cbv zeta in Hp, Hc.
  rewrite Hp, Hc.
  set (I := fun P C (st : CompressionStats) => FilesProcessed st = P /\ FilesCompressed st = C).
  assert (Hg : I (Nat.iter (length (archive_record cfg fl s)) incr (FilesProcessed (stats s)))
                 (Nat.iter (length (archive_record cfg fl s)) incr (FilesCompressed (stats s)))
                 (stats (final (group_task cfg gk fl s)))).
  { apply frozen_group_task; [intros msg st H; exact H|].
    apply compressMonthGroup_counts. }
  destruct Hg as [-> ->].
  rewrite Nat.add_comm, !Nat.iter_add. split; reflexivity.
Qed.

(** The components of an outcome written as a triple. *)
Ltac triple :=
  repeat match goal with
         | |- context [final (?a, ?b, ?c)] => change (final (a, b, c)) with b
         | |- context [result (?a, ?b, ?c)] => change (result (a, b, c)) with a
         | |- context [events (?a, ?b, ?c)] => change (events (a, b, c)) with c
         end.

Lemma processLogs_counts cfg s :
  let r := processLogs cfg s in
  let n := embedded_total cfg (dispatched cfg s) in
  FilesProcessed (stats (final r)) = Nat.iter n incr (FilesProcessed (stats s))
  /\ FilesCompressed (stats (final r)) = Nat.iter n incr (FilesCompressed (stats s)).
Proof.
  cbv zeta. destruct (os_MkdirAll_effect (DestFolder cfg) s) as [_ Hg].
  destruct (grown_fields _ _ _ Hg) as (_ & _ & _ & Hst).
  rewrite processLogs_run. cbv zeta. unfold dispatched.
  set (s1 := final (os_MkdirAll (DestFolder cfg) s)) in *.
  destruct (result (os_MkdirAll (DestFolder cfg) s)) as [e|];
    [triple; rewrite Hst; split; reflexivity|].
  destruct (snd (result (findLogFiles cfg s1))) as [e|];
    [triple; rewrite Hst; split; reflexivity|].
  destruct (fst (result (findLogFiles cfg s1))) as [|lf found];
    [triple; rewrite Hst; split; reflexivity|].
  triple.
  match goal with |- context [run_tasks cfg ?l ?s2] =>
    destruct (run_tasks_counts cfg l s2) as [Hp Hc] end.
  cbv zeta in Hp, Hc. rewrite Hp, Hc. cbn [stats set_GroupCount FilesProcessed FilesCompressed].
  rewrite Hst. split; reflexivity.
Qed.

(** C9. In a grouped-archive run that starts with equal counters,
    [FilesProcessed] and [FilesCompressed] are equal at the end and in
    the statistics published at every release of the lock, and each
    group task maintains the equality from whichever state it starts
    in.  Both counters advance together and by embedded files only,
    whatever the state at the start: [addFilesToZip] advances each by
    the number of paths it reports as added, [compressMonthGroup] by
    the number of paths of its ArchiveRecord, and [processLogs] by the
    number of paths in the ArchiveRecords of its group tasks; retention
    leaves the statistics as they are. *)
Theorem counters_agree_throughout (cfg : Config) (s : State) :
  (counters_agree (stats s) ->
   (let r := processLogs cfg s in
    counters_agree (stats (final r))
    /\ forall snap, In (EvUnlock snap) (events r) -> counters_agree snap)
   /\ (forall groupKey l,
         let r := compressMonthGroup cfg groupKey l s in
         counters_agree (stats (final r))
         /\ forall snap, In (EvUnlock snap) (events r) -> counters_agree snap))
  /\ (forall l destPath,
        let r := addFilesToZip l destPath s in
        FilesProcessed (stats (final r))
        = Nat.iter (length (fst (result r))) incr (FilesProcessed (stats s))
        /\ FilesCompressed (stats (final r))
           = Nat.iter (length (fst (result r))) incr (FilesCompressed (stats s)))
  /\ (forall groupKey l,
        let r := compressMonthGroup cfg groupKey l s in
        let n := length (archive_record cfg l s) in
        FilesProcessed (stats (final r)) = Nat.iter n incr (FilesProcessed (stats s))
        /\ FilesCompressed (stats (final r)) = Nat.iter n incr (FilesCompressed (stats s)))
  /\ (let r := processLogs cfg s in
      let n := embedded_total cfg (dispatched cfg s) in
      FilesProcessed (stats (final r)) = Nat.iter n incr (FilesProcessed (stats s))
      /\ FilesCompressed (stats (final r)) = Nat.iter n incr (FilesCompressed (stats s)))
  /\ stats (final (cleanupOldCompressedLogs cfg s)) = stats s.
Proof.
  assert (Hsnap : forall evs, Forall (snapshot_ok counters_agree) evs ->
            forall snap, In (EvUnlock snap) evs -> counters_agree snap).
  { intros evs HF snap Hin. rewrite Forall_forall in HF.
    apply (HF (EvUnlock snap)), list_elem_of_In, Hin. }
  split; [|split; [|split; [|split]]].
  - intros H. split.
    + destruct (keeps_processLogs cfg s H) as [Hf He]. split; [exact Hf|]. apply Hsnap, He.
    + intros groupKey l. destruct (keeps_compressMonthGroup cfg groupKey l s H) as [Hf He].
      split; [exact Hf|]. apply Hsnap, He.
  - intros l destPath. apply addFilesToZip_counts.
  - intros groupKey l. apply compressMonthGroup_counts.
  - apply processLogs_counts.
  - apply only_removes_cleanup.
Qed.

Lemma counters_agree_throughout_witness :
  counters_agree (stats (final (processLogs Sample.cfg Sample.start)))
  /\ FilesProcessed (stats (final (processLogs Sample.cfg Sample.start)))
     = Nat.iter (embedded_total Sample.cfg (dispatched Sample.cfg Sample.start)) incr
         (FilesProcessed (stats Sample.start)).
Proof.
  split.
  - exact (proj1 (proj1 (proj1 (counters_agree_throughout Sample.cfg Sample.start)
                           eq_refl))).
  - exact (proj1 (proj1 (proj2 (proj2 (proj2
             (counters_agree_throughout Sample.cfg Sample.start)))))).
Defined.

(** ** Deletion guard, for a run *)

Lemma group_task_removals cfg gk fl s p ok :
  In (EvRemove p ok) (events (group_task cfg gk fl s)) ->
  In (EvRemove p ok) (events (compressMonthGroup cfg gk fl s)).
Proof.
  unfold group_task. rewrite events_bind. intros H. apply in_app_or in H.
  destruct H as [H|H]; [exact H|]. exfalso. revert H.
  generalize (final (compressMonthGroup cfg gk fl s)). intros s1.
  destruct (result (compressMonthGroup cfg gk fl s)) as [e|];
    cbn; intuition discriminate.
Qed.

Lemma run_tasks_removals cfg p ok l : forall s,
  In (EvRemove p ok) (events (run_tasks cfg l s)) ->
  exists gk fl s',
    In (gk, fl, s') (task_states cfg l s)
    /\ In (EvRemove p ok) (events (compressMonthGroup cfg gk fl s')).
Proof.
  induction l as [|[gk fl] l IH]; intros s; cbn [run_tasks task_states].
  - intros [].
  - rewrite events_bind. intros H. apply in_app_or in H. destruct H as [H|H].
    + exists gk, fl, s. split; [left; reflexivity|]. apply group_task_removals, H.
    + destruct (IH _ H) as (gk' & fl' & s' & Hin & Hev).
      exists gk', fl', s'. split; [right; exact Hin|exact Hev].
Qed.

Lemma processLogs_removals cfg s p ok :
  In (EvRemove p ok) (events (processLogs cfg s)) ->
  exists gk fl s',
    In (gk, fl, s') (dispatched cfg s)
    /\ In (EvRemove p ok) (events (compressMonthGroup cfg gk fl s')).
Proof.
  rewrite processLogs_run. cbv zeta. unfold dispatched.
  set (s1 := final (os_MkdirAll (DestFolder cfg) s)) in *.
  destruct (result (os_MkdirAll (DestFolder cfg) s)) as [e|]; [triple; intros []|].
  destruct (snd (result (findLogFiles cfg s1))) as [e|];
    [triple; cbn; intuition discriminate|].
  destruct (fst (result (findLogFiles cfg s1))) as [|lf found];
    [triple; cbn; intuition discriminate|].
  triple. intros H. apply in_app_or in H. destruct H as [H|H];
    [cbn in H; intuition discriminate|].
  apply run_tasks_removals, H.
Qed.



